(** * User registry of the example MCP server

    A shallow embedding of [createUser] and of the four handlers that
    touch [./data/users.json] (tools [create-user] and
    [create-random-user], resources [Users] and [user-details]), together
    with the parts of the JavaScript runtime they rely on: strings as
    sequences of UTF-16 code units, IEEE-754 doubles, [Number(...)],
    [JSON.parse], [JSON.stringify], object spread, strict equality and the
    module cache behind [import()]. *)

From Stdlib Require Import List ZArith NArith PArith Bool String Ascii Lia Sorted Finite.
From Stdlib Require DecimalPos DecimalN DecimalFacts.
Import ListNotations.

(** ** Strings *)

Module JsString.

(** A JavaScript string is a sequence of 16-bit code units. *)
Definition code_unit := N.
Definition jstring := list code_unit.

Definition ch (a : ascii) : code_unit := N_of_ascii a.

(** An ASCII literal of the source as a JavaScript string. *)
Definition lit (s : string) : jstring := map N_of_ascii (list_ascii_of_string s).

Fixpoint str_eqb (a b : jstring) : bool :=
  match a, b with
  | [], [] => true
  | x :: a', y :: b' => N.eqb x y && str_eqb a' b'
  | _, _ => false
  end.

(** WhiteSpace and LineTerminator code points of ECMAScript: the
    characters removed by [String.prototype.trim] and skipped by
    [Number(...)] around a numeric literal. *)
Definition is_white_space (c : code_unit) : bool :=
  ((9 <=? c) && (c <=? 13) || (c =? 32) || (c =? 160) || (c =? 5760)
   || (8192 <=? c) && (c <=? 8202) || (c =? 8232) || (c =? 8233)
   || (c =? 8239) || (c =? 8287) || (c =? 12288) || (c =? 65279))%N.

Fixpoint trimStart (s : jstring) : jstring :=
  match s with
  | c :: s' => if is_white_space c then trimStart s' else s
  | [] => []
  end.

Definition trimEnd (s : jstring) : jstring := rev (trimStart (rev s)).

(** [s.trim()] *)
Definition trim (s : jstring) : jstring := trimEnd (trimStart s).

(** [strip_prefix p s] is [Some r] when [s = p ++ r]. *)
Fixpoint strip_prefix (p s : jstring) : option jstring :=
  match p, s with
  | [], _ => Some s
  | x :: p', y :: s' => if N.eqb x y then strip_prefix p' s' else None
  | _ :: _, [] => None
  end.

(** [s.replace(/^p/, "")] for a literal pattern [p]: the anchored
    pattern matches at index 0 only. *)
Definition remove_leading (p s : jstring) : jstring :=
  match strip_prefix p s with
  | Some r => r
  | None => s
  end.

(** [s.replace(/p$/, "")] for a literal pattern [p]: without the [m]
    flag [$] matches at the end of the input only, so the only match
    is the last [length p] code units. *)
Definition remove_trailing (p s : jstring) : jstring :=
  match strip_prefix (rev p) (rev s) with
  | Some r => rev r
  | None => s
  end.

Definition is_digit (c : code_unit) : bool := ((48 <=? c) && (c <=? 57))%N.

Fixpoint uint_units (d : Decimal.uint) : jstring :=
  match d with
  | Decimal.Nil => []
  | Decimal.D0 d => 48%N :: uint_units d
  | Decimal.D1 d => 49%N :: uint_units d
  | Decimal.D2 d => 50%N :: uint_units d
  | Decimal.D3 d => 51%N :: uint_units d
  | Decimal.D4 d => 52%N :: uint_units d
  | Decimal.D5 d => 53%N :: uint_units d
  | Decimal.D6 d => 54%N :: uint_units d
  | Decimal.D7 d => 55%N :: uint_units d
  | Decimal.D8 d => 56%N :: uint_units d
  | Decimal.D9 d => 57%N :: uint_units d
  end.

(** The decimal digits of a natural number, without leading zeros. *)
Definition decimal_digits (n : N) : jstring := uint_units (N.to_uint n).

End JsString.
Import JsString.

(** ** Numbers *)

Module JsNumber.

Local Open Scope Z_scope.

(** An IEEE-754 binary64 value in a canonical form: an integer-valued
    double is [Int z] (with [NegZero] apart), any other finite double
    is [Frac neg m k], of value [m / 2^k] with [m] odd. *)
Inductive number : Type :=
| NaN
| Infinity (neg : bool)
| NegZero
| Int (z : Z)
| Frac (neg : bool) (m k : positive).

Definition number_eqb (a b : number) : bool :=
  match a, b with
  | NaN, NaN => true
  | Infinity s, Infinity t => Bool.eqb s t
  | NegZero, NegZero => true
  | Int x, Int y => x =? y
  | Frac s m k, Frac t n j => Bool.eqb s t && Pos.eqb m n && Pos.eqb k j
  | _, _ => false
  end.

(** [Number::equal], the comparison behind [===] on numbers: [NaN]
    differs from everything, the two zeros are equal. *)
Definition number_equal (a b : number) : bool :=
  match a, b with
  | NaN, _ | _, NaN => false
  | NegZero, Int 0 | Int 0, NegZero => true
  | _, _ => number_eqb a b
  end.

Definition signed (neg : bool) (z : Z) : Z := if neg then - z else z.

(** [m / 2^k] in lowest terms. *)
Fixpoint reduce_dyadic (neg : bool) (m k : positive) : number :=
  match m with
  | xO m' =>
      match k with
      | xH => Int (signed neg (Zpos m'))
      | _ => reduce_dyadic neg m' (Pos.pred k)
      end
  | _ => Frac neg m k
  end.

(** The double of value [m * 2^e], for [m > 0]. *)
Definition make_finite (neg : bool) (m e : Z) : number :=
  if 0 <=? e then Int (signed neg (m * 2 ^ e))
  else match m, - e with
       | Zpos pm, Zpos pk => reduce_dyadic neg pm pk
       | _, _ => Int 0
       end.

(** [floor (log2 (p / q))] *)
Definition floor_log2_ratio (p q : positive) : Z :=
  let l := Z.log2 (Zpos p) - Z.log2 (Zpos q) in
  let ge := if 0 <=? l then Zpos q * 2 ^ l <=? Zpos p
            else Zpos q <=? Zpos p * 2 ^ (- l) in
  if ge then l else l - 1.

(** Round the positive rational [p / q] to the nearest double, ties
    to even: 53 bits of precision, least exponent -1074, overflow to
    infinity. *)
Definition round_double (neg : bool) (p q : positive) : number :=
  let e := Z.max (floor_log2_ratio p q - 52) (-1074) in
  let num := if e <? 0 then Zpos p * 2 ^ (- e) else Zpos p in
  let den := if e <? 0 then Zpos q else Zpos q * 2 ^ e in
  let m0 := num / den in
  let r := num mod den in
  let m := if 2 * r <? den then m0
           else if den <? 2 * r then m0 + 1
           else if Z.even m0 then m0 else m0 + 1 in
  if m =? 0 then (if neg then NegZero else Int 0)
  else if (971 <? e) || ((e =? 971) && (m =? 2 ^ 53)) then Infinity neg
  else make_finite neg m e.

(** The double nearest to [m * 10^e] for a natural [m]. *)
Definition decimal_value (neg : bool) (m e : Z) : number :=
  match m with
  | Zpos pm =>
      if 0 <=? e
      then round_double neg (pm * Z.to_pos (10 ^ e)) 1
      else round_double neg pm (Z.to_pos (10 ^ (- e)))
  | _ => if neg then NegZero else Int 0
  end.

(** *** [Number(string)]: StringToNumber *)

Definition digit_in (base : Z) (c : code_unit) : option Z :=
  let v := Z.of_N c in
  let d := if (48 <=? v) && (v <=? 57) then v - 48
           else if (97 <=? v) && (v <=? 102) then v - 87
           else if (65 <=? v) && (v <=? 70) then v - 55
           else 99 in
  if d <? base then Some d else None.

(** Reads the longest run of digits of [base]: the accumulated value,
    the number of digits read and the rest of the input. *)
Fixpoint read_digits (base : Z) (s : jstring) (acc : Z) (cnt : Z) : Z * Z * jstring :=
  match s with
  | c :: s' =>
      match digit_in base c with
      | Some d => read_digits base s' (acc * base + d) (cnt + 1)
      | None => (acc, cnt, s)
      end
  | [] => (acc, cnt, s)
  end.

(** An optional sign: [true] for a minus. *)
Definition read_sign (s : jstring) : bool * jstring :=
  match s with
  | c :: s' => if N.eqb c (ch "-") then (true, s')
               else if N.eqb c (ch "+") then (false, s')
               else (false, s)
  | [] => (false, s)
  end.

(** ExponentPart_opt followed by the end of the literal: the exponent,
    or [None] when the text is not of that form. *)
Definition read_exponent (s : jstring) : option Z :=
  match s with
  | [] => Some 0
  | c :: s' =>
      if N.eqb c (ch "e") || N.eqb c (ch "E") then
        let '(neg, s1) := read_sign s' in
        match read_digits 10 s1 0 0 with
        | (x, cnt, []) => if 0 <? cnt then Some (signed neg x) else None
        | _ => None
        end
      else None
  end.

(** StrUnsignedDecimalLiteral without [Infinity]:
    digits [.] digits_opt exp_opt, or [.] digits exp_opt, or digits exp_opt. *)
Definition unsigned_decimal (neg : bool) (s : jstring) : number :=
  let '(ip, n1, r1) := read_digits 10 s 0 0 in
  let '(m, n2, r2) :=
    match r1 with
    | c :: r1' => if N.eqb c (ch ".") then read_digits 10 r1' ip 0 else (ip, 0, r1)
    | [] => (ip, 0, r1)
    end in
  if 0 <? n1 + n2 then
    match read_exponent r2 with
    | Some x => decimal_value neg m (x - n2)
    | None => NaN
    end
  else NaN.

(** NonDecimalIntegerLiteral: [0x], [0o] or [0b] and at least one digit. *)
Definition non_decimal (base : Z) (s : jstring) : number :=
  match read_digits base s 0 0 with
  | (v, cnt, []) => if 0 <? cnt then decimal_value false v 0 else NaN
  | _ => NaN
  end.

Definition radix_of (c : code_unit) : option Z :=
  if N.eqb c (ch "x") || N.eqb c (ch "X") then Some 16
  else if N.eqb c (ch "o") || N.eqb c (ch "O") then Some 8
  else if N.eqb c (ch "b") || N.eqb c (ch "B") then Some 2
  else None.

Definition str_decimal_literal (s : jstring) : number :=
  let '(neg, r) := read_sign s in
  if str_eqb r (lit "Infinity") then Infinity neg else unsigned_decimal neg r.

(** [Number(s)] for a string [s]. *)
Definition Number (s : jstring) : number :=
  match trim s with
  | [] => Int 0
  | c0 :: c1 :: r =>
      match (if N.eqb c0 (ch "0") then radix_of c1 else None) with
      | Some base => non_decimal base r
      | None => str_decimal_literal (c0 :: c1 :: r)
      end
  | t => str_decimal_literal t
  end.

(** *** [Number::toString] *)

(** The least exponent from [j] on with [q <= p * 10^j], searched for
    [fuel] steps. *)
Fixpoint first_scale (fuel : nat) (p q j : Z) : Z :=
  match fuel with
  | O => j
  | S f => if q <=? p * 10 ^ j then j else first_scale f p q (j + 1)
  end.

(** [n] with [10^(n-1) <= p/q < 10^n]. *)
Definition decimal_exponent (p q : positive) : Z :=
  if (q <=? p)%positive
  then Z.of_nat (List.length (decimal_digits (Z.to_N (Zpos p / Zpos q))))
  else 1 - first_scale (S (Z.to_nat (Z.log2 (Zpos q)))) (Zpos p) (Zpos q) 1.

(** [(p/q) * 10^j] as a fraction. *)
Definition scale10 (p q j : Z) : Z * Z :=
  if 0 <=? j then (p * 10 ^ j, q) else (p, q * 10 ^ (- j)).

(** Does [s * 10^(n-k)] round to the double [x]? *)
Definition rounds_to (x : number) (s n k : Z) : bool :=
  let '(cp, cq) := scale10 s 1 (n - k) in
  number_eqb (round_double false (Z.to_pos cp) (Z.to_pos cq)) x.

(** The shortest digit string that reads back as [x = p/q]: for the
    least number of digits from [k] on for which there is an [s] of
    that many digits such that [s * 10^(n-k)] rounds to [x], the [s]
    nearest to [x]; the result is [s] with its decimal exponent. *)
Fixpoint shortest_digits (fuel : nat) (x : number) (p q n k : Z) : Z * Z :=
  let '(sp, sq) := scale10 p q (k - n) in
  let lo := sp / sq in
  let r := sp mod sq in
  let hi := lo + 1 in
  let pick (s : Z) := if s =? 10 ^ k then (10 ^ (k - 1), n + 1) else (s, n) in
  let ok_lo := rounds_to x lo n k in
  let ok_hi := rounds_to x hi n k in
  let nearer_lo := (2 * r <? sq) || ((2 * r =? sq) && Z.even lo) in
  match fuel with
  | O => (lo, n)
  | S f =>
      if ok_lo && ok_hi then (if nearer_lo then (lo, n) else pick hi)
      else if ok_lo then (lo, n)
      else if ok_hi then pick hi
      else shortest_digits f x p q n (k + 1)
  end.

Definition zeros (n : Z) : jstring := repeat (ch "0") (Z.to_nat n).

(** The text of a positive finite double from its digits [ds] and its
    decimal exponent [n]. *)
Definition format_digits (ds : jstring) (n : Z) : jstring :=
  let k := Z.of_nat (List.length ds) in
  if (k <=? n) && (n <=? 21) then ds ++ zeros (n - k)
  else if (0 <? n) && (n <=? 21)
  then firstn (Z.to_nat n) ds ++ lit "." ++ skipn (Z.to_nat n) ds
  else if (-6 <? n) && (n <=? 0) then lit "0." ++ zeros (- n) ++ ds
  else
    let e := n - 1 in
    let etxt := (if e <? 0 then lit "-" else lit "+") ++ decimal_digits (Z.abs_N e) in
    match ds with
    | [d] => d :: lit "e" ++ etxt
    | d :: rest => d :: lit "." ++ rest ++ lit "e" ++ etxt
    | [] => []
    end.

Definition positive_to_string (x : number) (p q : positive) : jstring :=
  let n := decimal_exponent p q in
  let '(s, n') := shortest_digits 17 x (Zpos p) (Zpos q) n 1 in
  format_digits (decimal_digits (Z.to_N s)) n'.

(** [String(x)] for a number, as in a template literal and in
    [JSON.stringify] of a finite number. *)
Definition number_to_string (x : number) : jstring :=
  match x with
  | NaN => lit "NaN"
  | Infinity neg => if neg then lit "-Infinity" else lit "Infinity"
  | NegZero => lit "0"
  | Int 0 => lit "0"
  | Int (Zpos p) => positive_to_string x p 1
  | Int (Zneg p) => lit "-" ++ positive_to_string (Int (Zpos p)) p 1
  | Frac neg m k =>
      (if neg then lit "-" else []) ++ positive_to_string (Frac false m k) m (2 ^ k)
  end.

End JsNumber.
Import JsNumber.

(** ** Values *)

Module JsValue.

(** The values the program handles: what [JSON.parse] yields, plus
    [undefined] (the result of a missing property, of [find] without a
    match and of [JSON.stringify(undefined)]).  An object is the list
    of its own properties in property order. *)
#[warnings="-register-all"]
Inductive value : Type :=
| VUndefined
| VNull
| VBool (b : bool)
| VNum (n : number)
| VStr (s : jstring)
| VArr (elems : list value)
| VObj (props : list (jstring * value)).

Definition props := list (jstring * value).

(** The array index a property key denotes, if any: the canonical
    decimal text of an integer below [2^32 - 1]. *)
Definition array_index (k : jstring) : option Z :=
  match read_digits 10 k 0 0 with
  | (v, cnt, []) =>
      if (0 <? cnt)%Z && str_eqb (decimal_digits (Z.to_N v)) k && (v <? 2 ^ 32 - 1)%Z
      then Some v else None
  | _ => None
  end.

Fixpoint lookup (k : jstring) (ps : props) : option value :=
  match ps with
  | (k', v) :: rest => if str_eqb k k' then Some v else lookup k rest
  | [] => None
  end.

Fixpoint overwrite (k : jstring) (v : value) (ps : props) : props :=
  match ps with
  | (k', v') :: rest =>
      if str_eqb k k' then (k', v) :: rest else (k', v') :: overwrite k v rest
  | [] => []
  end.

(** A new index key goes after the smaller index keys and before
    everything else. *)
Fixpoint insert_index (i : Z) (k : jstring) (v : value) (ps : props) : props :=
  match ps with
  | (k', v') :: rest =>
      match array_index k' with
      | Some j => if (j <? i)%Z then (k', v') :: insert_index i k v rest
                  else (k, v) :: ps
      | None => (k, v) :: ps
      end
  | [] => [(k, v)]
  end.

(** CreateDataProperty on an ordinary object: an existing key keeps
    its place and takes the new value; a new key is placed as
    OrdinaryOwnPropertyKeys lists it, index keys in ascending order
    first, then the other keys in creation order. *)
Definition define_prop (k : jstring) (v : value) (ps : props) : props :=
  match lookup k ps with
  | Some _ => overwrite k v ps
  | None =>
      match array_index k with
      | Some i => insert_index i k v ps
      | None => ps ++ [(k, v)]
      end
  end.

Fixpoint indexed {A} (f : A -> value) (i : N) (l : list A) : props :=
  match l with
  | x :: r => (decimal_digits i, f x) :: indexed f (N.succ i) r
  | [] => []
  end.

(** The own enumerable properties that [...src] copies: those of an
    object, the elements of an array, the code units of a string,
    nothing for the other primitives. *)
Definition own_enumerable (src : value) : props :=
  match src with
  | VObj ps => ps
  | VArr l => indexed (fun x => x) 0 l
  | VStr s => indexed (fun c => VStr [c]) 0 s
  | _ => []
  end.

(** [{ ...target, ...src }] *)
Definition spread (target : props) (src : value) : props :=
  fold_left (fun acc kv => define_prop (fst kv) (snd kv) acc) (own_enumerable src) target.

(** [v === n] for a number [n]. *)
Definition equals_number (v : value) (n : number) : bool :=
  match v with
  | VNum m => number_equal m n
  | _ => false
  end.

(** [v === null] *)
Definition equals_null (v : value) : bool :=
  match v with
  | VNull => true
  | _ => false
  end.

End JsValue.
Import JsValue.

(** ** JSON *)

Module JSON.

Definition is_ch (a : ascii) (c : code_unit) : bool := N.eqb c (ch a).

(** Code units that the grammar names: the quotation mark, the
    reverse solidus and the line feed. *)
Definition QUOTE : code_unit := 34%N.
Definition BACKSLASH : code_unit := 92%N.
Definition LF : code_unit := 10%N.

(** *** [JSON.stringify] *)

Definition hex_digit (d : N) : code_unit := (if d <? 10 then 48 + d else 87 + d)%N.

(** A [u] escape with four lowercase hexadecimal digits. *)
Definition unicode_escape (c : code_unit) : jstring :=
  [BACKSLASH; ch "u"; hex_digit (c / 4096 mod 16); hex_digit (c / 256 mod 16);
   hex_digit (c / 16 mod 16); hex_digit (c mod 16)]%N.

Definition is_high_surrogate (c : code_unit) : bool := ((55296 <=? c) && (c <=? 56319))%N.
Definition is_low_surrogate (c : code_unit) : bool := ((56320 <=? c) && (c <=? 57343))%N.

(** The body of QuoteJSONString: short escapes, [u] escapes for the
    other control characters and for lone surrogates. *)
Fixpoint quote_units (s : jstring) : jstring :=
  match s with
  | [] => []
  | c :: r =>
      if (c =? 8)%N then BACKSLASH :: ch "b" :: quote_units r
      else if (c =? 9)%N then BACKSLASH :: ch "t" :: quote_units r
      else if (c =? 10)%N then BACKSLASH :: ch "n" :: quote_units r
      else if (c =? 12)%N then BACKSLASH :: ch "f" :: quote_units r
      else if (c =? 13)%N then BACKSLASH :: ch "r" :: quote_units r
      else if (c =? QUOTE)%N then BACKSLASH :: QUOTE :: quote_units r
      else if (c =? BACKSLASH)%N then BACKSLASH :: BACKSLASH :: quote_units r
      else if (c <? 32)%N then unicode_escape c ++ quote_units r
      else if is_high_surrogate c then
        match r with
        | d :: r' => if is_low_surrogate d then c :: d :: quote_units r'
                     else unicode_escape c ++ quote_units r
        | [] => unicode_escape c
        end
      else if is_low_surrogate c then unicode_escape c ++ quote_units r
      else c :: quote_units r
  end.

Definition quote (s : jstring) : jstring := [QUOTE] ++ quote_units s ++ [QUOTE].

Fixpoint join (sep : jstring) (parts : list jstring) : jstring :=
  match parts with
  | [] => []
  | [x] => x
  | x :: rest => x ++ sep ++ join sep rest
  end.

(** The parts of an array or object between its brackets: on one line
    without a gap, one part per line with one. *)
Definition wrap (open close gap indent : jstring) (parts : list jstring) : jstring :=
  match parts, gap with
  | [], _ => open ++ close
  | _, [] => open ++ join (lit ",") parts ++ close
  | _, _ =>
      let inner := indent ++ gap in
      open ++ [LF] ++ inner ++ join (lit "," ++ [LF] ++ inner) parts
           ++ [LF] ++ indent ++ close
  end.

(** SerializeJSONProperty: [None] is [undefined]. *)
Fixpoint serialize (gap indent : jstring) (v : value) : option jstring :=
  match v with
  | VUndefined => None
  | VNull => Some (lit "null")
  | VBool b => Some (if b then lit "true" else lit "false")
  | VNum n =>
      match n with
      | NaN | Infinity _ => Some (lit "null")
      | _ => Some (number_to_string n)
      end
  | VStr s => Some (quote s)
  | VArr l =>
      let parts :=
        (fix elements (l : list value) : list jstring :=
           match l with
           | [] => []
           | x :: r =>
               match serialize gap (indent ++ gap) x with
               | Some t => t
               | None => lit "null"
               end :: elements r
           end) l in
      Some (wrap (lit "[") (lit "]") gap indent parts)
  | VObj ps =>
      let colon := match gap with [] => lit ":" | _ => lit ": " end in
      let parts :=
        (fix members (ps : list (jstring * value)) : list jstring :=
           match ps with
           | [] => []
           | (k, x) :: r =>
               match serialize gap (indent ++ gap) x with
               | Some t => (quote k ++ colon ++ t) :: members r
               | None => members r
               end
           end) ps in
      Some (wrap (lit "{") (lit "}") gap indent parts)
  end.

(** [JSON.stringify(v)] and [JSON.stringify(v, null, 2)] *)
Definition stringify (v : value) : option jstring := serialize [] [] v.
Definition stringify_pretty (v : value) : option jstring := serialize (lit "  ") [] v.

(** *** [JSON.parse] *)

Definition is_json_ws (c : code_unit) : bool :=
  ((c =? 9) || (c =? 10) || (c =? 13) || (c =? 32))%N.

Fixpoint skip_ws (s : jstring) : jstring :=
  match s with
  | c :: s' => if is_json_ws c then skip_ws s' else s
  | [] => []
  end.

(** The character a one-letter escape stands for. *)
Definition escape_char (c : code_unit) : option code_unit :=
  if (c =? QUOTE)%N then Some QUOTE
  else if (c =? BACKSLASH)%N then Some BACKSLASH
  else if is_ch "/" c then Some (ch "/")
  else if is_ch "b" c then Some 8%N
  else if is_ch "f" c then Some 12%N
  else if is_ch "n" c then Some 10%N
  else if is_ch "r" c then Some 13%N
  else if is_ch "t" c then Some 9%N
  else None.

(** Where the string lexer stands: between characters, after a
    reverse solidus, or inside a [u] escape with [more] hexadecimal
    digits to come after the next one. *)
Inductive string_state : Type :=
| Plain
| Escape
| Hex (more : nat) (acc : Z).

Definition cons_result (c : code_unit) (res : option (jstring * jstring))
  : option (jstring * jstring) :=
  match res with
  | Some (str, rest) => Some (c :: str, rest)
  | None => None
  end.

(** The characters of a string after its opening quote, up to and
    including the closing quote: the string and the rest of the input. *)
Fixpoint parse_string (st : string_state) (s : jstring) : option (jstring * jstring) :=
  match s with
  | [] => None
  | c :: r =>
      match st with
      | Plain =>
          if (c =? QUOTE)%N then Some ([], r)
          else if (c <? 32)%N then None
          else if (c =? BACKSLASH)%N then parse_string Escape r
          else cons_result c (parse_string Plain r)
      | Escape =>
          if is_ch "u" c then parse_string (Hex 3 0) r
          else match escape_char c with
               | Some u => cons_result u (parse_string Plain r)
               | None => None
               end
      | Hex more acc =>
          match digit_in 16 c with
          | Some d =>
              match more with
              | O => cons_result (Z.to_N (acc * 16 + d)) (parse_string Plain r)
              | S more' => parse_string (Hex more' (acc * 16 + d)%Z) r
              end
          | None => None
          end
      end
  end.

(** The integer part of a number: [0], or a non-zero digit and the
    digits after it. *)
Definition int_part (s : jstring) : option (Z * jstring) :=
  match s with
  | c :: r =>
      if is_ch "0" c then Some (0%Z, r)
      else if is_digit c then
        match read_digits 10 s 0 0 with
        | (ip, _, r1) => Some (ip, r1)
        end
      else None
  | [] => None
  end.

(** The optional fraction after the integer part [ip]: the digits
    read so far and the number of fraction digits. *)
Definition frac_part (ip : Z) (s : jstring) : option (Z * Z * jstring) :=
  match s with
  | d :: r =>
      if is_ch "." d then
        match read_digits 10 r ip 0 with
        | (m, n, r') => if (0 <? n)%Z then Some (m, n, r') else None
        end
      else Some (ip, 0%Z, s)
  | [] => Some (ip, 0%Z, s)
  end.

(** The optional exponent. *)
Definition exp_part (s : jstring) : option (Z * jstring) :=
  match s with
  | e :: r =>
      if is_ch "e" e || is_ch "E" e then
        match read_digits 10 (snd (read_sign r)) 0 0 with
        | (x, n, r') =>
            if (0 <? n)%Z then Some (signed (fst (read_sign r)) x, r') else None
        end
      else Some (0%Z, s)
  | [] => Some (0%Z, s)
  end.

Definition unsigned_number (neg : bool) (s : jstring) : option (value * jstring) :=
  match int_part s with
  | Some (ip, r1) =>
      match frac_part ip r1 with
      | Some (m, n, r2) =>
          match exp_part r2 with
          | Some (x, r3) => Some (VNum (decimal_value neg m (x - n)), r3)
          | None => None
          end
      | None => None
      end
  | None => None
  end.

(** A number: [-]? int frac? exp?, where int has no leading zero. *)
Definition parse_number (s : jstring) : option (value * jstring) :=
  match s with
  | c :: r => if is_ch "-" c then unsigned_number true r else unsigned_number false s
  | [] => None
  end.

Definition parse_literal (s : jstring) : option (value * jstring) :=
  match strip_prefix (lit "true") s with
  | Some r => Some (VBool true, r)
  | None =>
      match strip_prefix (lit "false") s with
      | Some r => Some (VBool false, r)
      | None =>
          match strip_prefix (lit "null") s with
          | Some r => Some (VNull, r)
          | None => None
          end
      end
  end.

(** A value at the head of the input, which starts with no white
    space: the value and the rest.  [parse_elements] reads the
    elements of an array from the first one to the closing bracket,
    [parse_members] the members of an object from the first key to
    the closing brace.  Each call on a nested value or on a further
    element takes one unit of fuel. *)
Fixpoint parse_value (fuel : nat) (s : jstring) : option (value * jstring) :=
  match fuel with
  | O => None
  | S f =>
      match s with
      | [] => None
      | c :: r =>
          if is_ch "[" c then
            match skip_ws r with
            | d :: r' => if is_ch "]" d then Some (VArr [], r')
                         else parse_elements f [] (d :: r')
            | [] => None
            end
          else if is_ch "{" c then
            match skip_ws r with
            | d :: r' => if is_ch "}" d then Some (VObj [], r')
                         else parse_members f [] (d :: r')
            | [] => None
            end
          else if (c =? QUOTE)%N then
            match parse_string Plain r with
            | Some (str, r') => Some (VStr str, r')
            | None => None
            end
          else if is_digit c || is_ch "-" c then parse_number s
          else parse_literal s
      end
  end

with parse_elements (fuel : nat) (acc : list value) (s : jstring)
  : option (value * jstring) :=
  match fuel with
  | O => None
  | S f =>
      match parse_value f s with
      | Some (v, r) =>
          match skip_ws r with
          | c :: r' =>
              if is_ch "," c then parse_elements f (v :: acc) (skip_ws r')
              else if is_ch "]" c then Some (VArr (rev (v :: acc)), r')
              else None
          | [] => None
          end
      | None => None
      end
  end

with parse_members (fuel : nat) (acc : props) (s : jstring)
  : option (value * jstring) :=
  match fuel with
  | O => None
  | S f =>
      match s with
      | q :: s1 =>
          if (q =? QUOTE)%N then
            match parse_string Plain s1 with
            | Some (k, r0) =>
                match skip_ws r0 with
                | c0 :: r1 =>
                    if is_ch ":" c0 then
                      match parse_value f (skip_ws r1) with
                      | Some (v, r) =>
                          match skip_ws r with
                          | c :: r' =>
                              if is_ch "," c
                              then parse_members f (define_prop k v acc) (skip_ws r')
                              else if is_ch "}" c
                              then Some (VObj (define_prop k v acc), r')
                              else None
                          | [] => None
                          end
                      | None => None
                      end
                    else None
                | [] => None
                end
            | None => None
            end
          else None
      | [] => None
      end
  end.

(** [JSON.parse(text)]: one value between optional white space;
    [None] is the SyntaxError.  More than twice the length of the text
    is fuel enough for every text. *)
Definition parse (text : jstring) : option value :=
  match parse_value (S (2 * List.length text)) (skip_ws text) with
  | Some (v, r) =>
      match skip_ws r with
      | [] => Some v
      | _ :: _ => None
      end
  | None => None
  end.

End JSON.

(** ** The server *)

Module Server.

(** What a rejected promise or a [throw] carries, as far as the
    handlers can tell the cases apart (they cannot: every [catch] is
    a bare [catch]). *)
Inductive error : Type :=
| SyntaxError      (* the JSON module does not parse, or [JSON.parse] fails *)
| TypeError        (* a property of [null] is read, or a non-function is called *)
| ModuleNotFound   (* [./data/users.json] does not exist *)
| IOError          (* [fs.writeFile] rejects *)
| RequestError.    (* the sampling request rejects *)

Inductive outcome (A : Type) : Type :=
| Return (a : A)
| Throw (e : error).
Arguments Return {A} a.
Arguments Throw {A} e.

(** The world of the process: the content of [src/data/users.json],
    as the text that its bytes decode to ([None]: no such file), whether the file system accepts a write
    to it, and the default export of the JSON module once [import()]
    has loaded it.  The module map keeps one module per specifier, so
    every later [import()] yields the same array object.  The server
    runs from the repository root: the file that the import resolves
    next to the module and the file that [fs.writeFile] names from the
    working directory are the same. *)
Record state : Type := mkState {
  file : option jstring;
  writable : bool;
  loaded : option value
}.

Definition set_file (data : jstring) (s : state) : state :=
  mkState (Some data) (writable s) (loaded s).

Definition set_loaded (v : value) (s : state) : state :=
  mkState (file s) (writable s) (Some v).

(** Computations that read and change the world and may throw; what
    was changed before a throw stays changed. *)
Definition M (A : Type) : Type := state -> outcome A * state.

Definition ret {A} (a : A) : M A := fun s => (Return a, s).
Definition throw {A} (e : error) : M A := fun s => (Throw e, s).

Definition bind {A B} (m : M A) (k : A -> M B) : M B :=
  fun s =>
    match m s with
    | (Return a, s') => k a s'
    | (Throw e, s') => (Throw e, s')
    end.

(** [try { body } catch { handler }] *)
Definition try_catch {A} (body : M A) (handler : M A) : M A :=
  fun s =>
    match body s with
    | (Return a, s') => (Return a, s')
    | (Throw _, s') => handler s'
    end.

Definition lift {A} (o : outcome A) : M A := fun s => (o, s).

Declare Scope js_scope.
Delimit Scope js_scope with js.
Notation "x <- m ;; k" := (bind m (fun x => k))
  (at level 61, m at next level, right associativity) : js_scope.
Notation "m ;; k" := (bind m (fun _ => k))
  (at level 61, right associativity) : js_scope.
Local Open Scope js_scope.

(** U+FEFF, the byte order mark. *)
Definition BOM : code_unit := 65279%N.

(** [stripBOM(content)] of the module loader:
    [content.charCodeAt(0) === 0xFEFF ? content.slice(1) : content] *)
Definition strip_bom (content : jstring) : jstring :=
  match content with
  | c :: r => if (c =? BOM)%N then r else content
  | [] => []
  end.

(** What the loader of a JSON module makes of the file: from the text
    that it has decoded from the file's bytes it removes a leading byte
    order mark, and hands the rest to [JSON.parse]:
    [JSONParse(stripBOM(source))]. *)
Definition JSON_module (content : jstring) : option value :=
  JSON.parse (strip_bom content).

(** [await import("./data/users.json", { with: { type: "json" } })
      .then((mod) => mod.default)] *)
Definition import_users : M value :=
  fun s =>
    match loaded s with
    | Some v => (Return v, s)
    | None =>
        match file s with
        | None => (Throw ModuleNotFound, s)
        | Some text =>
            match JSON_module text with
            | Some v => (Return v, set_loaded v s)
            | None => (Throw SyntaxError, s)
            end
        end
    end.

(** [await fs.writeFile("./src/data/users.json", data)] *)
Definition fs_writeFile (data : jstring) : M unit :=
  fun s => if writable s then (Return tt, set_file data s) else (Throw IOError, s).

(** The caller-supplied fields of the [create-user] tool, as its
    input schema delivers them. *)
Record UserParams : Type := mkParams {
  name : jstring;
  email : jstring;
  address : jstring;
  phone : jstring
}.

Definition params_value (p : UserParams) : value :=
  VObj [(lit "name", VStr (name p)); (lit "email", VStr (email p));
        (lit "address", VStr (address p)); (lit "phone", VStr (phone p))].

(** [{ id, ...params }] *)
Definition new_record (id : number) (params : value) : value :=
  VObj (spread [(lit "id", VNum id)] params).

(** [users.length + 1]: the length of an array is below [2^32], so
    the sum is exact. *)
Definition next_id (elems : list value) : number :=
  Int (Z.of_nat (List.length elems) + 1).

(** [users.push(x)] on the array that the import yielded.  That array
    is the module's own, the one object every import returns, so the
    module holds the new element from then on.  The result is the array
    as it is after the call. *)
Definition push (elems : list value) (x : value) : M value :=
  fun s => (Return (VArr (elems ++ [x])), set_loaded (VArr (elems ++ [x])) s).

(** [JSON.stringify(users, null, 2)] as an argument of [fs.writeFile],
    which rejects [undefined]. *)
Definition JSON_stringify_pretty (v : value) : M jstring :=
  match JSON.stringify_pretty v with
  | Some data => ret data
  | None => throw TypeError
  end.

(** The helper [createUser].  Only an array has a [push] method, so
    any other content of the module ends in a TypeError. *)
Definition createUser (params : value) : M number :=
  users <- import_users ;;
  match users with
  | VArr elems =>
      let id := next_id elems in
      users' <- push elems (new_record id params) ;;
      data <- JSON_stringify_pretty users' ;;
      fs_writeFile data ;;
      ret id
  | _ => throw TypeError
  end.

(** [createUser] from its first line to the call of [fs.writeFile]:
    the part that runs without interruption once the import has
    settled.  It yields the new id and the text handed to
    [fs.writeFile]. *)
Definition createUser_push (params : value) : M (number * jstring) :=
  users <- import_users ;;
  match users with
  | VArr elems =>
      let id := next_id elems in
      users' <- push elems (new_record id params) ;;
      data <- JSON_stringify_pretty users' ;;
      ret (id, data)
  | _ => throw TypeError
  end.

(** [{ content: [{ type: "text", text }] }] *)
Record tool_result : Type := text_result { result_text : jstring }.

Definition created_message (id : number) : jstring :=
  lit "User " ++ number_to_string id ++ lit " created successfully".

(** The [create-user] tool. *)
Definition create_user (params : UserParams) : M tool_result :=
  try_catch
    (id <- createUser (params_value params) ;;
     ret (text_result (created_message id)))
    (ret (text_result (lit "Failed to save user"))).

(** The content of the sampling result. *)
Inductive sampling_content : Type :=
| TextContent (text : jstring)
| ImageContent
| AudioContent.

Definition JSON_FENCE : jstring := lit "```json".
Definition FENCE : jstring := lit "```".

(** [text.trim().replace(/^```json/, "").replace(/```$/, "").trim()] *)
Definition strip_fences (text : jstring) : jstring :=
  trim (remove_trailing FENCE (remove_leading JSON_FENCE (trim text))).

Definition JSON_parse (text : jstring) : M value :=
  match JSON.parse text with
  | Some v => ret v
  | None => throw SyntaxError
  end.

(** The [create-random-user] tool; [res] is what the awaited sampling
    request settles with. *)
Definition create_random_user (res : outcome sampling_content) : M tool_result :=
  content <- lift res ;;
  match content with
  | TextContent text =>
      try_catch
        (fakeUser <- JSON_parse (strip_fences text) ;;
         id <- createUser fakeUser ;;
         ret (text_result (created_message id)))
        (ret (text_result (lit "Failed to generate user data")))
  | _ => ret (text_result (lit "Failed to generate user data"))
  end.

(** [{ contents: [{ uri, type, text }] }]; [text] is [None] when
    [JSON.stringify] yields [undefined]. *)
Record resource_result : Type := mkResource {
  uri : jstring;
  type : jstring;
  text : option jstring
}.

Definition json_resource (href : jstring) (v : value) : resource_result :=
  mkResource href (lit "application/json") (JSON.stringify v).

(** The [Users] resource. *)
Definition users_resource (href : jstring) : M resource_result :=
  users <- import_users ;;
  ret (json_resource href users).

(** [u.id] *)
Definition get_id (u : value) : outcome value :=
  match u with
  | VUndefined | VNull => Throw TypeError
  | VObj ps => match lookup (lit "id") ps with
               | Some v => Return v
               | None => Return VUndefined
               end
  | _ => Return VUndefined
  end.

(** The callback [(u) => u.id === Number(userId)] *)
Definition matches (userId : jstring) (u : value) : outcome bool :=
  match get_id u with
  | Return v => Return (equals_number v (Number userId))
  | Throw e => Throw e
  end.

(** [elems.find(pred)]: the first element on which [pred] is true,
    [undefined] when there is none. *)
Fixpoint array_find (pred : value -> outcome bool) (elems : list value) : outcome value :=
  match elems with
  | [] => Return VUndefined
  | u :: rest =>
      match pred u with
      | Return true => Return u
      | Return false => array_find pred rest
      | Throw e => Throw e
      end
  end.

(** [users.find(...)]: only an array has a [find] method. *)
Definition find_user (users : value) (userId : jstring) : outcome value :=
  match users with
  | VArr elems => array_find (matches userId) elems
  | _ => Throw TypeError
  end.

Definition NOT_FOUND : value := VObj [(lit "error", VStr (lit "User not found"))].

(** The [user-details] resource. *)
Definition user_details (href userId : jstring) : M resource_result :=
  users <- import_users ;;
  user <- lift (find_user users userId) ;;
  if equals_null user
  then ret (json_resource href NOT_FOUND)
  else ret (json_resource href user).

End Server.
Import Server.

(** ** Notions the properties are stated with *)

Module Store.

(** The record sequence that an import yields in a state: the
    module's array once loaded, what the loader reads from the file
    before. *)
Definition users_of (s : state) : option value :=
  match loaded s with
  | Some v => Some v
  | None =>
      match file s with
      | Some text => JSON_module text
      | None => None
      end
  end.

(** The record sequence that the backing file holds: what the loader
    reads from it when the module is not loaded. *)
Definition persisted (s : state) : option value :=
  match file s with
  | Some text => JSON_module text
  | None => None
  end.

(** Sequential appends of valid field sets: each call is awaited
    before the next one is made. *)
Fixpoint appends (ps : list UserParams) (s : state) : list (outcome number) * state :=
  match ps with
  | [] => ([], s)
  | p :: rest =>
      let '(r, s1) := createUser (params_value p) s in
      let '(rs, s2) := appends rest s1 in
      (r :: rs, s2)
  end.

Fixpoint returned {A} (rs : list (outcome A)) : list A :=
  match rs with
  | [] => []
  | Return a :: rest => a :: returned rest
  | Throw _ :: rest => returned rest
  end.

(** The record that [createUser] builds from a valid field set. *)
Definition user_record (id : number) (p : UserParams) : value :=
  VObj [(lit "id", VNum id); (lit "name", VStr (name p)); (lit "email", VStr (email p));
        (lit "address", VStr (address p)); (lit "phone", VStr (phone p))].

(** The ids [first], [first + 1], ... of [count] consecutive appends. *)
Definition ids_from (first : nat) (count : nat) : list number :=
  map (fun i => Int (Z.of_nat i)) (seq first count).

(** The records that consecutive appends of [ps] add to a store of
    [count] records. *)
Fixpoint records_from (count : nat) (ps : list UserParams) : list value :=
  match ps with
  | [] => []
  | p :: rest => user_record (Int (Z.of_nat count + 1)) p :: records_from (S count) rest
  end.

Definition has_string (k : jstring) (ps : props) : bool :=
  match lookup k ps with
  | Some (VStr _) => true
  | _ => false
  end.

(** The shape of a stored record: the four string fields of
    [createUser]'s parameter type and a positive integer [id]. *)
Definition well_formed_record (v : value) : bool :=
  match v with
  | VObj ps =>
      match lookup (lit "id") ps with
      | Some (VNum (Int z)) => (0 <? z)%Z
      | _ => false
      end
      && has_string (lit "name") ps && has_string (lit "email") ps
      && has_string (lit "address") ps && has_string (lit "phone") ps
  | _ => false
  end.

(** A text that is a JSON array of well-formed records. *)
Definition well_formed_store (text : jstring) : bool :=
  match JSON.parse text with
  | Some (VArr elems) => forallb well_formed_record elems
  | _ => false
  end.

(** [u] is a record whose [id] is not [n]. *)
Definition other_id (n : number) (u : value) : Prop :=
  exists v, get_id u = Return v /\ equals_number v n = false.

End Store.
Import Store.

(** ** Overlapping calls of [createUser] *)

Module Concurrent.

(** [fs.writeFile(path, data)] is not one step.  It opens the file
    with the flag [w], which creates or truncates it; it then writes
    [data] from the start of the file, over whatever the file holds by
    then; it then closes the file.  Each of the three is awaited, so
    the steps of two calls that are in flight together interleave, and
    Node gives no order between them. *)

(** [open(path, "w")] *)
Definition fs_open : M unit :=
  fun s => if writable s then (Return tt, set_file [] s) else (Throw IOError, s).

(** [data] laid over [old] from the start of the file: what lies
    beyond the end of [data] stays.  Positions are counted in the
    text; they are the positions in the file when the two texts take
    the same number of bytes up to there, as they do within ASCII. *)
Definition overlay (data old : jstring) : jstring :=
  data ++ skipn (List.length data) old.

(** [write(fd, data)] on the handle that [open] gave.  Node hands a
    text of more than 512 KiB over in several writes, one after the
    other; they are taken as one here. *)
Definition fs_write (data : jstring) : M unit :=
  fun s =>
    let old := match file s with Some old => old | None => [] end in
    (Return tt, set_file (overlay data old) s).

(** A call of [createUser] in flight.  JavaScript runs a function
    without interruption from one [await] to the next, so a call is
    resumed four times: after the import (it then runs up to the call
    of [fs.writeFile], which carries the text serialized at that
    moment), after the file has been opened, after the text has been
    written, and after the file has been closed. *)
Inductive task : Type :=
| Importing (params : value)
| Opening (id : number) (data : jstring)
| Writing (id : number) (data : jstring)
| Closing (id : number)
| Settled (r : outcome number).

(** Runs a task from its resumption point to the next one. *)
Definition resume (t : task) (s : state) : task * state :=
  match t with
  | Importing params =>
      match createUser_push params s with
      | (Return (id, data), s') => (Opening id data, s')
      | (Throw e, s') => (Settled (Throw e), s')
      end
  | Opening id data =>
      match fs_open s with
      | (Return _, s') => (Writing id data, s')
      | (Throw e, s') => (Settled (Throw e), s')
      end
  | Writing id data =>
      match fs_write data s with
      | (Return _, s') => (Closing id, s')
      | (Throw e, s') => (Settled (Throw e), s')
      end
  | Closing id => (Settled (Return id), s)
  | Settled r => (Settled r, s)
  end.

Definition pending (t : task) : bool :=
  match t with
  | Settled _ => false
  | _ => true
  end.

(** The most resumptions that a call still takes. *)
Definition remaining (t : task) : nat :=
  match t with
  | Importing _ => 4
  | Opening _ _ => 3
  | Writing _ _ => 2
  | Closing _ => 1
  | Settled _ => 0
  end.

Definition config : Type := list task * state.

(** The event loop resumes any pending task: the order in which
    imports, opens, writes and closes complete is not the program's to
    choose. *)
Inductive step : config -> config -> Prop :=
| step_resume : forall before t after s t' s',
    pending t = true ->
    resume t s = (t', s') ->
    step (before ++ t :: after, s) (before ++ t' :: after, s').

Inductive steps : config -> config -> Prop :=
| steps_refl : forall c, steps c c
| steps_step : forall c1 c2 c3, steps c1 c2 -> step c2 c3 -> steps c1 c3.

(** The same, driven by a schedule: the positions of the tasks to
    resume, in order; a position that holds no pending task is
    skipped. *)
Fixpoint resume_at (i : nat) (pool : list task) (s : state) : list task * state :=
  match pool, i with
  | [], _ => ([], s)
  | t :: rest, O =>
      if pending t then (let '(t', s') := resume t s in (t' :: rest, s'))
      else (pool, s)
  | t :: rest, S j => let '(rest', s') := resume_at j rest s in (t :: rest', s')
  end.

Fixpoint run (schedule : list nat) (c : config) : config :=
  match schedule with
  | [] => c
  | i :: later => run later (resume_at i (fst c) (snd c))
  end.

(** The id that a call returns or is about to return. *)
Definition assigned_to (t : task) : list number :=
  match t with
  | Opening id _ | Writing id _ | Closing id | Settled (Return id) => [id]
  | Importing _ | Settled (Throw _) => []
  end.

(** The ids that the calls return or are about to return. *)
Definition assigned (pool : list task) : list number := flat_map assigned_to pool.

Definition all_settled (pool : list task) : bool :=
  forallb (fun t => negb (pending t)) pool.

(** The calls that have got past their import. *)
Definition is_started (t : task) : bool :=
  match t with
  | Importing _ => false
  | _ => true
  end.

Definition started (pool : list task) : nat := List.length (filter is_started pool).

(** [N] calls with valid field sets, made without awaiting any. *)
Definition calls (ps : list UserParams) : list task :=
  map (fun p => Importing (params_value p)) ps.

(** A call that has not started carries a valid field set; a call
    fails only when the file system refuses the writes. *)
Definition task_ok (w0 : bool) (t : task) : Prop :=
  match t with
  | Importing v => exists p, v = params_value p
  | Settled (Throw _) => w0 = false
  | _ => True
  end.

(** [id] was given out after the first [n0] records. *)
Definition id_in_range (n0 : nat) (elems : list value) (id : number) : Prop :=
  exists z, id = Int z /\ (Z.of_nat n0 < z <= Z.of_nat (List.length elems))%Z.

(** What holds of the calls and of the store at every moment of a run
    that started with the records [elems0] and the write permission
    [w0]: the store holds [elems0] and one new record per call that
    has got past its import, numbered consecutively. *)
Definition invariant (elems0 : list value) (w0 : bool) (c : config) : Prop :=
  exists new,
    users_of (snd c) = Some (VArr (elems0 ++ new))
    /\ (started (fst c) <> 0 -> loaded (snd c) = Some (VArr (elems0 ++ new)))
    /\ List.length new = started (fst c)
    /\ writable (snd c) = w0
    /\ Forall (id_in_range (List.length elems0) (elems0 ++ new)) (assigned (fst c))
    /\ NoDup (assigned (fst c))
    /\ Forall (task_ok w0) (fst c)
    /\ map get_id new
       = map (fun n => Return (VNum n))
             (ids_from (S (List.length elems0)) (started (fst c))).

End Concurrent.

Import Concurrent.

(** ** What a parser reads *)

Module Lexing.

Import JSON.

(** [r'] may stand for [r] after a token: it is empty, or starts with
    the same code unit. *)
Definition same_head (r r' : jstring) : Prop := r' = [] \/ hd_error r' = hd_error r.

(** [c] ends with the code unit [x]. *)
Definition ends_with (x : code_unit) (c : jstring) : Prop := exists c0, c = c0 ++ [x].

(** [r] does not start with a decimal digit. *)
Definition no_digit_head (r : jstring) : Prop :=
  match r with
  | c :: _ => digit_in 10 c = None
  | [] => True
  end.

Definition ends_in_digit (c : jstring) : Prop :=
  exists t z, c = t ++ [z] /\ is_digit z = true.

(** [c] is not empty and neither starts nor ends with white space:
    trimming leaves it as it is. *)
Definition delimited (c : jstring) : Prop :=
  (exists a t, c = a :: t /\ is_white_space a = false)
  /\ (exists t z, c = t ++ [z] /\ is_white_space z = false).

(** A parse with fuel [f] that succeeds reads a delimited prefix of
    the input, and reads it again, to the same value, with any fuel
    above twice its length and any continuation that starts alike. *)
Definition value_prefix_ok (f : nat) : Prop :=
  forall s v r,
    parse_value f s = Some (v, r) ->
    exists c,
      s = c ++ r /\ delimited c
      /\ forall f' r', 2 * List.length c < f' -> same_head r r' ->
                       parse_value f' (c ++ r') = Some (v, r').

Definition elements_prefix_ok (f : nat) : Prop :=
  forall acc s v r,
    parse_elements f acc s = Some (v, r) ->
    exists c,
      s = c ++ r /\ ends_with (ch "]") c
      /\ forall f' r', 2 * List.length c < f' ->
                       parse_elements f' acc (c ++ r') = Some (v, r').

Definition members_prefix_ok (f : nat) : Prop :=
  forall acc s v r,
    parse_members f acc s = Some (v, r) ->
    exists c,
      s = c ++ r /\ ends_with (ch "}") c
      /\ forall f' r', 2 * List.length c < f' ->
                       parse_members f' acc (c ++ r') = Some (v, r').

Definition BACKTICK : code_unit := ch "`".

Ltac norm_app := cbn [app]; repeat (rewrite <- app_assoc; cbn [app]).
Ltac norm_len H :=
  cbn [List.length] in H; repeat (rewrite length_app in H; cbn [List.length] in H).

End Lexing.
Import Lexing.
Import JSON.

(** ** The prompt, and calls under a changing file system *)

Module Scenario.

(** [{ messages: [{ role: "user", content: { type: "text", text } }] }] *)
Record prompt_result : Type := user_message { message_text : jstring }.

(** The [generate-fake-user] prompt. *)
Definition generate_fake_user (name : jstring) : prompt_result :=
  user_message
    (lit "Generate a detailed fake user profile for a person named " ++ name
     ++ lit ", including age, address, email, and phone number.").

(** The file system starts or stops accepting writes; nothing the
    program does changes this. *)
Definition set_writable (b : bool) (s : state) : state :=
  mkState (file s) b (loaded s).

(** Sequential [create-user] style appends, each made after the file
    system has been set to accept ([true]) or refuse ([false]) the
    write of that call. *)
Fixpoint appends_with (calls : list (UserParams * bool)) (s : state)
  : list (outcome number) * state :=
  match calls with
  | [] => ([], s)
  | (p, b) :: rest =>
      let '(r, s1) := createUser (params_value p) (set_writable b s) in
      let '(rs, s2) := appends_with rest s1 in
      (r :: rs, s2)
  end.

(** What the calls of [appends_with] return on a store of [count]
    records: the next id when the write is accepted, the write error
    when it is refused; the count goes up in both cases. *)
Fixpoint outcomes_from (count : nat) (accepted : list bool) : list (outcome number) :=
  match accepted with
  | [] => []
  | b :: rest =>
      (if b then Return (Int (Z.of_nat count + 1)) else Throw IOError)
        :: outcomes_from (S count) rest
  end.

(** The value is an array. *)
Definition is_array (v : value) : bool :=
  match v with
  | VArr _ => true
  | _ => false
  end.

End Scenario.
Import Scenario.

(** ** JSON values that survive a round trip through text *)

Module Plain.

(** What may follow a number in a JSON text: nothing that would be
    read as more of it. *)
Definition ends_number (r : jstring) : Prop :=
  match r with
  | [] => True
  | c :: _ => digit_in 10 c = None /\ is_ch "." c = false
              /\ is_ch "e" c = false /\ is_ch "E" c = false
  end.

Definition white (w : jstring) : Prop := Forall (fun c => is_json_ws c = true) w.

(** The text of an array element: [null] stands in for [undefined]. *)
Definition text_of (gap indent : jstring) (v : value) : jstring :=
  match JSON.serialize gap indent v with
  | Some t => t
  | None => lit "null"
  end.

(** What [JSON.stringify] puts between a key and its value. *)
Definition colon (gap : jstring) : jstring :=
  match gap with
  | [] => lit ":"
  | _ => lit ": "
  end.

(** The properties of the object on which [ps] are defined one after
    the other, as [JSON.parse] builds an object from its members. *)
Definition define_all (ps acc : props) : props :=
  fold_left (fun acc kv => define_prop (fst kv) (snd kv) acc) ps acc.

(** The values that [JSON.stringify] writes without loss: no
    [undefined], numbers that are integers below [2^52] in magnitude,
    objects whose properties are distinct and in property order. *)
Fixpoint plain (v : value) : Prop :=
  match v with
  | VUndefined => False
  | VNull | VBool _ | VStr _ => True
  | VNum (Int z) => (Z.abs z < 2 ^ 52)%Z
  | VNum _ => False
  | VArr l =>
      (fix all (l : list value) : Prop :=
         match l with
         | [] => True
         | x :: r => plain x /\ all r
         end) l
  | VObj ps =>
      (fix all (ps : list (jstring * value)) : Prop :=
         match ps with
         | [] => True
         | (_, x) :: r => plain x /\ all r
         end) ps
      /\ define_all ps [] = ps
  end.

(** The text of [v], followed by anything that does not continue a
    number, is read back to [v] by every parse with enough fuel. *)
Definition reads_back (gap : jstring) (v : value) : Prop :=
  forall indent r,
    white indent -> plain v -> ends_number r ->
    exists f0, forall f, f0 <= f ->
      JSON.parse_value f (text_of gap indent v ++ r) = Some (v, r).

End Plain.
Import Plain.

(** * Properties *)

(** ** What an import and an append do to the state *)

(** [createUser] is its uninterrupted first part followed by the write. *)
Lemma createUser_split (params : value) (s : state) :
  createUser params s
  = (r <- createUser_push params ;; fs_writeFile (snd r) ;; ret (fst r))%js s.
Proof.
  unfold createUser, createUser_push, bind.
  destruct (import_users s) as [[users|e] s1]; [|reflexivity].
  destruct users; reflexivity.
Qed.

Section Appending.

Variable s : state.
Variable elems : list value.
Hypothesis Husers : users_of s = Some (VArr elems).

Lemma import_users_of : import_users s = (Return (VArr elems), set_loaded (VArr elems) s).
Proof.
  unfold import_users, users_of in *. destruct s as [f w [v|]]; simpl in *.
  - inversion Husers; subst. reflexivity.
  - destruct f as [t|]; [|discriminate]. rewrite Husers. reflexivity.
Qed.

Lemma createUser_push_spec (params : value) :
  let users' := VArr (elems ++ [new_record (next_id elems) params]) in
  exists data,
    JSON.stringify_pretty users' = Some data /\
    createUser_push params s = (Return (next_id elems, data), set_loaded users' s).
Proof.
  intros users'. unfold createUser_push, bind.
  rewrite import_users_of. unfold push, JSON_stringify_pretty.
  fold users'.
  destruct (JSON.stringify_pretty users') as [data|] eqn:E.
  - exists data. split; [reflexivity|]. reflexivity.
  - discriminate E.
Qed.

Lemma createUser_spec (params : value) :
  let users' := VArr (elems ++ [new_record (next_id elems) params]) in
  exists data,
    JSON.stringify_pretty users' = Some data /\
    createUser params s =
      if writable s
      then (Return (next_id elems), set_file data (set_loaded users' s))
      else (Throw IOError, set_loaded users' s).
Proof.
  intros users'.
  destruct (createUser_push_spec params) as [data [Hd Hp]].
  exists data. split; [exact Hd|].
  rewrite createUser_split. unfold bind. rewrite Hp. unfold fs_writeFile. simpl.
  destruct (writable s); reflexivity.
Qed.

End Appending.

Lemma new_record_valid (id : number) (p : UserParams) :
  new_record id (params_value p) = user_record id p.
Proof. reflexivity. Qed.

Lemma users_of_set_loaded (v : value) (s : state) : users_of (set_loaded v s) = Some v.
Proof. reflexivity. Qed.

Lemma users_of_set_file (data : jstring) (v : value) (s : state) :
  users_of (set_file data (set_loaded v s)) = Some v.
Proof. reflexivity. Qed.

(** ** Sequential appends *)

Lemma ids_from_cons (first count : nat) :
  ids_from first (S count) = Int (Z.of_nat first) :: ids_from (S first) count.
Proof. reflexivity. Qed.

Lemma records_from_ids (count : nat) (ps : list UserParams) :
  map get_id (records_from count ps)
  = map (fun n => Return (VNum n)) (ids_from (S count) (List.length ps)).
Proof.
  revert count. induction ps as [|p rest IH]; intros count; [reflexivity|].
  cbn [records_from List.length map]. rewrite ids_from_cons. cbn [map].
  rewrite IH. f_equal.
  unfold user_record, get_id. cbn. do 3 f_equal. lia.
Qed.

Lemma seq_strictly_sorted (first count : nat) :
  StronglySorted Z.lt (map Z.of_nat (seq first count)).
Proof.
  revert first. induction count as [|n IH]; intros first; cbn [seq map].
  - constructor.
  - constructor; [apply IH|].
    apply Forall_forall. intros z Hz.
    apply in_map_iff in Hz. destruct Hz as [i [<- Hi]].
    apply in_seq in Hi. lia.
Qed.

Lemma ids_from_ints (first count : nat) :
  ids_from first count = map Int (map Z.of_nat (seq first count)).
Proof. unfold ids_from. rewrite map_map. reflexivity. Qed.

Lemma ids_from_NoDup (first count : nat) :
  NoDup (map (fun n => @Return value (VNum n)) (ids_from first count)).
Proof.
  unfold ids_from. rewrite map_map.
  apply Finite.Injective_map_NoDup; [|apply seq_NoDup].
  intros i j H. injection H. lia.
Qed.

Lemma returned_map_Return {A} (l : list A) : returned (map Return l) = l.
Proof. induction l as [|a l IH]; cbn; [reflexivity | now rewrite IH]. Qed.

Lemma appends_spec (ps : list UserParams) :
  forall s0 elems rs s,
    users_of s0 = Some (VArr elems) ->
    appends ps s0 = (rs, s) ->
    writable s = writable s0
    /\ users_of s = Some (VArr (elems ++ records_from (List.length elems) ps))
    /\ rs = map (fun n => if writable s0 then Return n else Throw IOError)
                (ids_from (S (List.length elems)) (List.length ps)).
Proof.
  induction ps as [|p rest IH]; intros s0 elems rs s Hu Hrun.
  - cbn in Hrun. inversion Hrun; subst. rewrite app_nil_r.
    repeat split. exact Hu.
  - cbn [appends] in Hrun.
    destruct (createUser_spec s0 elems Hu (params_value p)) as [data [_ Hc]].
    rewrite new_record_valid in Hc.
    set (rec := user_record (Int (Z.of_nat (List.length elems) + 1)) p) in *.
    assert (Hnext : exists s1, createUser (params_value p) s0
                      = (if writable s0 then Return (Int (Z.of_nat (List.length elems) + 1))
                         else Throw IOError, s1)
                      /\ users_of s1 = Some (VArr (elems ++ [rec]))
                      /\ writable s1 = writable s0).
    { rewrite Hc. destruct (writable s0) eqn:W; eexists; repeat split; exact W. }
    destruct Hnext as [s1 [Hc1 [Hu1 Hw1]]].
    rewrite Hc1 in Hrun.
    destruct (appends rest s1) as [rs' s2] eqn:Hrest.
    inversion Hrun; subst rs s2.
    destruct (IH s1 (elems ++ [rec]) rs' s Hu1 Hrest) as [Hw [Hs Hr]].
    rewrite length_app in Hs, Hr. cbn [List.length] in Hs, Hr.
    rewrite Nat.add_1_r in Hs, Hr. rewrite <- app_assoc in Hs.
    repeat split.
    + congruence.
    + exact Hs.
    + cbn [List.length]. rewrite ids_from_cons. cbn [map].
      rewrite Hr, Hw1. f_equal.
      destruct (writable s0); [|reflexivity]. do 2 f_equal. lia.
Qed.

(** C1. On a store of [n] records an append of a valid field set that
    returns, returns [n + 1], having added the record that carries this
    id, and it does return when the file system accepts the write; over
    any sequence of sequential appends from the empty store the
    returned ids are strictly increasing ([1, 2, ...] when every write
    is accepted) and the ids of the records of the store are pairwise
    distinct. *)
Theorem append_returns_next_id :
  (forall s elems p id s',
      users_of s = Some (VArr elems) ->
      createUser (params_value p) s = (Return id, s') ->
      id = Int (Z.of_nat (List.length elems) + 1)
      /\ users_of s' = Some (VArr (elems ++ [user_record id p])))
  /\
  (forall s elems p,
      users_of s = Some (VArr elems) ->
      writable s = true ->
      exists s',
        createUser (params_value p) s
        = (Return (Int (Z.of_nat (List.length elems) + 1)), s'))
  /\
  (forall ps s0 rs s,
      users_of s0 = Some (VArr []) ->
      appends ps s0 = (rs, s) ->
      (writable s0 = true -> rs = map Return (ids_from 1 (List.length ps)))
      /\ (exists zs, returned rs = map Int zs /\ StronglySorted Z.lt zs)
      /\ exists elems,
          users_of s = Some (VArr elems)
          /\ map get_id elems = map (fun n => Return (VNum n)) (ids_from 1 (List.length ps))
          /\ NoDup (map get_id elems)).
Proof.
  split; [|split].
  - intros s elems p id s' Hu Hc.
    destruct (createUser_spec s elems Hu (params_value p)) as [data [_ Hc']].
    rewrite Hc, new_record_valid in Hc'. unfold next_id in Hc'.
    destruct (writable s); [|discriminate Hc'].
    injection Hc' as -> ->. split; reflexivity.
  - intros s elems p Hu W.
    destruct (createUser_spec s elems Hu (params_value p)) as [data [_ Hc]].
    rewrite W in Hc. eexists. exact Hc.
  - intros ps s0 rs s Hu Hrun.
    destruct (appends_spec ps s0 [] rs s Hu Hrun) as [Hw [Hs Hr]].
    cbn [List.length app] in Hs, Hr.
    split; [intros W; rewrite W in Hr; exact Hr|]. split.
    + destruct (writable s0).
      * exists (map Z.of_nat (seq 1 (List.length ps))). split.
        -- rewrite Hr, returned_map_Return. apply ids_from_ints.
        -- apply seq_strictly_sorted.
      * exists []. split; [|constructor].
        rewrite Hr. clear. induction (ids_from 1 (List.length ps)) as [|n l IH];
          [reflexivity | exact IH].
    + exists (records_from 0 ps). split; [exact Hs|].
      rewrite records_from_ids. split; [reflexivity|]. apply ids_from_NoDup.
Qed.

Lemma append_returns_next_id_witness :
  let s0 := mkState (Some (lit "[]")) true None in
  let ana := mkParams (lit "Ana") (lit "ana@x.com") (lit "1 Rd") (lit "555") in
  let bo := mkParams (lit "Bo") (lit "bo@x.com") (lit "2 Rd") (lit "555") in
  (exists s', createUser (params_value ana) s0 = (Return (Int 1), s'))
  /\ fst (appends [ana; bo] s0) = [Return (Int 1); Return (Int 2)].
Proof.
  intros s0 ana bo. split.
  - apply (proj1 (proj2 append_returns_next_id) s0 [] ana);
      [vm_compute; reflexivity | reflexivity].
  - destruct (appends [ana; bo] s0) as [rs s] eqn:E.
    destruct (proj2 (proj2 append_returns_next_id) [ana; bo] s0 rs s) as [H _];
      [vm_compute; reflexivity | exact E |].
    apply H. reflexivity.
Defined.

(** ** Looking a record up *)

Lemma number_equal_refl_int (z : Z) : number_equal (Int z) (Int z) = true.
Proof. destruct z; cbn; auto using Pos.eqb_refl. Qed.

Lemma array_find_skip (pred : value -> outcome bool) (l r : list value) :
  Forall (fun u => pred u = Return false) l ->
  array_find pred (l ++ r) = array_find pred r.
Proof.
  induction 1 as [|u l Hu _ IH]; [reflexivity|].
  cbn [app array_find]. rewrite Hu. exact IH.
Qed.

Lemma other_id_no_match (userId : jstring) (u : value) :
  other_id (Number userId) u -> matches userId u = Return false.
Proof.
  intros [v [Hg He]]. unfold matches. rewrite Hg, He. reflexivity.
Qed.

Lemma array_find_none (pred : value -> outcome bool) (l : list value) :
  Forall (fun u => pred u = Return false) l ->
  array_find pred l = Return VUndefined.
Proof.
  intros H. rewrite <- (app_nil_r l). rewrite array_find_skip by exact H. reflexivity.
Qed.

Lemma user_details_loaded (s : state) (users : value) (href userId : jstring) :
  loaded s = Some users ->
  user_details href userId s =
    match find_user users userId with
    | Return user =>
        (Return (json_resource href (if equals_null user then NOT_FOUND else user)), s)
    | Throw e => (Throw e, s)
    end.
Proof.
  intros L. unfold user_details, bind, import_users, lift. rewrite L.
  destruct (find_user users userId) as [user|e]; [|reflexivity].
  destruct (equals_null user); reflexivity.
Qed.

Lemma get_id_user_record (id : number) (p : UserParams) :
  get_id (user_record id p) = Return (VNum id).
Proof. reflexivity. Qed.

(** The stores that sequential appends build from the empty store
    meet the condition of the lookup: no record carries the next id. *)
Lemma number_equal_int_neq (a b : Z) : a <> b -> number_equal (Int a) (Int b) = false.
Proof.
  intros H. destruct a, b; cbn; try reflexivity; try contradiction;
    apply Pos.eqb_neq; congruence.
Qed.

Lemma records_from_length (count : nat) (ps : list UserParams) :
  List.length (records_from count ps) = List.length ps.
Proof.
  revert count. induction ps as [|p ps IH]; intros count; [reflexivity|].
  cbn [records_from List.length]. rewrite IH. reflexivity.
Qed.

Lemma appended_records_are_fresh (ps : list UserParams) :
  Forall (other_id (next_id (records_from 0 ps))) (records_from 0 ps).
Proof.
  unfold next_id. rewrite records_from_length.
  assert (G : forall count m,
             (Z.of_nat (count + List.length ps) < m)%Z ->
             Forall (other_id (Int m)) (records_from count ps)).
  { induction ps as [|p ps IH]; intros count m Hm; [constructor|].
    cbn [records_from List.length] in *. constructor.
    - exists (VNum (Int (Z.of_nat count + 1))). split; [reflexivity|].
      cbn [equals_number]. apply number_equal_int_neq. lia.
    - apply IH. lia. }
  apply G. lia.
Qed.

(** C2, as stated, fails: the lookup returns the first record
    that carries the id, and the id that an append returns is taken
    from the length of the array, not from the ids in it.  On a store
    file that holds one well-formed record of id 2, the append of a
    valid field set returns 2 and the lookup of ["2"] answers with the
    record that was there before, not with the appended fields.  The
    same happens without any file prepared: after [create-random-user]
    has stored a generated object that brings its own [id] 2. *)
Lemma lookup_after_append_finds_an_older_record :
  let ana := mkParams (lit "Ana") (lit "ana@x.com") (lit "1 Rd") (lit "555") in
  let zed := mkParams (lit "Zed") (lit "zed@x.com") (lit "9 Rd") (lit "999") in
  let href := lit "users://2/details" in
  let found (v : value) := mkResource href (lit "application/json") (JSON.stringify v) in
  let generated :=
    lit "{" ++ JSON.quote (lit "id") ++ lit ":2," ++ JSON.quote (lit "name") ++ lit ":"
      ++ JSON.quote (lit "Zed") ++ lit "}" in
  match JSON.stringify (VArr [user_record (Int 2) zed]) with
  | Some text =>
      let s0 := mkState (Some text) true None in
      let s1 := snd (createUser (params_value ana) s0) in
      well_formed_store text = true
      /\ fst (createUser (params_value ana) s0) = Return (Int 2)
      /\ user_details href (lit "2") s1 = (Return (found (user_record (Int 2) zed)), s1)
      /\ found (user_record (Int 2) zed) <> found (user_record (Int 2) ana)
  | None => False
  end
  /\
  (let s0 := mkState (Some (lit "[]")) true None in
   let s1 := snd (create_random_user (Return (TextContent generated)) s0) in
   let s2 := snd (createUser (params_value ana) s1) in
   let old := VObj [(lit "id", VNum (Int 2)); (lit "name", VStr (lit "Zed"))] in
   fst (create_random_user (Return (TextContent generated)) s0)
   = Return (text_result (lit "User 1 created successfully"))
   /\ fst (createUser (params_value ana) s1) = Return (Int 2)
   /\ user_details href (lit "2") s2 = (Return (found old), s2)
   /\ found old <> found (user_record (Int 2) ana)).
Proof.
  intros ana zed href found generated. split.
  - destruct (JSON.stringify (VArr [user_record (Int 2) zed])) as [text|] eqn:Ht;
      [|discriminate Ht].
    vm_compute in Ht. injection Ht as <-.
    split; [vm_compute; reflexivity|].
    split; [vm_compute; reflexivity|].
    split; [vm_compute; reflexivity|].
    vm_compute. discriminate.
  - intros s0 s1 s2 old.
    split; [vm_compute; reflexivity|].
    split; [vm_compute; reflexivity|].
    split; [vm_compute; reflexivity|].
    vm_compute. discriminate.
Qed.

(** C2, amended. After an append of a valid field set has returned
    [id] on a store in which no record carries that id yet, the
    [user-details] lookup of any [userId] that denotes [id] answers
    with the JSON text of the appended fields together with that id.
    Every store that appends of valid field sets have built from the
    empty store is of that kind: there the lookup after an append
    always answers with the record just appended. *)
Theorem lookup_after_append :
  (forall s elems p id s' href userId,
      users_of s = Some (VArr elems) ->
      Forall (other_id id) elems ->
      createUser (params_value p) s = (Return id, s') ->
      Number userId = id ->
      id = Int (Z.of_nat (List.length elems) + 1)
      /\ user_details href userId s'
         = (Return (mkResource href (lit "application/json")
                      (JSON.stringify (user_record id p))), s'))
  /\
  (forall ps p s0 rs s id s' href userId,
      users_of s0 = Some (VArr []) ->
      appends ps s0 = (rs, s) ->
      createUser (params_value p) s = (Return id, s') ->
      Number userId = id ->
      id = Int (Z.of_nat (List.length ps) + 1)
      /\ user_details href userId s'
         = (Return (mkResource href (lit "application/json")
                      (JSON.stringify (user_record id p))), s')).
Proof.
  assert (Hgen : forall s elems p id s' href userId,
             users_of s = Some (VArr elems) ->
             Forall (other_id id) elems ->
             createUser (params_value p) s = (Return id, s') ->
             Number userId = id ->
             id = Int (Z.of_nat (List.length elems) + 1)
             /\ user_details href userId s'
                = (Return (mkResource href (lit "application/json")
                             (JSON.stringify (user_record id p))), s')).
  { intros s elems p id s' href userId Hu Hfresh Hc Hn.
    destruct (createUser_spec s elems Hu (params_value p)) as [data [_ Hc']].
    unfold next_id in Hc'.
    rewrite Hc in Hc'. rewrite new_record_valid in Hc'.
    destruct (writable s); [|discriminate].
    injection Hc' as Hid Hs. split; [exact Hid|].
    rewrite (user_details_loaded s' (VArr (elems ++ [user_record id p])) href userId)
      by (rewrite Hs, Hid; reflexivity).
    cbn [find_user]. rewrite array_find_skip.
    - cbn [array_find]. unfold matches. rewrite get_id_user_record.
      cbn [equals_number]. rewrite Hn, Hid, number_equal_refl_int. reflexivity.
    - apply Forall_forall. intros u Hin. apply other_id_no_match.
      rewrite Hn. eapply Forall_forall in Hfresh; eauto. }
  split; [exact Hgen|].
  intros ps p s0 rs s id s' href userId Hu Hrun Hc Hn.
  destruct (appends_spec ps s0 [] rs s Hu Hrun) as (_ & Hs & _).
  cbn [app List.length] in Hs.
  destruct (createUser_spec s _ Hs (params_value p)) as [data [_ Hc']].
  rewrite Hc in Hc'. destruct (writable s); [|discriminate].
  injection Hc' as Hid _.
  destruct (Hgen s (records_from 0 ps) p id s' href userId Hs) as [Hid' Hfind];
    try assumption.
  - rewrite Hid. apply appended_records_are_fresh.
  - split; [|exact Hfind]. rewrite Hid'. rewrite records_from_length. reflexivity.
Qed.

Lemma lookup_after_append_witness :
  let ana := mkParams (lit "Ana") (lit "ana@x.com") (lit "1 Rd") (lit "555") in
  let bo := mkParams (lit "Bo") (lit "bo@x.com") (lit "2 Rd") (lit "556") in
  let s0 := mkState (Some (lit "[]")) true None in
  let s1 := snd (createUser (params_value ana) s0) in
  let s2 := snd (createUser (params_value bo) s1) in
  user_details (lit "users://2/details") (lit "2") s2
  = (Return (mkResource (lit "users://2/details") (lit "application/json")
               (JSON.stringify (user_record (Int 2) bo))), s2).
Proof.
  intros ana bo s0 s1 s2.
  refine (proj2 (proj1 lookup_after_append s1 [user_record (Int 1) ana] bo (Int 2) s2
                   _ (lit "2") _ _ _ _)).
  - vm_compute; reflexivity.
  - constructor; [|constructor].
    exists (VNum (Int 1)). split; vm_compute; reflexivity.
  - vm_compute; reflexivity.
  - vm_compute; reflexivity.
Defined.

(** ** What the handlers do with a failure *)

Lemma user_details_miss (s : state) (elems : list value) (href userId : jstring) :
  loaded s = Some (VArr elems) ->
  Forall (other_id (Number userId)) elems ->
  user_details href userId s = (Return (mkResource href (lit "application/json") None), s).
Proof.
  intros L Hmiss. rewrite (user_details_loaded s (VArr elems)) by exact L.
  cbn [find_user]. rewrite array_find_none; [reflexivity|].
  apply Forall_forall. intros u Hin. apply other_id_no_match.
  eapply Forall_forall in Hmiss; eauto.
Qed.

(** C5. The lookup of an id that no record carries: [find] yields
    [undefined], which is not [=== null], so the handler returns the
    serialization of [undefined], a resource without text, and not the
    ["User not found"] envelope.  Here on the store that holds the
    record of id 1, looked up with id 2, and on the empty store. *)
Theorem lookup_of_missing_id :
  let ana := mkParams (lit "Ana") (lit "ana@x.com") (lit "1 Rd") (lit "555") in
  let s := mkState (Some (lit "[]")) true (Some (VArr [user_record (Int 1) ana])) in
  let empty := mkState (Some (lit "[]")) true None in
  let href := lit "users://2/details" in
  user_details href (lit "2") s
    = (Return (mkResource href (lit "application/json") None), s)
  /\ fst (user_details href (lit "2") empty)
     = Return (mkResource href (lit "application/json") None)
  /\ fst (user_details href (lit "2") s) <> Return (json_resource href NOT_FOUND)
  /\ JSON.stringify NOT_FOUND
     = Some (lit "{" ++ JSON.quote (lit "error") ++ lit ":"
                 ++ JSON.quote (lit "User not found") ++ lit "}").
Proof.
  intros ana s empty href.
  split; [vm_compute; reflexivity|].
  split; [vm_compute; reflexivity|].
  split; [|vm_compute; reflexivity].
  vm_compute. discriminate.
Qed.

(** C6. A store failure in a resource handler is not caught: with a
    backing file that does not parse, the [Users] and [user-details]
    handlers throw the import's SyntaxError, and with no backing file
    at all its module-not-found error, while the [create-user] tool on
    the same states catches it and answers ["Failed to save user"]. *)
Theorem resource_handlers_throw :
  let ana := mkParams (lit "Ana") (lit "ana@x.com") (lit "1 Rd") (lit "555") in
  let broken := mkState (Some (lit "[{")) true None in
  let missing := mkState None true None in
  users_resource (lit "user://all") broken = (Throw SyntaxError, broken)
  /\ user_details (lit "users://1/details") (lit "1") broken = (Throw SyntaxError, broken)
  /\ users_resource (lit "user://all") missing = (Throw ModuleNotFound, missing)
  /\ user_details (lit "users://1/details") (lit "1") missing = (Throw ModuleNotFound, missing)
  /\ create_user ana broken = (Return (text_result (lit "Failed to save user")), broken)
  /\ create_user ana missing = (Return (text_result (lit "Failed to save user")), missing).
Proof.
  intros ana broken missing.
  split; [vm_compute; reflexivity|].
  split; [vm_compute; reflexivity|].
  split; [vm_compute; reflexivity|].
  split; [vm_compute; reflexivity|].
  split; vm_compute; reflexivity.
Qed.

(** C7. Generated text that parses but is not of the input shape is
    appended all the same: on the empty store the text [{}] yields the
    record [{ id: 1 }] and the answer ["User 1 created successfully"],
    the number [7] does the same, and an object with an [id] of its own
    is stored under that id while the answer names the id 1. *)
Theorem random_user_is_not_validated :
  let s0 := mkState (Some (lit "[]")) true None in
  let bare := VArr [VObj [(lit "id", VNum (Int 1))]] in
  let five := VArr [VObj [(lit "id", VNum (Int 5))]] in
  (exists s1,
      create_random_user (Return (TextContent (lit "{}"))) s0
        = (Return (text_result (lit "User 1 created successfully")), s1)
      /\ loaded s1 = Some bare
      /\ persisted s1 = Some bare)
  /\ (exists s1,
      create_random_user (Return (TextContent (lit "7"))) s0
        = (Return (text_result (lit "User 1 created successfully")), s1)
      /\ loaded s1 = Some bare
      /\ persisted s1 = Some bare)
  /\ (exists s1,
      create_random_user
        (Return (TextContent (lit "{" ++ JSON.quote (lit "id") ++ lit ":5}"))) s0
        = (Return (text_result (lit "User 1 created successfully")), s1)
      /\ loaded s1 = Some five
      /\ persisted s1 = Some five).
Proof.
  intros s0 bare five.
  split; [|split]; eexists; (split; [vm_compute; reflexivity|]);
    split; vm_compute; reflexivity.
Qed.

(** The tools answer in every state: [create-user] always, and
    [create-random-user] whenever the sampling request itself settles
    with a result. *)
Lemma create_user_never_throws (p : UserParams) (s : state) :
  exists r s', create_user p s = (Return r, s').
Proof.
  unfold create_user, try_catch, bind.
  destruct (createUser (params_value p) s) as [[id|e] s']; do 2 eexists; reflexivity.
Qed.

Lemma create_random_user_never_throws (content : sampling_content) (s : state) :
  exists r s', create_random_user (Return content) s = (Return r, s').
Proof.
  unfold create_random_user, bind, lift.
  destruct content as [text| |]; try (do 2 eexists; reflexivity).
  unfold try_catch, bind.
  destruct (JSON_parse (strip_fences text) s) as [[v|e] s1];
    [|do 2 eexists; reflexivity].
  destruct (createUser v s1) as [[id|e] s2]; do 2 eexists; reflexivity.
Qed.

(** Text that does not parse, and a result that is not text, leave
    the store as it is. *)
Lemma create_random_user_rejects (res : sampling_content) (s : state) :
  match res with
  | TextContent text => JSON.parse (strip_fences text) = None
  | _ => True
  end ->
  create_random_user (Return res) s
  = (Return (text_result (lit "Failed to generate user data")), s).
Proof.
  unfold create_random_user, bind, lift.
  destruct res as [text| |]; intros H; try reflexivity.
  unfold try_catch, bind, JSON_parse. rewrite H. reflexivity.
Qed.

(** ** A backing file that is not a store *)

(** C4, as stated, fails: the text [[{}]] is a JSON array but not one
    of well-formed records, and yet the three operations succeed on
    it, the append rewriting the file. *)
Lemma malformed_records_are_served :
  let ana := mkParams (lit "Ana") (lit "ana@x.com") (lit "1 Rd") (lit "555") in
  let s := mkState (Some (lit "[{}]")) true None in
  let s' := set_loaded (VArr [VObj []]) s in
  well_formed_store (lit "[{}]") = false
  /\ users_resource (lit "user://all") s
     = (Return (mkResource (lit "user://all") (lit "application/json") (Some (lit "[{}]"))), s')
  /\ user_details (lit "users://1/details") (lit "1") s
     = (Return (mkResource (lit "users://1/details") (lit "application/json") None), s')
  /\ fst (createUser (params_value ana) s) = Return (Int 2)
  /\ file (snd (createUser (params_value ana) s)) <> file s.
Proof.
  intros ana s s'.
  split; [vm_compute; reflexivity|].
  split; [vm_compute; reflexivity|].
  split; [vm_compute; reflexivity|].
  split; [vm_compute; reflexivity|].
  vm_compute. discriminate.
Qed.

(** C4, amended. When the text of the backing file, a leading byte
    order mark apart, does not parse as JSON and the module is not
    loaded yet, the [Users] and [user-details] handlers and
    [createUser] all fail with the import's SyntaxError and leave the
    state, the file with it, as it was; the [create-user] tool turns
    the failure into its ["Failed to save user"] answer. *)
Theorem unparsable_file_fails_unchanged :
  forall s text,
    loaded s = None ->
    file s = Some text ->
    JSON.parse (strip_bom text) = None ->
    (forall href, users_resource href s = (Throw SyntaxError, s))
    /\ (forall href userId, user_details href userId s = (Throw SyntaxError, s))
    /\ (forall params, createUser params s = (Throw SyntaxError, s))
    /\ (forall p, create_user p s = (Return (text_result (lit "Failed to save user")), s)).
Proof.
  intros s text L F P.
  assert (I : import_users s = (Throw SyntaxError, s)).
  { unfold import_users, JSON_module. rewrite L, F, P. reflexivity. }
  unfold create_user, try_catch, users_resource, user_details, createUser,
    createUser_push, bind.
  rewrite I. repeat split.
Qed.

Lemma unparsable_file_fails_unchanged_witness :
  let s := mkState (Some (lit "[{")) true None in
  users_resource (lit "user://all") s = (Throw SyntaxError, s)
  /\ user_details (lit "users://1/details") (lit "1") s = (Throw SyntaxError, s)
  /\ createUser VNull s = (Throw SyntaxError, s).
Proof.
  intros s.
  destruct (unparsable_file_fails_unchanged s (lit "[{")) as [H1 [H2 [H3 _]]];
    [reflexivity | reflexivity | vm_compute; reflexivity |].
  split; [apply H1|]. split; [apply H2 | apply H3].
Defined.

(** ** Where a read takes the records from *)

(** A byte order mark is no JSON white space: a text that
    [JSON.parse] accepts does not start with one. *)
Lemma parsed_text_has_no_bom (text : jstring) (v : value) :
  JSON.parse text = Some v -> strip_bom text = text.
Proof.
  destruct text as [|c r]; [reflexivity|]. cbn [strip_bom].
  destruct (N.eqb_spec c BOM) as [->|_]; [|reflexivity].
  intros H. discriminate H.
Qed.

Lemma JSON_module_parsed (text : jstring) (v : value) :
  JSON.parse text = Some v -> JSON_module text = Some v.
Proof.
  intros H. unfold JSON_module. rewrite (parsed_text_has_no_bom text v H). exact H.
Qed.

(** C8, as stated, fails: after an append whose write is refused, the
    file still holds the empty array while every read returns the
    array with the new record. *)
Lemma read_differs_from_file :
  let ana := mkParams (lit "Ana") (lit "ana@x.com") (lit "1 Rd") (lit "555") in
  let s0 := mkState (Some (lit "[]")) false None in
  let s1 := snd (create_user ana s0) in
  fst (create_user ana s0) = Return (text_result (lit "Failed to save user"))
  /\ persisted s1 = Some (VArr [])
  /\ users_resource (lit "user://all") s1
     = (Return (json_resource (lit "user://all") (VArr [user_record (Int 1) ana])), s1)
  /\ user_details (lit "users://1/details") (lit "1") s1
     = (Return (json_resource (lit "users://1/details") (user_record (Int 1) ana)), s1)
  /\ fst (createUser (params_value ana) (mkState (file s1) true (loaded s1))) = Return (Int 2).
Proof.
  intros ana s0 s1.
  split; [vm_compute; reflexivity|].
  split; [vm_compute; reflexivity|].
  split; [vm_compute; reflexivity|].
  split; vm_compute; reflexivity.
Qed.

(** C8, amended. Once the module is loaded every read returns the
    module's array, whatever the file holds: the [Users] resource
    serializes it, [user-details] searches it, [createUser] numbers the
    new record after it.  Only a read that finds the module not loaded
    parses the file, and it keeps the result as the module's array. *)
Theorem reads_come_from_the_module :
  (forall s users href userId params,
      loaded s = Some users ->
      import_users s = (Return users, s)
      /\ users_resource href s = (Return (json_resource href users), s)
      /\ user_details href userId s
         = match find_user users userId with
           | Return user =>
               (Return (json_resource href (if equals_null user then NOT_FOUND else user)), s)
           | Throw e => (Throw e, s)
           end
      /\ forall elems,
          users = VArr elems ->
          fst (createUser params s)
          = if writable s then Return (Int (Z.of_nat (List.length elems) + 1))
            else Throw IOError)
  /\
  (forall s text users href,
      loaded s = None ->
      file s = Some text ->
      JSON.parse text = Some users ->
      import_users s = (Return users, set_loaded users s)
      /\ users_resource href s = (Return (json_resource href users), set_loaded users s)).
Proof.
  split.
  - intros s users href userId params L.
    assert (I : import_users s = (Return users, s)).
    { unfold import_users. rewrite L. reflexivity. }
    split; [exact I|]. split.
    { unfold users_resource, bind. rewrite I. reflexivity. }
    split.
    { apply user_details_loaded. exact L. }
    intros elems ->.
    destruct (createUser_spec s elems) with (params := params) as [data [_ Hc]].
    { unfold users_of. rewrite L. reflexivity. }
    rewrite Hc. destruct (writable s); reflexivity.
  - intros s text users href L F P.
    assert (I : import_users s = (Return users, set_loaded users s)).
    { unfold import_users, JSON_module.
      rewrite L, F, (parsed_text_has_no_bom text users P), P. reflexivity. }
    split; [exact I|].
    unfold users_resource, bind. rewrite I. reflexivity.
Qed.

Lemma reads_come_from_the_module_witness :
  let ana := mkParams (lit "Ana") (lit "ana@x.com") (lit "1 Rd") (lit "555") in
  let stale := mkState (Some (lit "[]")) true (Some (VArr [user_record (Int 1) ana])) in
  let fresh := mkState (Some (lit "[]")) true None in
  users_resource (lit "user://all") stale
    = (Return (json_resource (lit "user://all") (VArr [user_record (Int 1) ana])), stale)
  /\ users_resource (lit "user://all") fresh
    = (Return (json_resource (lit "user://all") (VArr [])), set_loaded (VArr []) fresh).
Proof.
  intros ana stale fresh. split.
  - apply (proj1 reads_come_from_the_module stale _ (lit "user://all") (lit "1") VNull).
    reflexivity.
  - apply (proj2 reads_come_from_the_module fresh (lit "[]")).
    + reflexivity.
    + reflexivity.
    + vm_compute; reflexivity.
Defined.

(** ** Overlapping appends *)

Lemma started_app (a b : list task) : started (a ++ b) = started a + started b.
Proof. unfold started. rewrite filter_app, length_app. reflexivity. Qed.

Lemma assigned_app (a b : list task) : assigned (a ++ b) = assigned a ++ assigned b.
Proof. unfold assigned. apply flat_map_app. Qed.

Lemma ids_from_snoc (first count : nat) :
  ids_from first (S count) = ids_from first count ++ [Int (Z.of_nat (first + count))].
Proof. unfold ids_from. rewrite seq_S, map_app. reflexivity. Qed.

Lemma started_insert (before after : list task) (t : task) :
  started (before ++ t :: after)
  = started before + (if is_started t then 1 else 0) + started after.
Proof.
  rewrite started_app. unfold started. cbn [filter].
  destruct (is_started t); cbn [List.length]; lia.
Qed.

Lemma assigned_insert (before after : list task) (t : task) :
  assigned (before ++ t :: after) = assigned before ++ assigned_to t ++ assigned after.
Proof. rewrite assigned_app. reflexivity. Qed.

Lemma calls_not_started (ps : list UserParams) :
  started (calls ps) = 0 /\ assigned (calls ps) = [].
Proof.
  unfold started, calls. induction ps as [|p ps [IH1 IH2]]; split; auto.
Qed.

Lemma invariant_initial (ps : list UserParams) (s0 : state) (elems0 : list value) :
  users_of s0 = Some (VArr elems0) ->
  invariant elems0 (writable s0) (calls ps, s0).
Proof.
  intros Hu. destruct (calls_not_started ps) as [Hst Has].
  exists []. cbn [fst snd]. rewrite Hst, Has, app_nil_r.
  split; [exact Hu|].
  split; [intros H; contradiction|].
  split; [reflexivity|].
  split; [reflexivity|].
  split; [constructor|].
  split; [constructor|].
  split; [|reflexivity].
  unfold calls. apply Forall_forall. intros t Ht.
  apply in_map_iff in Ht. destruct Ht as [p [<- _]]. exists p. reflexivity.
Qed.

Lemma id_in_range_grows (n0 : nat) (elems : list value) (rec : value) (id : number) :
  id_in_range n0 elems id -> id_in_range n0 (elems ++ [rec]) id.
Proof.
  intros [z [-> Hz]]. exists z. split; [reflexivity|].
  rewrite length_app. cbn [List.length]. lia.
Qed.

Lemma NoDup_app_drop {A} (a b c : list A) : NoDup (a ++ b ++ c) -> NoDup (a ++ c).
Proof.
  induction b as [|x b IH]; [trivial|].
  intros H. apply IH. cbn [app] in H. apply NoDup_remove_1 in H. exact H.
Qed.

(** A step of a call that is past its import touches the file at
    most: the records, the permission and the ids stay, or the call
    fails and gives its id up. *)
Lemma file_step_preserves_invariant
  (elems0 : list value) (w0 : bool) (before after : list task) (t t' : task)
  (s s' : state) :
  invariant elems0 w0 (before ++ t :: after, s) ->
  is_started t = true -> is_started t' = true ->
  loaded s' = loaded s -> writable s' = writable s ->
  assigned_to t' = assigned_to t \/ assigned_to t' = [] ->
  task_ok w0 t' ->
  invariant elems0 w0 (before ++ t' :: after, s').
Proof.
  intros [new [Hu [Hl [Hlen [Hw [Hrange [Hnd [Hok Hids]]]]]]]] Ht Ht' HL HW Has Hok'.
  cbn [fst snd] in *.
  rewrite started_insert, Ht in Hl, Hlen, Hids.
  rewrite assigned_insert in Hrange, Hnd.
  assert (Hloaded : loaded s = Some (VArr (elems0 ++ new))) by (apply Hl; lia).
  exists new. cbn [fst snd]. rewrite started_insert, Ht', assigned_insert.
  split; [unfold users_of; rewrite HL, Hloaded; reflexivity|].
  split; [intros _; rewrite HL; exact Hloaded|].
  split; [exact Hlen|].
  split; [rewrite HW; exact Hw|].
  apply Forall_app in Hok. destruct Hok as [Hokb Hoka].
  inversion Hoka as [|t0 l0 _ Hoka']; subst t0 l0.
  assert (Hok2 : Forall (task_ok w0) (before ++ t' :: after)).
  { apply Forall_app. split; [exact Hokb|]. constructor; assumption. }
  destruct Has as [-> | ->].
  - split; [exact Hrange|]. split; [exact Hnd|]. split; [exact Hok2 | exact Hids].
  - cbn [app]. apply Forall_app in Hrange. destruct Hrange as [Hrb Hra].
    apply Forall_app in Hra. destruct Hra as [_ Hra].
    split; [apply Forall_app; split; assumption|].
    split; [apply (NoDup_app_drop _ _ _ Hnd)|].
    split; [exact Hok2 | exact Hids].
Qed.

Lemma step_preserves_invariant (elems0 : list value) (w0 : bool) (c c' : config) :
  invariant elems0 w0 c -> step c c' -> invariant elems0 w0 c'.
Proof.
  intros Hinv Hstep.
  destruct Hstep as [before t after s t' s' Hp Hr].
  destruct t as [v|id data|id data|id|r]; [| | | |discriminate Hp].
  - (* the import settles: the record is pushed *)
    destruct Hinv as [new [Hu [Hl [Hlen [Hw [Hrange [Hnd [Hok Hids]]]]]]]].
    cbn [fst snd] in *.
    rewrite started_insert in Hl, Hlen, Hids.
    rewrite assigned_insert in Hrange, Hnd.
    apply Forall_app in Hok. destruct Hok as [Hokb Hoka].
    inversion Hoka as [|t0 l0 Hokt Hoka']; subst t0 l0. clear Hoka.
    apply Forall_app in Hrange. destruct Hrange as [Hrb Hra].
    apply Forall_app in Hra. destruct Hra as [Hrt Hra].
    unfold invariant. cbn [fst snd].
    rewrite started_insert, assigned_insert.
    set (elems := elems0 ++ new) in *.
    destruct Hokt as [p ->].
    cbn [resume] in Hr.
    destruct (createUser_push_spec s elems Hu (params_value p)) as [data [_ Hpush]].
    rewrite Hpush in Hr. rewrite new_record_valid in Hr.
    injection Hr as <- <-.
    set (rec := user_record (next_id elems) p).
    cbn [is_started assigned_to app] in *.
    exists (new ++ [rec]). rewrite app_assoc. fold elems.
    split; [reflexivity|].
    split; [intros _; reflexivity|].
    split; [rewrite length_app; cbn [List.length]; lia|].
    split; [exact Hw|].
    split.
    { apply Forall_app. split.
      - eapply Forall_impl; [apply id_in_range_grows | exact Hrb].
      - constructor; [|eapply Forall_impl; [apply id_in_range_grows | exact Hra]].
        exists (Z.of_nat (List.length elems) + 1)%Z. split; [reflexivity|].
        unfold elems. rewrite !length_app. cbn [List.length]. lia. }
    split.
    { apply NoDup_Add with (a := next_id elems) (l := assigned before ++ assigned after).
      - apply Add_app.
      - split; [exact Hnd|].
        intros Hin. apply in_app_or in Hin.
        assert (Hr' : id_in_range (List.length elems0) elems (next_id elems)).
        { destruct Hin as [Hin|Hin];
            [eapply Forall_forall in Hrb | eapply Forall_forall in Hra]; eauto. }
        destruct Hr' as [z [Hz Hb]]. unfold next_id in Hz.
        injection Hz as Hz. lia. }
    split.
    { apply Forall_app. split; [exact Hokb|]. constructor; [exact I | exact Hoka']. }
    rewrite map_app, Hids.
    replace (started before + 1 + started after)
      with (S (started before + 0 + started after)) by lia.
    rewrite ids_from_snoc, map_app. f_equal.
    cbn [map]. unfold rec. rewrite get_id_user_record. unfold next_id.
    do 4 f_equal. unfold elems. rewrite length_app. lia.
  - (* the file is opened, and truncated, or the open is refused *)
    assert (Hw : writable s = w0) by (destruct Hinv as (? & _ & _ & _ & Hw & _); exact Hw).
    cbn [resume] in Hr. unfold fs_open in Hr.
    destruct (writable s) eqn:W; injection Hr as <- <-;
      apply (file_step_preserves_invariant elems0 w0 before after
               (Opening id data) _ s _ Hinv);
      first [reflexivity | left; reflexivity | right; reflexivity
            | exact I | cbn; congruence].
  - (* the text is written *)
    cbn [resume] in Hr. unfold fs_write in Hr. injection Hr as <- <-.
    apply (file_step_preserves_invariant elems0 w0 before after
             (Writing id data) _ s _ Hinv);
      first [reflexivity | left; reflexivity | exact I].
  - (* the file is closed: the call returns *)
    cbn [resume] in Hr. injection Hr as <- <-.
    apply (file_step_preserves_invariant elems0 w0 before after
             (Closing id) _ s _ Hinv);
      first [reflexivity | left; reflexivity | exact I].
Qed.

Lemma steps_preserve_invariant (elems0 : list value) (w0 : bool) (c c' : config) :
  invariant elems0 w0 c -> steps c c' -> invariant elems0 w0 c'.
Proof.
  intros Hinv Hsteps. induction Hsteps as [c|c1 c2 c3 _ IH Hstep]; [exact Hinv|].
  eapply step_preserves_invariant; [apply IH; exact Hinv | exact Hstep].
Qed.

Lemma steps_keep_the_calls (c c' : config) :
  steps c c' -> List.length (fst c') = List.length (fst c).
Proof.
  induction 1 as [c|c1 c2 c3 _ IH Hstep]; [reflexivity|].
  rewrite <- IH. destruct Hstep. cbn [fst]. rewrite !length_app. reflexivity.
Qed.

Lemma settled_all_started (pool : list task) :
  all_settled pool = true -> started pool = List.length pool.
Proof.
  unfold all_settled, started. induction pool as [|t pool IH]; [reflexivity|].
  cbn [forallb filter]. intros H. apply andb_prop in H. destruct H as [Ht Hp].
  destruct t as [v|id data|id data|id|r]; try discriminate Ht.
  cbn [is_started List.length]. rewrite IH by exact Hp. reflexivity.
Qed.

Lemma settled_all_returned (pool : list task) :
  all_settled pool = true ->
  Forall (task_ok true) pool ->
  List.length (assigned pool) = List.length pool.
Proof.
  unfold all_settled. induction pool as [|t pool IH]; [reflexivity|].
  cbn [forallb]. intros H Hok. apply andb_prop in H. destruct H as [Ht Hp].
  inversion Hok as [|t0 l0 Hokt Hokp]; subst.
  destruct t as [v|id data|id data|id|[id|e]]; try discriminate Ht.
  - change (assigned (Settled (Return id) :: pool)) with (id :: assigned pool).
    cbn [List.length]. rewrite IH by assumption. reflexivity.
  - cbn in Hokt. discriminate Hokt.
Qed.

Lemma overlay_empty (data : jstring) : overlay data [] = data.
Proof. unfold overlay. rewrite skipn_nil. apply app_nil_r. Qed.

(** A write that no other write interleaves with is the replacement
    of the file that the sequential call takes it for. *)
Lemma writeFile_is_open_then_write (data : jstring) (s : state) :
  bind fs_open (fun _ => fs_write data) s = fs_writeFile data s.
Proof.
  unfold bind, fs_open, fs_write, fs_writeFile.
  destruct (writable s); [|reflexivity].
  cbn [file set_file]. rewrite overlay_empty. reflexivity.
Qed.

(** The sequential call is the four resumptions one after the other. *)
Lemma createUser_is_four_resumptions (params : value) (s : state) :
  let '(t1, s1) := resume (Importing params) s in
  let '(t2, s2) := resume t1 s1 in
  let '(t3, s3) := resume t2 s2 in
  resume t3 s3 = (Settled (fst (createUser params s)), snd (createUser params s)).
Proof.
  rewrite createUser_split. unfold bind. cbn [resume].
  destruct (createUser_push params s) as [[[id data]|e] s1]; [|reflexivity].
  cbn [resume fst snd]. rewrite <- writeFile_is_open_then_write.
  unfold bind, fs_open. destruct (writable s1); reflexivity.
Qed.

Lemma resume_at_steps (i : nat) (pool : list task) (s : state) :
  steps (pool, s) (resume_at i pool s).
Proof.
  revert i. induction pool as [|t pool IH]; intros i;
    [destruct i; apply steps_refl|].
  destruct i as [|j]; cbn [resume_at].
  - destruct (pending t) eqn:P; [|apply steps_refl].
    destruct (resume t s) as [t' s'] eqn:R.
    eapply steps_step; [apply steps_refl|].
    apply (step_resume [] t pool s t' s' P R).
  - specialize (IH j). destruct (resume_at j pool s) as [pool' s'].
    clear -IH. remember (pool, s) as c eqn:Ec. remember (pool', s') as c' eqn:Ec'.
    revert pool' s' Ec'. induction IH as [c0|c1 c2 c3 H12 IH12 H23]; intros pool' s' Ec'.
    + subst. inversion Ec'; subst. apply steps_refl.
    + subst. destruct c2 as [pool2 s2].
      eapply steps_step; [apply (IH12 eq_refl pool2 s2 eq_refl)|].
      inversion H23 as [before t0 after s0 t' s'0 P R E1 E2]; subst.
      apply (step_resume (t :: before) t0 after s2 t' s' P R).
Qed.

Lemma steps_trans (c1 c2 c3 : config) : steps c1 c2 -> steps c2 c3 -> steps c1 c3.
Proof.
  intros H12 H23. induction H23 as [c|c2 c3 c4 _ IH Hstep]; [exact H12|].
  eapply steps_step; [apply IH; exact H12 | exact Hstep].
Qed.

Lemma run_steps (schedule : list nat) (c : config) : steps c (run schedule c).
Proof.
  revert c. induction schedule as [|i later IH]; intros [pool s]; [apply steps_refl|].
  cbn [run fst snd]. eapply steps_trans; [apply resume_at_steps | apply IH].
Qed.

Lemma run_app (a b : list nat) (c : config) : run (a ++ b) c = run b (run a c).
Proof. revert c. induction a as [|i a IH]; intros c; [reflexivity | cbn [app run]; apply IH]. Qed.

Lemma run_shift (schedule : list nat) (t : task) (pool : list task) (s : state) :
  run (map S schedule) (t :: pool, s)
  = (t :: fst (run schedule (pool, s)), snd (run schedule (pool, s))).
Proof.
  revert pool s. induction schedule as [|i later IH]; intros pool s; [reflexivity|].
  cbn [map run fst snd resume_at].
  destruct (resume_at i pool s) as [pool' s']. cbn [fst snd]. apply IH.
Qed.

(** Every call settles after four resumptions, so every pool can be
    run until all its calls have settled. *)
Lemma resume_at_head (t : task) (rest : list task) (s : state) :
  exists t' s',
    resume_at 0 (t :: rest) s = (t' :: rest, s')
    /\ remaining t' <= pred (remaining t).
Proof.
  cbn [resume_at].
  destruct t as [v|id data|id data|id|r]; cbn [pending resume remaining pred].
  - destruct (createUser_push v s) as [[[id data]|e] s1];
      do 2 eexists; (split; [reflexivity|]); cbn [remaining]; lia.
  - unfold fs_open. destruct (writable s);
      do 2 eexists; (split; [reflexivity|]); cbn [remaining]; lia.
  - do 2 eexists. split; [reflexivity|]. cbn [remaining]. lia.
  - do 2 eexists. split; [reflexivity|]. cbn [remaining]. lia.
  - do 2 eexists. split; [reflexivity|]. cbn [remaining]. lia.
Qed.

Lemma run_head (t : task) (rest : list task) (s : state) :
  exists t4 s4, run [0; 0; 0; 0] (t :: rest, s) = (t4 :: rest, s4) /\ pending t4 = false.
Proof.
  cbn [run fst snd].
  destruct (resume_at_head t rest s) as (t1 & s1 & -> & H1). cbn [fst snd].
  destruct (resume_at_head t1 rest s1) as (t2 & s2 & -> & H2). cbn [fst snd].
  destruct (resume_at_head t2 rest s2) as (t3 & s3 & -> & H3). cbn [fst snd].
  destruct (resume_at_head t3 rest s3) as (t4 & s4 & -> & H4). cbn [fst snd].
  exists t4, s4. split; [reflexivity|].
  assert (Hr : remaining t <= 4) by (destruct t; cbn; lia).
  destruct t4; cbn [remaining] in H4; [lia..|reflexivity].
Qed.

Lemma pool_can_settle (pool : list task) :
  forall s, exists schedule, all_settled (fst (run schedule (pool, s))) = true.
Proof.
  induction pool as [|t rest IH]; intros s; [exists []; reflexivity|].
  destruct (run_head t rest s) as [t4 [s4 [Hrun Hp]]].
  destruct (IH s4) as [schedule Hs].
  exists ([0; 0; 0; 0] ++ map S schedule).
  rewrite run_app, Hrun, run_shift. cbn [fst].
  unfold all_settled in *. cbn [forallb]. rewrite Hp, Hs. reflexivity.
Qed.

(** C3, as stated, fails for the store on disk: two overlapping
    appends on the empty store return the ids 1 and 2, but when both
    files are opened before either text is written and the text of the
    first call is written after the text of the second, the file is
    left with the shorter text of the first call laid over the longer
    text of the second.  That file does not parse: the store on disk
    has not grown by two records, it is no store any more. *)
Lemma overlapping_writes_damage_the_file :
  let ana := mkParams (lit "Ana") (lit "ana@x.com") (lit "1 Rd") (lit "555") in
  let bo := mkParams (lit "Bo") (lit "bo@x.com") (lit "2 Rd") (lit "555") in
  let s0 := mkState (Some (lit "[]")) true None in
  let c := run [0; 1; 0; 1; 1; 0; 0; 1] (calls [ana; bo], s0) in
  steps (calls [ana; bo], s0) c
  /\ fst c = [Settled (Return (Int 1)); Settled (Return (Int 2))]
  /\ persisted s0 = Some (VArr [])
  /\ match JSON.stringify_pretty (VArr [user_record (Int 1) ana]),
           JSON.stringify_pretty (VArr [user_record (Int 1) ana; user_record (Int 2) bo])
     with
     | Some first, Some second => file (snd c) = Some (overlay first second)
     | _, _ => False
     end
  /\ persisted (snd c) = None
  /\ persisted (snd c) <> Some (VArr [user_record (Int 1) ana; user_record (Int 2) bo]).
Proof.
  intros ana bo s0 c.
  split; [apply run_steps|].
  split; [vm_compute; reflexivity|].
  split; [vm_compute; reflexivity|].
  split; [vm_compute; reflexivity|].
  split; [vm_compute; reflexivity|].
  vm_compute. discriminate.
Qed.

(** C3, amended. [N] overlapping appends of valid field sets can
    always be run until all have settled, and however their resumptions
    interleave, once all calls have settled the ids they returned are
    pairwise distinct, the array in memory holds the records it held
    before followed by exactly [N] new ones, numbered consecutively, and
    when the file system accepts the writes all [N] calls have returned
    an id.  What the backing file holds is left open. *)
Theorem overlapping_appends :
  (forall ps s0, exists schedule,
      all_settled (fst (run schedule (calls ps, s0))) = true)
  /\
  (forall ps s0 elems0 pool s,
      users_of s0 = Some (VArr elems0) ->
      steps (calls ps, s0) (pool, s) ->
      all_settled pool = true ->
      NoDup (assigned pool)
      /\ (exists new,
            users_of s = Some (VArr (elems0 ++ new))
            /\ List.length new = List.length ps
            /\ map get_id new
               = map (fun n => Return (VNum n))
                     (ids_from (S (List.length elems0)) (List.length ps))
            /\ NoDup (map get_id new))
      /\ (writable s0 = true -> List.length (assigned pool) = List.length ps)).
Proof.
  split; [intros ps s0; apply pool_can_settle|].
  intros ps s0 elems0 pool s Hu Hsteps Hdone.
  pose proof (steps_keep_the_calls _ _ Hsteps) as Hlen. cbn [fst] in Hlen.
  unfold calls in Hlen. rewrite length_map in Hlen.
  pose proof (steps_preserve_invariant elems0 (writable s0) _ _
                (invariant_initial ps s0 elems0 Hu) Hsteps) as Hinv.
  destruct Hinv as [new [Hu' [_ [Hn [_ [_ [Hnd [Hok Hids]]]]]]]].
  cbn [fst snd] in *.
  rewrite (settled_all_started pool Hdone), Hlen in Hn, Hids.
  split; [exact Hnd|]. split.
  - exists new. split; [exact Hu'|]. split; [exact Hn|]. split; [exact Hids|].
    rewrite Hids. apply ids_from_NoDup.
  - intros W. rewrite W in Hok. rewrite <- Hlen.
    apply settled_all_returned; assumption.
Qed.

Lemma overlapping_appends_witness :
  let ana := mkParams (lit "Ana") (lit "ana@x.com") (lit "1 Rd") (lit "555") in
  let bo := mkParams (lit "Bo") (lit "bo@x.com") (lit "2 Rd") (lit "555") in
  let s0 := mkState (Some (lit "[]")) true None in
  let c := run [0; 1; 0; 1; 1; 0; 0; 1] (calls [ana; bo], s0) in
  NoDup (assigned (fst c))
  /\ List.length (assigned (fst c)) = 2
  /\ users_of (snd c) = Some (VArr [user_record (Int 1) ana; user_record (Int 2) bo]).
Proof.
  intros ana bo s0 c.
  destruct (proj2 overlapping_appends [ana; bo] s0 [] (fst c) (snd c)) as [H1 [_ H3]].
  - vm_compute; reflexivity.
  - rewrite <- surjective_pairing. apply run_steps.
  - vm_compute; reflexivity.
  - split; [exact H1|]. split; [apply H3; reflexivity | vm_compute; reflexivity].
Defined.

(** ** Fence stripping and parsing *)


Lemma cons_result_Some (u : code_unit) (res : option (jstring * jstring)) str rest :
  cons_result u res = Some (str, rest) ->
  exists str', res = Some (str', rest) /\ str = u :: str'.
Proof.
  destruct res as [[str' rest']|]; [|discriminate].
  cbn. intros H. injection H as <- <-. eauto.
Qed.

Lemma parse_string_prefix (s : jstring) :
  forall st str r,
    parse_string st s = Some (str, r) ->
    exists c, s = c ++ r /\ ends_with QUOTE c
              /\ forall r', parse_string st (c ++ r') = Some (str, r').
Proof.
  induction s as [|x s IH]; intros st str r H; [discriminate H|].
  assert (Hrec : forall st' u str',
             parse_string st' s = Some (str', r) ->
             (forall t, parse_string st (x :: t) = cons_result u (parse_string st' t)) ->
             str = u :: str' ->
             exists c, x :: s = c ++ r /\ ends_with QUOTE c
                       /\ forall r', parse_string st (c ++ r') = Some (str, r')).
  { intros st' u str' H' Hstep ->.
    destruct (IH st' str' r H') as [c [-> [[c0 ->] Hc]]].
    exists (x :: c0 ++ [QUOTE]). split; [reflexivity|].
    split; [exists (x :: c0); reflexivity|].
    intros r'. cbn [app]. rewrite Hstep.
    change (c0 ++ [QUOTE]) with (c0 ++ [QUOTE]) in Hc.
    rewrite Hc. reflexivity. }
  assert (Hskip : forall st',
             parse_string st' s = Some (str, r) ->
             (forall t, parse_string st (x :: t) = parse_string st' t) ->
             exists c, x :: s = c ++ r /\ ends_with QUOTE c
                       /\ forall r', parse_string st (c ++ r') = Some (str, r')).
  { intros st' H' Hstep.
    destruct (IH st' str r H') as [c [-> [[c0 ->] Hc]]].
    exists (x :: c0 ++ [QUOTE]). split; [reflexivity|].
    split; [exists (x :: c0); reflexivity|].
    intros r'. cbn [app]. rewrite Hstep. apply Hc. }
  destruct st as [| |more acc]; cbn [parse_string] in H.
  - destruct (x =? QUOTE)%N eqn:Eq.
    + injection H as <- <-. apply N.eqb_eq in Eq. subst x.
      exists [QUOTE]. split; [reflexivity|]. split; [exists []; reflexivity|].
      intros r'. reflexivity.
    + destruct (x <? 32)%N eqn:Ectl; [discriminate H|].
      destruct (x =? BACKSLASH)%N eqn:Ebs.
      * apply (Hskip Escape H). intros t. cbn [parse_string].
        rewrite Eq, Ectl, Ebs. reflexivity.
      * apply cons_result_Some in H. destruct H as [str' [H ->]].
        apply (Hrec Plain x str' H); [|reflexivity].
        intros t. cbn [parse_string]. rewrite Eq, Ectl, Ebs. reflexivity.
  - destruct (is_ch "u" x) eqn:Eu.
    + apply (Hskip (Hex 3 0) H). intros t. cbn [parse_string]. rewrite Eu. reflexivity.
    + destruct (escape_char x) as [u|] eqn:Ee; [|discriminate H].
      apply cons_result_Some in H. destruct H as [str' [H ->]].
      apply (Hrec Plain u str' H); [|reflexivity].
      intros t. cbn [parse_string]. rewrite Eu, Ee. reflexivity.
  - destruct (digit_in 16 x) as [d|] eqn:Ed; [|discriminate H].
    destruct more as [|more'].
    + apply cons_result_Some in H. destruct H as [str' [H ->]].
      apply (Hrec Plain (Z.to_N (acc * 16 + d)) str' H); [|reflexivity].
      intros t. cbn [parse_string]. rewrite Ed. reflexivity.
    + apply (Hskip _ H). intros t. cbn [parse_string]. rewrite Ed. reflexivity.
Qed.

Lemma skip_ws_split (s : jstring) :
  exists w, s = w ++ skip_ws s /\ Forall (fun c => is_json_ws c = true) w.
Proof.
  induction s as [|c s [w [Hs Hw]]]; [exists []; split; [reflexivity | constructor]|].
  cbn [skip_ws]. destruct (is_json_ws c) eqn:E.
  - exists (c :: w). split; [cbn; f_equal; exact Hs | constructor; assumption].
  - exists []. split; [reflexivity | constructor].
Qed.

Lemma skip_ws_app (w x : jstring) :
  Forall (fun c => is_json_ws c = true) w -> skip_ws (w ++ x) = skip_ws x.
Proof.
  induction 1 as [|c w Hc _ IH]; [reflexivity|].
  cbn [app skip_ws]. rewrite Hc. exact IH.
Qed.

Lemma skip_ws_stop (c : code_unit) (x : jstring) :
  is_json_ws c = false -> skip_ws (c :: x) = c :: x.
Proof. intros H. cbn [skip_ws]. rewrite H. reflexivity. Qed.

(** After white space [w] the next code unit [c] is where [skip_ws] stops. *)
Lemma skip_ws_found (s : jstring) (c : code_unit) (x : jstring) :
  skip_ws s = c :: x ->
  is_json_ws c = false
  /\ exists w, s = w ++ c :: x /\ forall y, skip_ws (w ++ c :: y) = c :: y.
Proof.
  intros H. destruct (skip_ws_split s) as [w [Hs Hw]]. rewrite H in Hs.
  assert (Hc : is_json_ws c = false).
  { clear Hs. induction s as [|d s IH]; [discriminate H|].
    cbn [skip_ws] in H. destruct (is_json_ws d) eqn:E; [exact (IH H)|].
    injection H as -> _. exact E. }
  split; [exact Hc|]. exists w. split; [exact Hs|].
  intros y. rewrite skip_ws_app by exact Hw. apply skip_ws_stop. exact Hc.
Qed.

Lemma json_ws_is_white_space (c : code_unit) :
  is_json_ws c = true -> is_white_space c = true.
Proof.
  unfold is_json_ws, is_white_space. intros H.
  repeat (apply orb_prop in H; destruct H as [H|H]);
    apply N.eqb_eq in H; subst c; reflexivity.
Qed.

(** *** Numbers *)

Lemma digit_in_10 (c : code_unit) :
  (exists d, digit_in 10 c = Some d) <-> is_digit c = true.
Proof.
  assert (HZ : is_digit c = ((48 <=? Z.of_N c) && (Z.of_N c <=? 57))%Z).
  { unfold is_digit.
    destruct (N.leb_spec 48 c); destruct (N.leb_spec c 57);
      destruct (Z.leb_spec 48 (Z.of_N c)); destruct (Z.leb_spec (Z.of_N c) 57);
      cbn [andb]; try reflexivity; lia. }
  rewrite HZ. unfold digit_in. generalize (Z.of_N c) as v. intros v.
  repeat match goal with
         | |- context [(?a <=? ?b)%Z] => destruct (Z.leb_spec a b); cbn [andb]
         | |- context [(?a <? ?b)%Z] => destruct (Z.ltb_spec a b)
         end;
    (split; [intros [d Hd]; try discriminate Hd; try reflexivity; lia
            | intros Hx; try discriminate Hx; eauto; lia]).
Qed.


Lemma printable_not_white_space (c : code_unit) :
  (33 <= c <= 126)%N -> is_white_space c = false.
Proof.
  intros H. unfold is_white_space.
  replace (c <=? 13)%N with false by (symmetry; apply N.leb_gt; lia).
  replace (8192 <=? c)%N with false by (symmetry; apply N.leb_gt; lia).
  repeat match goal with
         | |- context [(c =? ?k)%N] =>
             replace (c =? k)%N with false by (symmetry; apply N.eqb_neq; lia)
         end.
  rewrite andb_false_r. reflexivity.
Qed.

Lemma digit_not_white_space (c : code_unit) : is_digit c = true -> is_white_space c = false.
Proof.
  unfold is_digit. intros H. apply andb_prop in H. destruct H as [H1 H2].
  apply N.leb_le in H1, H2. apply printable_not_white_space. lia.
Qed.

Lemma same_head_no_digit (r r' : jstring) :
  same_head r r' -> no_digit_head r -> no_digit_head r'.
Proof.
  intros [->|H] Hr; [exact I|].
  destruct r' as [|x t']; [exact I|]. destruct r as [|y t]; [discriminate H|].
  cbn in H. injection H as ->. exact Hr.
Qed.

Lemma same_head_app (c r r' : jstring) :
  c <> [] \/ same_head r r' -> same_head (c ++ r) (c ++ r').
Proof.
  destruct c as [|x c]; intros [H|H]; try contradiction; try exact H;
    right; reflexivity.
Qed.

Lemma read_digits_prefix (s : jstring) :
  forall acc cnt v n r,
    read_digits 10 s acc cnt = (v, n, r) ->
    exists ds,
      s = ds ++ r /\ no_digit_head r /\ n = (cnt + Z.of_nat (List.length ds))%Z
      /\ Forall (fun c => is_digit c = true) ds
      /\ forall r', no_digit_head r' -> read_digits 10 (ds ++ r') acc cnt = (v, n, r').
Proof.
  induction s as [|x s IH]; intros acc cnt v n r H; cbn [read_digits] in H.
  - injection H as <- <- <-. exists []. repeat split; try constructor; try (cbn; lia).
    intros r' Hr'. destruct r' as [|y t]; [reflexivity|].
    cbn [app read_digits]. cbn in Hr'. rewrite Hr'. reflexivity.
  - destruct (digit_in 10 x) as [d|] eqn:Ed.
    + destruct (IH _ _ _ _ _ H) as [ds [-> [Hr [Hn [Hds Hrun]]]]].
      exists (x :: ds). split; [reflexivity|]. split; [exact Hr|].
      split; [cbn [List.length]; lia|].
      split; [constructor; [apply digit_in_10; eauto | exact Hds]|].
      intros r' Hr'. cbn [app read_digits]. rewrite Ed. apply Hrun. exact Hr'.
    + injection H as <- <- <-. exists []. split; [reflexivity|].
      split; [exact Ed|]. split; [cbn; lia|]. split; [constructor|].
      intros r' Hr'. destruct r' as [|y t]; [reflexivity|].
      cbn [app read_digits]. cbn in Hr'. rewrite Hr'. reflexivity.
Qed.

Lemma digits_end_in_digit (ds : jstring) :
  ds <> [] -> Forall (fun c => is_digit c = true) ds -> ends_in_digit ds.
Proof.
  intros Hne Hds. destruct (exists_last Hne) as [t [z ->]].
  exists t, z. split; [reflexivity|].
  apply Forall_app in Hds. destruct Hds as [_ Hz]. inversion Hz; assumption.
Qed.

Lemma ends_in_digit_app (a c : jstring) : ends_in_digit c -> ends_in_digit (a ++ c).
Proof. intros [t [z [-> Hz]]]. exists (a ++ t), z. rewrite app_assoc. auto. Qed.

Lemma int_part_prefix (s : jstring) (ip : Z) (r : jstring) :
  int_part s = Some (ip, r) ->
  exists c,
    s = c ++ r /\ (exists a t, c = a :: t /\ is_digit a = true) /\ ends_in_digit c
    /\ forall r', same_head r r' -> int_part (c ++ r') = Some (ip, r').
Proof.
  unfold int_part. destruct s as [|x s]; [discriminate|].
  destruct (is_ch "0" x) eqn:E0.
  - intros H. injection H as <- <-. unfold is_ch in E0. apply N.eqb_eq in E0. subst x.
    exists [ch "0"]. split; [reflexivity|].
    split; [exists (ch "0"), []; split; reflexivity|].
    split; [exists [], (ch "0"); split; reflexivity|].
    intros r' _. reflexivity.
  - destruct (is_digit x) eqn:Ed; [|discriminate].
    destruct (read_digits 10 (x :: s) 0 0) as [[v n] r1] eqn:Er.
    intros H. injection H as <- <-.
    destruct (read_digits_prefix _ _ _ _ _ _ Er) as [ds [Hs [Hr [Hn [Hds Hrun]]]]].
    destruct ds as [|y ds].
    { exfalso. cbn [app] in Hs. subst r1. cbn in Hr.
      destruct (proj2 (digit_in_10 x) Ed) as [d Hd]. congruence. }
    cbn [app] in Hs. injection Hs as <- ->.
    exists (x :: ds). split; [reflexivity|].
    split; [exists x, ds; auto|].
    split; [apply digits_end_in_digit; [discriminate | exact Hds]|].
    intros r' Hr'. cbn [app]. rewrite E0, Ed.
    change (x :: ds ++ r') with ((x :: ds) ++ r').
    rewrite Hrun; [reflexivity|]. eapply same_head_no_digit; eauto.
Qed.

Lemma same_head_nil (r' : jstring) : same_head [] r' -> r' = [].
Proof. intros [H|H]; [exact H|]. destruct r'; [reflexivity | discriminate H]. Qed.

Lemma same_head_cons (x : code_unit) (t r' : jstring) :
  same_head (x :: t) r' -> r' = [] \/ exists t', r' = x :: t'.
Proof.
  intros [H|H]; [left; exact H|]. destruct r' as [|y t']; [left; reflexivity|].
  cbn in H. injection H as ->. right. eauto.
Qed.

Lemma frac_part_prefix (ip : Z) (s : jstring) (m n : Z) (r : jstring) :
  frac_part ip s = Some (m, n, r) ->
  exists c,
    s = c ++ r /\ (c = [] \/ ends_in_digit c)
    /\ forall r', same_head r r' -> frac_part ip (c ++ r') = Some (m, n, r').
Proof.
  unfold frac_part. destruct s as [|d s].
  - intros H. injection H as <- <- <-. exists []. split; [reflexivity|].
    split; [left; reflexivity|]. intros r' Hr'. apply same_head_nil in Hr'.
    subst r'. reflexivity.
  - destruct (is_ch "." d) eqn:E.
    + destruct (read_digits 10 s ip 0) as [[m' n'] r2] eqn:Er.
      destruct (0 <? n')%Z eqn:En; [|discriminate].
      intros H. injection H as <- <- <-.
      destruct (read_digits_prefix _ _ _ _ _ _ Er) as [ds [-> [Hr [Hn [Hds Hrun]]]]].
      exists (d :: ds). split; [reflexivity|]. split.
      * right. apply (ends_in_digit_app [d]). apply digits_end_in_digit; [|exact Hds].
        intros ->. cbn in Hn. apply Z.ltb_lt in En. lia.
      * intros r' Hr'. cbn [app]. rewrite E, Hrun, En; [reflexivity|].
        eapply same_head_no_digit; eauto.
    + intros H. injection H as <- <- <-. exists []. split; [reflexivity|].
      split; [left; reflexivity|]. intros r' Hr'. cbn [app].
      apply same_head_cons in Hr'. destruct Hr' as [->|[t' ->]]; [reflexivity|].
      rewrite E. reflexivity.
Qed.

Lemma exp_part_prefix (s : jstring) (x : Z) (r : jstring) :
  exp_part s = Some (x, r) ->
  exists c,
    s = c ++ r /\ (c = [] \/ ends_in_digit c)
    /\ forall r', same_head r r' -> exp_part (c ++ r') = Some (x, r').
Proof.
  unfold exp_part. destruct s as [|e s].
  - intros H. injection H as <- <-. exists []. split; [reflexivity|].
    split; [left; reflexivity|]. intros r' Hr'. apply same_head_nil in Hr'.
    subst r'. reflexivity.
  - destruct (is_ch "e" e || is_ch "E" e) eqn:E.
    + destruct (read_digits 10 (snd (read_sign s)) 0 0) as [[x' n'] r2] eqn:Er.
      destruct (0 <? n')%Z eqn:En; [|discriminate].
      intros H. injection H as <- <-.
      destruct (read_digits_prefix _ _ _ _ _ _ Er) as [ds [Hs [Hr [Hn [Hds Hrun]]]]].
      assert (Hne : ds <> []).
      { intros ->. cbn in Hn. apply Z.ltb_lt in En. lia. }
      assert (Hsign : exists sg,
                 s = sg ++ ds ++ r2
                 /\ forall r', read_sign (sg ++ ds ++ r') = (fst (read_sign s), ds ++ r')).
      { destruct s as [|y s]; [cbn in Hs; destruct ds; [contradiction | discriminate Hs]|].
        unfold read_sign in *.
        destruct (N.eqb y (ch "-")) eqn:Em.
        - cbn [snd fst] in *. exists [y]. split; [cbn; f_equal; exact Hs|].
          intros r'. cbn [app]. rewrite Em. reflexivity.
        - destruct (N.eqb y (ch "+")) eqn:Ep.
          + cbn [snd fst] in *. exists [y]. split; [cbn; f_equal; exact Hs|].
            intros r'. cbn [app]. rewrite Em, Ep. reflexivity.
          + cbn [snd fst] in *. exists []. split; [exact Hs|].
            intros r'. cbn [app]. destruct ds as [|z ds]; [contradiction|].
            cbn [app] in Hs. injection Hs as <- _.
            cbn [app]. rewrite Em, Ep. reflexivity. }
      destruct Hsign as [sg [-> Hsg]].
      exists (e :: sg ++ ds). split; [cbn; rewrite <- app_assoc; reflexivity|]. split.
      * right. apply (ends_in_digit_app (e :: sg)). apply digits_end_in_digit; assumption.
      * intros r' Hr'. cbn [app]. rewrite E. rewrite <- app_assoc.
        rewrite Hsg. cbn [snd fst]. rewrite Hrun, En; [reflexivity|].
        eapply same_head_no_digit; eauto.
    + intros H. injection H as <- <-. exists []. split; [reflexivity|].
      split; [left; reflexivity|]. intros r' Hr'. cbn [app].
      apply same_head_cons in Hr'. destruct Hr' as [->|[t' ->]]; [reflexivity|].
      rewrite E. reflexivity.
Qed.

Lemma unsigned_number_prefix (neg : bool) (s : jstring) (v : value) (r : jstring) :
  unsigned_number neg s = Some (v, r) ->
  exists c,
    s = c ++ r /\ (exists a t, c = a :: t /\ is_digit a = true) /\ ends_in_digit c
    /\ forall r', same_head r r' -> unsigned_number neg (c ++ r') = Some (v, r').
Proof.
  unfold unsigned_number.
  destruct (int_part s) as [[ip r1]|] eqn:E1; [|discriminate].
  destruct (frac_part ip r1) as [[[m n] r2]|] eqn:E2; [|discriminate].
  destruct (exp_part r2) as [[x r3]|] eqn:E3; [|discriminate].
  intros H. injection H as <- <-.
  destruct (int_part_prefix _ _ _ E1) as [c1 [-> [[a [t [-> Ha]]] [Hend1 H1]]]].
  destruct (frac_part_prefix _ _ _ _ _ E2) as [c2 [-> [Hend2 H2]]].
  destruct (exp_part_prefix _ _ _ E3) as [c3 [-> [Hend3 H3]]].
  exists ((a :: t) ++ c2 ++ c3). split; [rewrite <- !app_assoc; reflexivity|].
  split; [exists a, (t ++ c2 ++ c3); split; [reflexivity | exact Ha]|].
  split.
  - destruct Hend3 as [->|Hend3].
    + rewrite app_nil_r. destruct Hend2 as [->|Hend2].
      * rewrite app_nil_r. exact Hend1.
      * apply ends_in_digit_app. exact Hend2.
    + rewrite app_assoc. apply ends_in_digit_app. exact Hend3.
  - intros r' Hr'. rewrite <- !app_assoc.
    rewrite H1; [|apply same_head_app; right; apply same_head_app; right; exact Hr'].
    rewrite H2; [|apply same_head_app; right; exact Hr'].
    rewrite H3; [reflexivity | exact Hr'].
Qed.

Lemma delimited_cons (a z : code_unit) (m : jstring) :
  is_white_space a = false -> is_white_space z = false -> delimited (a :: m ++ [z]).
Proof.
  intros Ha Hz. split; [exists a, (m ++ [z]); auto | exists (a :: m), z; auto].
Qed.

Lemma parse_number_prefix (s : jstring) (v : value) (r : jstring) :
  parse_number s = Some (v, r) ->
  exists c,
    s = c ++ r /\ delimited c
    /\ forall r', same_head r r' -> parse_number (c ++ r') = Some (v, r').
Proof.
  unfold parse_number. destruct s as [|x s]; [discriminate|].
  destruct (is_ch "-" x) eqn:Em; intros H;
    destruct (unsigned_number_prefix _ _ _ _ H)
    as [c [Hs [[a [t [-> Ha]]] [[t' [z [Hc Hz]]] Hrun]]]].
  - subst s. exists (x :: a :: t). split; [reflexivity|]. split.
    + split.
      * exists x, (a :: t). split; [reflexivity|].
        unfold is_ch in Em. apply N.eqb_eq in Em. subst x. reflexivity.
      * exists (x :: t'), z. cbn [app]. rewrite <- Hc. auto using digit_not_white_space.
    + intros r' Hr'. cbn [app]. rewrite Em. apply (Hrun r' Hr').
  - cbn [app] in Hs. injection Hs as -> ->.
    exists (a :: t). split; [reflexivity|]. split.
    + split.
      * exists a, t. auto using digit_not_white_space.
      * exists t', z. auto using digit_not_white_space.
    + intros r' Hr'. cbn [app]. rewrite Em. apply (Hrun r' Hr').
Qed.

(** *** Values *)

Lemma strip_prefix_Some (p s r : jstring) : strip_prefix p s = Some r -> s = p ++ r.
Proof.
  revert s. induction p as [|x p IH]; intros s H; cbn [strip_prefix] in H.
  - injection H as ->. reflexivity.
  - destruct s as [|y s]; [discriminate|].
    destruct (N.eqb_spec x y); [|discriminate]. subst y.
    cbn [app]. f_equal. apply IH. exact H.
Qed.

Lemma strip_prefix_app (p r : jstring) : strip_prefix p (p ++ r) = Some r.
Proof.
  induction p as [|x p IH]; [reflexivity|].
  cbn [app strip_prefix]. rewrite N.eqb_refl. exact IH.
Qed.

Lemma parse_literal_prefix (s : jstring) (v : value) (r : jstring) :
  parse_literal s = Some (v, r) ->
  exists c,
    s = c ++ r /\ delimited c /\ forall r', parse_literal (c ++ r') = Some (v, r').
Proof.
  unfold parse_literal.
  destruct (strip_prefix (lit "true") s) as [r1|] eqn:E1.
  { intros H. injection H as <- <-. apply strip_prefix_Some in E1.
    exists (lit "true"). split; [exact E1|].
    split; [split; [exists (ch "t"), (lit "rue") | exists (lit "tru"), (ch "e")];
            split; reflexivity|].
    intros r'. reflexivity. }
  destruct (strip_prefix (lit "false") s) as [r2|] eqn:E2.
  { intros H. injection H as <- <-. apply strip_prefix_Some in E2.
    exists (lit "false"). split; [exact E2|].
    split; [split; [exists (ch "f"), (lit "alse") | exists (lit "fals"), (ch "e")];
            split; reflexivity|].
    intros r'. reflexivity. }
  destruct (strip_prefix (lit "null") s) as [r3|] eqn:E3; [|discriminate].
  intros H. injection H as <- <-. apply strip_prefix_Some in E3.
  exists (lit "null"). split; [exact E3|].
  split; [split; [exists (ch "n"), (lit "ull") | exists (lit "nul"), (ch "l")];
          split; reflexivity|].
  intros r'. reflexivity.
Qed.

Lemma parse_value_S (f : nat) (s : jstring) :
  parse_value (S f) s =
    match s with
    | [] => None
    | c :: r =>
        if is_ch "[" c then
          match skip_ws r with
          | d :: r' => if is_ch "]" d then Some (VArr [], r')
                       else parse_elements f [] (d :: r')
          | [] => None
          end
        else if is_ch "{" c then
          match skip_ws r with
          | d :: r' => if is_ch "}" d then Some (VObj [], r')
                       else parse_members f [] (d :: r')
          | [] => None
          end
        else if (c =? QUOTE)%N then
          match parse_string Plain r with
          | Some (str, r') => Some (VStr str, r')
          | None => None
          end
        else if is_digit c || is_ch "-" c then parse_number s
        else parse_literal s
    end.
Proof. reflexivity. Qed.

Lemma parse_elements_S (f : nat) (acc : list value) (s : jstring) :
  parse_elements (S f) acc s =
    match parse_value f s with
    | Some (v, r) =>
        match skip_ws r with
        | c :: r' =>
            if is_ch "," c then parse_elements f (v :: acc) (skip_ws r')
            else if is_ch "]" c then Some (VArr (rev (v :: acc)), r')
            else None
        | [] => None
        end
    | None => None
    end.
Proof. reflexivity. Qed.

Lemma parse_members_S (f : nat) (acc : props) (s : jstring) :
  parse_members (S f) acc s =
    match s with
    | q :: s1 =>
        if (q =? QUOTE)%N then
          match parse_string Plain s1 with
          | Some (k, r0) =>
              match skip_ws r0 with
              | c0 :: r1 =>
                  if is_ch ":" c0 then
                    match parse_value f (skip_ws r1) with
                    | Some (v, r) =>
                        match skip_ws r with
                        | c :: r' =>
                            if is_ch "," c
                            then parse_members f (define_prop k v acc) (skip_ws r')
                            else if is_ch "}" c
                            then Some (VObj (define_prop k v acc), r')
                            else None
                        | [] => None
                        end
                    | None => None
                    end
                  else None
              | [] => None
              end
          | None => None
          end
        else None
    | [] => None
    end.
Proof. reflexivity. Qed.

Lemma is_ch_eq (a : ascii) (c : code_unit) : is_ch a c = true -> c = ch a.
Proof. unfold is_ch. apply N.eqb_eq. Qed.

Lemma ends_with_cons (x : code_unit) (c : jstring) :
  ends_with x c -> exists y t, c = y :: t.
Proof. intros [[|y c0] ->]; cbn; eauto. Qed.

Lemma not_white_space_not_json_ws (c : code_unit) :
  is_white_space c = false -> is_json_ws c = false.
Proof.
  intros H. destruct (is_json_ws c) eqn:E; [|reflexivity].
  apply json_ws_is_white_space in E. congruence.
Qed.

Lemma value_step (f : nat) :
  elements_prefix_ok f -> members_prefix_ok f -> value_prefix_ok (S f).
Proof.
  intros IHe IHm s v r H. rewrite parse_value_S in H.
  destruct s as [|x s]; [discriminate H|].
  destruct (is_ch "[" x) eqn:Ea.
  { apply is_ch_eq in Ea. subst x.
    destruct (skip_ws s) as [|d r1] eqn:Ew; [discriminate H|].
    destruct (skip_ws_found _ _ _ Ew) as [Hd [w [-> Hskip]]].
    destruct (is_ch "]" d) eqn:Ec.
    - injection H as <- <-. apply is_ch_eq in Ec. subst d.
      exists (ch "[" :: w ++ [ch "]"]). split; [cbn; rewrite <- app_assoc; reflexivity|].
      split; [apply delimited_cons; reflexivity|].
      intros f' r' Hf _. destruct f' as [|f']; [lia|].
      rewrite parse_value_S. cbn [app]. rewrite <- app_assoc. cbn [app].
      change (is_ch "[" (ch "[")) with true. cbn match.
      rewrite Hskip. reflexivity.
    - destruct (IHe _ _ _ _ H) as [ce [Hs [Hend He]]].
      destruct (ends_with_cons _ _ Hend) as [y [t ->]].
      cbn [app] in Hs. injection Hs as <- ->.
      exists (ch "[" :: w ++ d :: t). split; [cbn; rewrite <- app_assoc; reflexivity|].
      split.
      { destruct Hend as [c0 Hc0]. rewrite Hc0.
        rewrite app_assoc. apply delimited_cons; reflexivity. }
      intros f' r' Hf _. destruct f' as [|f']; [lia|].
      rewrite parse_value_S. cbn [app]. rewrite <- app_assoc. cbn [app].
      change (is_ch "[" (ch "[")) with true. cbn match.
      rewrite Hskip, Ec. apply (He f' r').
      cbn [List.length] in Hf. rewrite length_app in Hf. cbn [List.length] in *. lia. }
  destruct (is_ch "{" x) eqn:Eo.
  { apply is_ch_eq in Eo. subst x.
    destruct (skip_ws s) as [|d r1] eqn:Ew; [discriminate H|].
    destruct (skip_ws_found _ _ _ Ew) as [Hd [w [-> Hskip]]].
    destruct (is_ch "}" d) eqn:Ec.
    - injection H as <- <-. apply is_ch_eq in Ec. subst d.
      exists (ch "{" :: w ++ [ch "}"]). split; [cbn; rewrite <- app_assoc; reflexivity|].
      split; [apply delimited_cons; reflexivity|].
      intros f' r' Hf _. destruct f' as [|f']; [lia|].
      rewrite parse_value_S. cbn [app]. rewrite <- app_assoc. cbn [app].
      change (is_ch "[" (ch "{")) with false. change (is_ch "{" (ch "{")) with true.
      cbn match. rewrite Hskip. reflexivity.
    - destruct (IHm _ _ _ _ H) as [ce [Hs [Hend He]]].
      destruct (ends_with_cons _ _ Hend) as [y [t ->]].
      cbn [app] in Hs. injection Hs as <- ->.
      exists (ch "{" :: w ++ d :: t). split; [cbn; rewrite <- app_assoc; reflexivity|].
      split.
      { destruct Hend as [c0 Hc0]. rewrite Hc0.
        rewrite app_assoc. apply delimited_cons; reflexivity. }
      intros f' r' Hf _. destruct f' as [|f']; [lia|].
      rewrite parse_value_S. cbn [app]. rewrite <- app_assoc. cbn [app].
      change (is_ch "[" (ch "{")) with false. change (is_ch "{" (ch "{")) with true.
      cbn match. rewrite Hskip, Ec. apply (He f' r').
      cbn [List.length] in Hf. rewrite length_app in Hf. cbn [List.length] in *. lia. }
  destruct (x =? QUOTE)%N eqn:Eq.
  { destruct (parse_string Plain s) as [[str r1]|] eqn:Es; [|discriminate H].
    injection H as <- <-. apply N.eqb_eq in Eq. subst x.
    destruct (parse_string_prefix _ _ _ _ Es) as [c [-> [[c0 ->] Hc]]].
    exists (QUOTE :: c0 ++ [QUOTE]). split; [reflexivity|].
    split; [apply delimited_cons; reflexivity|].
    intros f' r' Hf _. destruct f' as [|f']; [lia|].
    rewrite parse_value_S. cbn [app].
    change (is_ch "[" QUOTE) with false. change (is_ch "{" QUOTE) with false.
    change (QUOTE =? QUOTE)%N with true. cbn match.
    rewrite Hc. reflexivity. }
  destruct (is_digit x || is_ch "-" x) eqn:En.
  { destruct (parse_number_prefix _ _ _ H) as [c [Hs [Hdel Hc]]].
    exists c. split; [exact Hs|]. split; [exact Hdel|].
    intros f' r' Hf Hr'. destruct f' as [|f']; [lia|].
    rewrite parse_value_S.
    destruct Hdel as [[a [t [-> _]]] _]. cbn [app] in *. injection Hs as <- _.
    rewrite Ea, Eo, Eq, En. apply Hc. exact Hr'. }
  destruct (parse_literal_prefix _ _ _ H) as [c [Hs [Hdel Hc]]].
  exists c. split; [exact Hs|]. split; [exact Hdel|].
  intros f' r' Hf Hr'. destruct f' as [|f']; [lia|].
  rewrite parse_value_S.
  destruct Hdel as [[a [t [-> _]]] _]. cbn [app] in *. injection Hs as <- _.
  rewrite Ea, Eo, Eq, En. apply Hc.
Qed.

Lemma same_head_after (w : jstring) (d : code_unit) (x y : jstring) :
  same_head (w ++ d :: x) (w ++ d :: y).
Proof. right. destruct w; reflexivity. Qed.

Lemma delimited_starts (c x : jstring) :
  delimited c -> skip_ws (c ++ x) = c ++ x.
Proof.
  intros [[a [t [-> Ha]]] _]. cbn [app]. apply skip_ws_stop.
  apply not_white_space_not_json_ws. exact Ha.
Qed.

(** What [skip_ws] leaves starts where the next token starts. *)
Lemma skip_ws_token (s c r : jstring) :
  skip_ws s = c ++ r -> c <> [] ->
  exists w, s = w ++ c ++ r /\ forall x, skip_ws (w ++ c ++ x) = c ++ x.
Proof.
  intros H Hne. destruct c as [|y c]; [contradiction|]. cbn [app] in *.
  destruct (skip_ws_found _ _ _ H) as [_ [w [-> Hw]]].
  exists w. split; [reflexivity | intros x; apply Hw].
Qed.

Lemma ends_with_nonempty (x : code_unit) (c : jstring) : ends_with x c -> c <> [].
Proof. intros [c0 ->] H. destruct c0; discriminate H. Qed.

Lemma ends_with_app (x : code_unit) (a c : jstring) : ends_with x c -> ends_with x (a ++ c).
Proof. intros [c0 ->]. exists (a ++ c0). rewrite app_assoc. reflexivity. Qed.

Lemma elements_step (f : nat) :
  value_prefix_ok f -> elements_prefix_ok f -> elements_prefix_ok (S f).
Proof.
  intros IHv IHe acc s v r H. rewrite parse_elements_S in H.
  destruct (parse_value f s) as [[v1 r1]|] eqn:Ev; [|discriminate H].
  destruct (IHv _ _ _ Ev) as [cv [-> [Hdel Hv]]].
  destruct (skip_ws r1) as [|d r2] eqn:Ew; [discriminate H|].
  destruct (skip_ws_found _ _ _ Ew) as [Hd [w [-> Hskip]]].
  destruct (is_ch "," d) eqn:Ec.
  - destruct (IHe _ _ _ _ H) as [ce [Hs [Hend He]]].
    destruct (skip_ws_token r2 ce r Hs (ends_with_nonempty _ _ Hend)) as [w2 [-> Hsk2]].
    exists (cv ++ w ++ d :: w2 ++ ce).
    split; [repeat (rewrite <- app_assoc; cbn [app]); reflexivity|].
    split; [rewrite app_assoc, (app_comm_cons _ _ d), app_assoc;
            apply ends_with_app; exact Hend|].
    intros f' r' Hf. destruct f' as [|f']; [lia|].
    rewrite parse_elements_S.
    repeat (rewrite <- app_assoc; cbn [app]).
    rewrite !length_app in Hf. cbn [List.length] in Hf. rewrite !length_app in Hf.
    rewrite (Hv f' (w ++ d :: w2 ++ ce ++ r')); [|lia|apply same_head_after].
    rewrite Hskip, Ec, Hsk2. apply He. lia.
  - destruct (is_ch "]" d) eqn:Eb; [|discriminate H].
    injection H as <- <-. apply is_ch_eq in Eb. subst d.
    exists (cv ++ w ++ [ch "]"]).
    split; [repeat (rewrite <- app_assoc; cbn [app]); reflexivity|].
    split; [exists (cv ++ w); rewrite app_assoc; reflexivity|].
    intros f' r' Hf. destruct f' as [|f']; [lia|].
    rewrite parse_elements_S.
    repeat (rewrite <- app_assoc; cbn [app]).
    rewrite !length_app in Hf. cbn [List.length] in Hf.
    rewrite (Hv f' (w ++ ch "]" :: r')); [|lia|apply same_head_after].
    rewrite Hskip. reflexivity.
Qed.

Lemma members_step (f : nat) :
  value_prefix_ok f -> members_prefix_ok f -> members_prefix_ok (S f).
Proof.
  intros IHv IHm acc s v r H. rewrite parse_members_S in H.
  destruct s as [|q s1]; [discriminate H|].
  destruct (q =? QUOTE)%N eqn:Eq; [|discriminate H].
  destruct (parse_string Plain s1) as [[k r0]|] eqn:Ek; [|discriminate H].
  destruct (parse_string_prefix _ _ _ _ Ek) as [ck [-> [_ Hk]]].
  destruct (skip_ws r0) as [|c0 r1] eqn:Ew0; [discriminate H|].
  destruct (skip_ws_found _ _ _ Ew0) as [_ [w0 [-> Hskip0]]].
  destruct (is_ch ":" c0) eqn:Ecolon; [|discriminate H].
  destruct (parse_value f (skip_ws r1)) as [[v1 rv]|] eqn:Ev; [|discriminate H].
  destruct (IHv _ _ _ Ev) as [cv [Hsv [Hdel Hv]]].
  assert (Hcv : cv <> []).
  { destruct Hdel as [[a [t [-> _]]] _]. discriminate. }
  destruct (skip_ws_token r1 cv rv Hsv Hcv) as [w1 [-> Hsk1]].
  destruct (skip_ws rv) as [|d r2] eqn:Ew; [discriminate H|].
  destruct (skip_ws_found _ _ _ Ew) as [_ [w [-> Hskip]]].
  destruct (is_ch "," d) eqn:Ec.
  - destruct (IHm _ _ _ _ H) as [cm [Hs [Hend Hm]]].
    destruct (skip_ws_token r2 cm r Hs (ends_with_nonempty _ _ Hend)) as [w2 [-> Hsk2]].
    exists (q :: ck ++ w0 ++ c0 :: w1 ++ cv ++ w ++ d :: w2 ++ cm).
    split; [norm_app; reflexivity|].
    split.
    { destruct Hend as [m0 ->].
      exists (q :: ck ++ w0 ++ c0 :: w1 ++ cv ++ w ++ d :: w2 ++ m0).
      norm_app. reflexivity. }
    intros f' r' Hf. destruct f' as [|f']; [lia|].
    rewrite parse_members_S.
    norm_app.
    norm_len Hf.
    rewrite Eq, Hk, Hskip0, Ecolon, Hsk1.
    rewrite (Hv f' (w ++ d :: w2 ++ cm ++ r')); [|lia|apply same_head_after].
    rewrite Hskip, Ec, Hsk2. apply Hm. lia.
  - destruct (is_ch "}" d) eqn:Eb; [|discriminate H].
    injection H as <- <-.
    exists (q :: ck ++ w0 ++ c0 :: w1 ++ cv ++ w ++ [d]).
    split; [norm_app; reflexivity|].
    split.
    { apply is_ch_eq in Eb. subst d.
      exists (q :: ck ++ w0 ++ c0 :: w1 ++ cv ++ w).
      norm_app. reflexivity. }
    intros f' r' Hf. destruct f' as [|f']; [lia|].
    rewrite parse_members_S.
    norm_app.
    norm_len Hf.
    rewrite Eq, Hk, Hskip0, Ecolon, Hsk1.
    rewrite (Hv f' (w ++ d :: r')); [|lia|apply same_head_after].
    rewrite Hskip, Ec, Eb. reflexivity.
Qed.

Lemma parsers_prefix_ok (f : nat) :
  value_prefix_ok f /\ elements_prefix_ok f /\ members_prefix_ok f.
Proof.
  induction f as [|f [IHv [IHe IHm]]].
  - repeat split; intro; intros; discriminate.
  - split; [apply value_step; assumption|].
    split; [apply elements_step | apply members_step]; assumption.
Qed.

Lemma same_head_refl (r : jstring) : same_head r r.
Proof. right. reflexivity. Qed.

(** More than twice the length of the input is fuel enough: a parse
    that succeeds with some fuel succeeds with that much. *)
Lemma parse_value_fuel (f : nat) (s : jstring) (v : value) (r : jstring) :
  parse_value f s = Some (v, r) ->
  parse_value (S (2 * List.length s)) s = Some (v, r).
Proof.
  intros H. destruct (proj1 (parsers_prefix_ok f) _ _ _ H) as [c [-> [_ Hc]]].
  apply Hc; [|apply same_head_refl]. rewrite length_app. lia.
Qed.

(** *** Trimming *)

Lemma trimStart_app (w x : jstring) :
  Forall (fun c => is_white_space c = true) w -> trimStart (w ++ x) = trimStart x.
Proof.
  induction 1 as [|c w Hc _ IH]; [reflexivity|].
  cbn [app trimStart]. rewrite Hc. exact IH.
Qed.

Lemma trimStart_stop (a : code_unit) (t : jstring) :
  is_white_space a = false -> trimStart (a :: t) = a :: t.
Proof. intros H. cbn [trimStart]. rewrite H. reflexivity. Qed.

Lemma trimEnd_app (x w : jstring) :
  Forall (fun c => is_white_space c = true) w -> trimEnd (x ++ w) = trimEnd x.
Proof.
  intros H. unfold trimEnd. rewrite rev_app_distr, trimStart_app; [reflexivity|].
  apply Forall_rev. exact H.
Qed.

Lemma trimEnd_stop (t : jstring) (z : code_unit) :
  is_white_space z = false -> trimEnd (t ++ [z]) = t ++ [z].
Proof.
  intros H. unfold trimEnd. rewrite rev_app_distr. cbn [rev app].
  rewrite trimStart_stop by exact H.
  change (z :: rev t) with ([z] ++ rev t). rewrite rev_app_distr, rev_involutive.
  reflexivity.
Qed.

Lemma trim_core (w c r : jstring) :
  Forall (fun x => is_white_space x = true) w ->
  Forall (fun x => is_white_space x = true) r ->
  delimited c ->
  trim (w ++ c ++ r) = c.
Proof.
  intros Hw Hr [[a [t [Hc Ha]]] [t' [z [Hc' Hz]]]]. unfold trim.
  rewrite trimStart_app by exact Hw.
  rewrite Hc. cbn [app]. rewrite trimStart_stop by exact Ha.
  change (a :: t ++ r) with ((a :: t) ++ r). rewrite <- Hc.
  rewrite trimEnd_app by exact Hr. rewrite Hc'. apply trimEnd_stop. exact Hz.
Qed.

(** Trimming a text that starts with a visible character keeps it. *)
Lemma trim_keeps_head (b : code_unit) (x : jstring) :
  is_white_space b = false -> exists y, trim (b :: x) = b :: y.
Proof.
  intros Hb. unfold trim. rewrite trimStart_stop by exact Hb.
  unfold trimEnd. cbn [rev].
  assert (H : forall l, exists y, trimStart (l ++ [b]) = y ++ [b]).
  { induction l as [|c l [y IH]]; cbn [app].
    - exists []. apply trimStart_stop. exact Hb.
    - cbn [trimStart]. destruct (is_white_space c); [exists y; exact IH|].
      exists (c :: l). reflexivity. }
  destruct (H (rev x)) as [y Hy]. rewrite Hy, rev_app_distr. cbn [rev app]. eauto.
Qed.

Lemma skip_ws_nil (r : jstring) :
  skip_ws r = [] -> Forall (fun c => is_json_ws c = true) r.
Proof.
  intros H. destruct (skip_ws_split r) as [w [Hs Hw]]. rewrite H, app_nil_r in Hs.
  subst w. exact Hw.
Qed.

Lemma json_ws_all_white_space (w : jstring) :
  Forall (fun c => is_json_ws c = true) w -> Forall (fun c => is_white_space c = true) w.
Proof. apply Forall_impl. exact json_ws_is_white_space. Qed.

(** A text that parses still parses, to the same value, once trimmed. *)
Lemma parse_trim (body : jstring) (v : value) :
  JSON.parse body = Some v -> JSON.parse (trim body) = Some v.
Proof.
  unfold JSON.parse.
  destruct (parse_value (S (2 * List.length body)) (skip_ws body)) as [[v' r]|] eqn:E;
    [|discriminate].
  destruct (skip_ws r) as [|x t] eqn:Er; [|discriminate].
  intros H. injection H as ->.
  destruct (proj1 (parsers_prefix_ok _) _ _ _ E) as [c [Hs [Hdel Hc]]].
  destruct (skip_ws_split body) as [w [Hb Hw]]. rewrite Hs in Hb.
  assert (Ht : trim body = c).
  { rewrite Hb. apply trim_core; [| |exact Hdel];
      apply json_ws_all_white_space; [exact Hw | apply skip_ws_nil; exact Er]. }
  rewrite Ht.
  pose proof (delimited_starts c [] Hdel) as Hsk. rewrite app_nil_r in Hsk. rewrite Hsk.
  specialize (Hc (S (2 * List.length c)) []). rewrite app_nil_r in Hc.
  rewrite Hc; [reflexivity | lia | left; reflexivity].
Qed.

(** *** The two fences *)

Lemma remove_leading_fence (x : jstring) : remove_leading JSON_FENCE (JSON_FENCE ++ x) = x.
Proof. unfold remove_leading. rewrite strip_prefix_app. reflexivity. Qed.

Lemma remove_trailing_fence (x : jstring) : remove_trailing FENCE (x ++ FENCE) = x.
Proof.
  unfold remove_trailing. rewrite rev_app_distr, strip_prefix_app. apply rev_involutive.
Qed.

(** The pattern with [$] removes the fence at the very end or nothing. *)
Lemma remove_trailing_cases (t : jstring) :
  remove_trailing FENCE t = t \/ t = remove_trailing FENCE t ++ FENCE.
Proof.
  unfold remove_trailing.
  destruct (strip_prefix (rev FENCE) (rev t)) as [r|] eqn:E; [right | left; reflexivity].
  apply strip_prefix_Some in E. apply (f_equal (@rev code_unit)) in E.
  rewrite rev_involutive, rev_app_distr in E. exact E.
Qed.

Lemma parse_backtick (y : jstring) : JSON.parse (BACKTICK :: y) = None.
Proof. reflexivity. Qed.

Lemma parse_empty : JSON.parse [] = None.
Proof. reflexivity. Qed.

Lemma plain_fence_stays (text : jstring) (rest : jstring) :
  trim text = FENCE ++ rest ->
  strip_prefix JSON_FENCE (trim text) = None ->
  strip_fences text = [] \/ exists y, strip_fences text = BACKTICK :: y.
Proof.
  intros Ht Hj. unfold strip_fences, remove_leading. rewrite Hj.
  destruct (remove_trailing_cases (trim text)) as [E|E].
  - rewrite E, Ht. right. apply trim_keeps_head. reflexivity.
  - destruct (remove_trailing FENCE (trim text)) as [|b t'] eqn:Er.
    + left. reflexivity.
    + right. rewrite Ht in E. cbn [app] in E. injection E as <- _.
      apply trim_keeps_head. reflexivity.
Qed.

(** Trimming does not reach into a text across a visible character. *)
Lemma trim_keeps_fence (x : jstring) : exists y, trim (FENCE ++ x) = FENCE ++ y.
Proof.
  unfold trim. change (FENCE ++ x) with (BACKTICK :: [BACKTICK] ++ BACKTICK :: x).
  rewrite trimStart_stop by reflexivity.
  unfold trimEnd.
  assert (H : forall l q, exists y,
               trimStart (l ++ BACKTICK :: q) = y ++ BACKTICK :: q).
  { induction l as [|c l IH]; intros q; cbn [app].
    - exists []. apply trimStart_stop. reflexivity.
    - cbn [trimStart]. destruct (is_white_space c); [apply IH|].
      exists (c :: l). reflexivity. }
  change (BACKTICK :: [BACKTICK] ++ BACKTICK :: x)
    with ([BACKTICK; BACKTICK] ++ BACKTICK :: x).
  rewrite rev_app_distr. cbn [rev]. rewrite <- app_assoc. cbn [app].
  destruct (H (rev x) [BACKTICK; BACKTICK]) as [y Hy]. rewrite Hy.
  rewrite rev_app_distr. cbn [rev app]. exists (rev y). reflexivity.
Qed.

Lemma plain_fence_kept (text : jstring) (rest : jstring) :
  trim text = FENCE ++ rest ->
  strip_prefix JSON_FENCE (trim text) = None ->
  3 <= List.length rest ->
  exists y, strip_fences text = FENCE ++ y.
Proof.
  intros Ht Hj Hlen. unfold strip_fences, remove_leading. rewrite Hj.
  destruct (remove_trailing_cases (trim text)) as [E|E].
  - rewrite E, Ht. apply trim_keeps_fence.
  - rewrite Ht in E |- *.
    assert (Hl : List.length (remove_trailing FENCE (FENCE ++ rest)) = List.length rest).
    { apply (f_equal (@List.length code_unit)) in E. rewrite !length_app in E.
      change (List.length FENCE) with 3 in E. lia. }
    destruct (remove_trailing FENCE (FENCE ++ rest)) as [|a [|b [|c t]]];
      cbn [List.length] in Hl; try lia.
    cbn [app] in E. injection E as <- <- <- _.
    apply (trim_keeps_fence t).
Qed.

Lemma create_random_user_parsed (text : jstring) (v : value) (s : state) :
  JSON.parse (strip_fences text) = Some v ->
  create_random_user (Return (TextContent text)) s
  = match createUser v s with
    | (Return id, s') => (Return (text_result (created_message id)), s')
    | (Throw _, s') => (Return (text_result (lit "Failed to generate user data")), s')
    end.
Proof.
  intros H. unfold create_random_user, bind, lift, try_catch, JSON_parse.
  rewrite H. cbn [ret]. destruct (createUser v s) as [[id|e] s']; reflexivity.
Qed.

(** C10. The fence stripping removes a leading [```json] and a
    trailing [```] of the trimmed text and nothing else.  A text
    fenced exactly that way, white space around it or not, whose body
    is valid JSON is stripped to the trimmed body and parses to the
    value of the body, which the handler hands to [createUser].  A text
    whose trimmed form opens with a plain [```] that is not [```json]
    keeps that fence when at least three code units follow it (a
    shorter one is left with a backtick at its head, or empty), does not
    parse, and gets the failure answer with the state unchanged. *)
Theorem fence_stripping :
  (forall ws1 ws2 body v,
      Forall (fun c => is_white_space c = true) ws1 ->
      Forall (fun c => is_white_space c = true) ws2 ->
      JSON.parse body = Some v ->
      let text := ws1 ++ JSON_FENCE ++ body ++ FENCE ++ ws2 in
      strip_fences text = trim body
      /\ JSON.parse (strip_fences text) = Some v
      /\ forall s,
          create_random_user (Return (TextContent text)) s
          = match createUser v s with
            | (Return id, s') => (Return (text_result (created_message id)), s')
            | (Throw _, s') =>
                (Return (text_result (lit "Failed to generate user data")), s')
            end)
  /\
  (forall text rest,
      trim text = FENCE ++ rest ->
      strip_prefix JSON_FENCE (trim text) = None ->
      (strip_fences text = [] \/ exists y, strip_fences text = ch "`" :: y)
      /\ (3 <= List.length rest -> exists y, strip_fences text = FENCE ++ y)
      /\ JSON.parse (strip_fences text) = None
      /\ forall s,
          create_random_user (Return (TextContent text)) s
          = (Return (text_result (lit "Failed to generate user data")), s)).
Proof.
  split.
  - intros ws1 ws2 body v H1 H2 Hp text.
    assert (Hs : strip_fences text = trim body).
    { unfold strip_fences, text.
      replace (ws1 ++ JSON_FENCE ++ body ++ FENCE ++ ws2)
        with (ws1 ++ (JSON_FENCE ++ body ++ FENCE) ++ ws2)
        by (rewrite <- !app_assoc; reflexivity).
      rewrite trim_core; [| exact H1 | exact H2 |].
      - rewrite remove_leading_fence, remove_trailing_fence. reflexivity.
      - split.
        + exists (ch "`"), (lit "``json" ++ body ++ FENCE). split; reflexivity.
        + exists (JSON_FENCE ++ body ++ lit "``"), (ch "`").
          split; [rewrite <- !app_assoc; reflexivity | reflexivity]. }
    assert (Hv : JSON.parse (strip_fences text) = Some v).
    { rewrite Hs. apply parse_trim. exact Hp. }
    split; [exact Hs|]. split; [exact Hv|].
    intros s. apply create_random_user_parsed. exact Hv.
  - intros text rest Ht Hj.
    pose proof (plain_fence_stays text rest Ht Hj) as Hk.
    assert (Hn : JSON.parse (strip_fences text) = None).
    { destruct Hk as [->|[y ->]]; [apply parse_empty | apply parse_backtick]. }
    split; [exact Hk|]. split; [apply plain_fence_kept; assumption|].
    split; [exact Hn|].
    intros s. apply (create_random_user_rejects (TextContent text)). exact Hn.
Qed.

Lemma fence_stripping_witness :
  let body := [JSON.LF] ++ lit "{}" ++ [JSON.LF] in
  let s0 := mkState (Some (lit "[]")) true None in
  JSON.parse (strip_fences (lit " " ++ JSON_FENCE ++ body ++ FENCE ++ [JSON.LF]))
    = Some (VObj [])
  /\ create_random_user (Return (TextContent (FENCE ++ body ++ FENCE))) s0
     = (Return (text_result (lit "Failed to generate user data")), s0).
Proof.
  intros body s0. split.
  - refine (proj1 (proj2 (proj1 fence_stripping (lit " ") [JSON.LF] body (VObj []) _ _ _))).
    + repeat constructor.
    + repeat constructor.
    + vm_compute; reflexivity.
  - refine (proj2 (proj2 (proj2 (proj2 fence_stripping (FENCE ++ body ++ FENCE)
                                   (body ++ FENCE) _ _))) s0).
    + vm_compute; reflexivity.
    + vm_compute; reflexivity.
Defined.

(** The generated text of the design's example: a [```json] fence
    around the four fields, each part on a line of its own.  On the
    empty store it is stripped, parsed and appended, and the answer
    carries the id 1. *)
Example fenced_user_is_created :
  let field (k v : jstring) := JSON.quote k ++ lit ":" ++ JSON.quote v in
  let body := lit "{" ++ field (lit "name") (lit "Bo")
              ++ lit "," ++ field (lit "email") (lit "bo@x.com")
              ++ lit "," ++ field (lit "address") (lit "2 Rd")
              ++ lit "," ++ field (lit "phone") (lit "555") ++ lit "}" in
  let text := JSON_FENCE ++ [JSON.LF] ++ body ++ [JSON.LF] ++ FENCE in
  let bo := mkParams (lit "Bo") (lit "bo@x.com") (lit "2 Rd") (lit "555") in
  let s0 := mkState (Some (lit "[]")) true None in
  let r := create_random_user (Return (TextContent text)) s0 in
  fst r = Return (text_result (lit "User 1 created successfully"))
  /\ loaded (snd r) = Some (VArr [user_record (Int 1) bo])
  /\ persisted (snd r) = Some (VArr [user_record (Int 1) bo]).
Proof.
  intros field body text bo s0 r.
  split; [vm_compute; reflexivity|]. split; vm_compute; reflexivity.
Qed.


(** * Further properties *)

(** ** The [create-user] tool in every state *)

Lemma import_users_fails (s : state) :
  users_of s = None ->
  import_users s
  = (Throw (match file s with Some _ => SyntaxError | None => ModuleNotFound end), s).
Proof.
  unfold users_of, import_users. destruct (loaded s); [discriminate|].
  destruct (file s) as [text|]; [|reflexivity].
  intros ->. reflexivity.
Qed.

Lemma import_users_loads (s : state) (v : value) :
  users_of s = Some v -> import_users s = (Return v, set_loaded v s).
Proof.
  unfold users_of, import_users. destruct s as [f w [u|]]; cbn.
  - intros H. injection H as ->. reflexivity.
  - destruct f as [text|]; [|discriminate]. intros ->. reflexivity.
Qed.

Lemma createUser_not_array (params : value) (s : state) (v : value) :
  users_of s = Some v -> is_array v = false ->
  createUser params s = (Throw TypeError, set_loaded v s).
Proof.
  intros Hu Hv. unfold createUser, bind. rewrite (import_users_loads s v Hu).
  destruct v; try reflexivity. discriminate Hv.
Qed.

(** X1. The [create-user] tool answers in every state and never
    throws.  It answers with the new id exactly when the store is an
    array and the write is accepted; in every other case it answers
    ["Failed to save user"]: with the state untouched when the import
    fails, with only the module loaded when the store is not an array
    (the file is not written), and with the record pushed but the file
    untouched when the write is refused. *)
Theorem create_user_answer :
  forall p s,
    match users_of s with
    | None =>
        create_user p s = (Return (text_result (lit "Failed to save user")), s)
    | Some (VArr elems) =>
        let users' := VArr (elems ++ [user_record (next_id elems) p]) in
        exists data,
          JSON.stringify_pretty users' = Some data
          /\ create_user p s
             = if writable s
               then (Return (text_result (created_message (next_id elems))),
                     set_file data (set_loaded users' s))
               else (Return (text_result (lit "Failed to save user")),
                     set_loaded users' s)
    | Some v =>
        create_user p s
        = (Return (text_result (lit "Failed to save user")), set_loaded v s)
    end.
Proof.
  intros p s. destruct (users_of s) as [v|] eqn:Hu.
  - assert (Hna : is_array v = false ->
                  create_user p s
                  = (Return (text_result (lit "Failed to save user")), set_loaded v s)).
    { intros Hv. unfold create_user, try_catch, bind.
      rewrite (createUser_not_array _ s v Hu Hv). reflexivity. }
    destruct v; try (apply Hna; reflexivity).
    destruct (createUser_spec s elems Hu (params_value p)) as [data [Hd Hc]].
    rewrite new_record_valid in Hd, Hc.
    exists data. split; [exact Hd|].
    unfold create_user, try_catch, bind. rewrite Hc.
    destruct (writable s); reflexivity.
  - unfold create_user, try_catch, bind, createUser, bind.
    rewrite (import_users_fails s Hu). reflexivity.
Qed.

(** ** The [create-random-user] tool in every state *)

(** X2. The [create-random-user] tool throws only when the sampling
    request itself rejects, and then with the store untouched.  A
    result that is not text, and a text that does not parse once its
    fences are stripped, get the failure answer with the store
    untouched.  A text that parses is appended whatever its shape: the
    answer names the next id when the store is an array and the write
    is accepted, and is the failure answer otherwise, with the record
    pushed when only the write was refused. *)
Theorem create_random_user_answer :
  forall res s,
    let failed := text_result (lit "Failed to generate user data") in
    match res with
    | Throw e => create_random_user res s = (Throw e, s)
    | Return (TextContent text) =>
        match JSON.parse (strip_fences text) with
        | None => create_random_user res s = (Return failed, s)
        | Some fakeUser =>
            match users_of s with
            | None => create_random_user res s = (Return failed, s)
            | Some (VArr elems) =>
                let users' := VArr (elems ++ [new_record (next_id elems) fakeUser]) in
                exists data,
                  JSON.stringify_pretty users' = Some data
                  /\ create_random_user res s
                     = if writable s
                       then (Return (text_result (created_message (next_id elems))),
                             set_file data (set_loaded users' s))
                       else (Return failed, set_loaded users' s)
            | Some v => create_random_user res s = (Return failed, set_loaded v s)
            end
        end
    | Return _ => create_random_user res s = (Return failed, s)
    end.
Proof.
  intros res s failed. destruct res as [[text| |]|e]; try reflexivity.
  destruct (JSON.parse (strip_fences text)) as [fakeUser|] eqn:Hp.
  2:{ apply (create_random_user_rejects (TextContent text)). exact Hp. }
  rewrite (create_random_user_parsed text fakeUser s Hp).
  destruct (users_of s) as [v|] eqn:Hu.
  - assert (Hna : is_array v = false ->
                  match createUser fakeUser s with
                  | (Return id, s') => (Return (text_result (created_message id)), s')
                  | (Throw _, s') => (Return failed, s')
                  end = (Return failed, set_loaded v s)).
    { intros Hv. rewrite (createUser_not_array _ s v Hu Hv). reflexivity. }
    destruct v; try (apply Hna; reflexivity).
    destruct (createUser_spec s elems Hu fakeUser) as [data [Hd Hc]].
    exists data. split; [exact Hd|]. rewrite Hc.
    destruct (writable s); reflexivity.
  - unfold createUser, bind. rewrite (import_users_fails s Hu). reflexivity.
Qed.

(** ** Appends while the file system changes its mind *)

Lemma outcomes_returned_sorted (accepted : list bool) :
  forall count,
  exists zs,
    returned (outcomes_from count accepted) = map Int zs
    /\ StronglySorted Z.lt zs
    /\ Forall (fun z => (Z.of_nat count < z)%Z) zs.
Proof.
  induction accepted as [|b rest IH]; intros count; cbn [outcomes_from].
  - exists []. repeat split; constructor.
  - destruct (IH (S count)) as [zs [Hr [Hs Hb]]].
    assert (Hb' : Forall (fun z => (Z.of_nat count + 1 < z)%Z) zs).
    { eapply Forall_impl; [|exact Hb]. cbn beta. intros z Hz. lia. }
    destruct b; cbn [returned].
    + exists ((Z.of_nat count + 1)%Z :: zs). rewrite Hr. split; [reflexivity|].
      split; [constructor; assumption|].
      constructor; [lia|]. eapply Forall_impl; [|exact Hb']. cbn beta. intros z Hz. lia.
    + exists zs. split; [exact Hr|]. split; [exact Hs|].
      eapply Forall_impl; [|exact Hb']. cbn beta. intros z Hz. lia.
Qed.

Lemma users_of_set_writable (b : bool) (s : state) :
  users_of (set_writable b s) = users_of s.
Proof. reflexivity. Qed.

Lemma appends_with_spec (calls : list (UserParams * bool)) :
  forall s0 elems rs s,
    users_of s0 = Some (VArr elems) ->
    appends_with calls s0 = (rs, s) ->
    rs = outcomes_from (List.length elems) (map snd calls)
    /\ users_of s
       = Some (VArr (elems ++ records_from (List.length elems) (map fst calls))).
Proof.
  induction calls as [|[p b] rest IH]; intros s0 elems rs s Hu Hrun.
  - cbn in Hrun. injection Hrun as <- <-. cbn [map records_from outcomes_from].
    rewrite app_nil_r. split; [reflexivity | exact Hu].
  - cbn [appends_with] in Hrun.
    destruct (createUser_spec (set_writable b s0) elems Hu (params_value p))
      as [data [_ Hc]].
    rewrite new_record_valid in Hc. unfold next_id in Hc.
    set (rec := user_record (Int (Z.of_nat (List.length elems) + 1)) p) in *.
    assert (Hnext : exists s1,
               createUser (params_value p) (set_writable b s0)
               = (if b then Return (Int (Z.of_nat (List.length elems) + 1))
                  else Throw IOError, s1)
               /\ loaded s1 = Some (VArr (elems ++ [rec]))).
    { rewrite Hc. cbn [writable set_writable]. destruct b; eexists; split; reflexivity. }
    destruct Hnext as [s1 [Hc1 Hl1]]. rewrite Hc1 in Hrun.
    destruct (appends_with rest s1) as [rs' s2] eqn:Hrest.
    injection Hrun as <- <-.
    assert (Hu1 : users_of s1 = Some (VArr (elems ++ [rec]))).
    { unfold users_of. rewrite Hl1. reflexivity. }
    destruct (IH s1 (elems ++ [rec]) rs' s2 Hu1 Hrest) as [Hr Hs].
    rewrite length_app in Hr, Hs. cbn [List.length] in Hr, Hs.
    rewrite Nat.add_1_r in Hr, Hs. rewrite <- app_assoc in Hs.
    cbn [map fst snd outcomes_from records_from].
    split; [rewrite Hr; reflexivity | exact Hs].
Qed.

Lemma appends_with_file (calls : list (UserParams * bool)) :
  forall s0 elems p rs s,
    users_of s0 = Some (VArr elems) ->
    appends_with (calls ++ [(p, true)]) s0 = (rs, s) ->
    exists data,
      file s = Some data
      /\ JSON.stringify_pretty
           (VArr (elems ++ records_from (List.length elems) (map fst calls ++ [p])))
         = Some data.
Proof.
  induction calls as [|[q b] rest IH]; intros s0 elems p rs s Hu Hrun.
  - cbn [app appends_with] in Hrun.
    destruct (createUser_spec (set_writable true s0) elems Hu (params_value p))
      as [data [Hd Hc]].
    rewrite new_record_valid in Hd, Hc. rewrite Hc in Hrun. cbn in Hrun.
    injection Hrun as <- <-. exists data. split; [reflexivity | exact Hd].
  - cbn [app appends_with] in Hrun.
    destruct (createUser (params_value q) (set_writable b s0)) as [r s1] eqn:Hc.
    destruct (appends_with (rest ++ [(p, true)]) s1) as [rs' s2] eqn:Hrest.
    injection Hrun as <- <-.
    assert (Hu1 : users_of s1
                  = Some (VArr (elems ++ [user_record (next_id elems) q]))).
    { destruct (createUser_spec (set_writable b s0) elems Hu (params_value q))
        as [data [_ Hc']].
      rewrite new_record_valid, Hc in Hc'. cbn [writable set_writable] in Hc'.
      destruct b; injection Hc' as _ ->; reflexivity. }
    destruct (IH s1 _ p rs' s2 Hu1 Hrest) as [data [Hf Hd]].
    exists data. split; [exact Hf|].
    rewrite length_app in Hd. cbn [List.length] in Hd. rewrite Nat.add_1_r in Hd.
    rewrite <- app_assoc in Hd. exact Hd.
Qed.

(** X3. Appends made one after the other while the file system
    accepts some writes and refuses others: the call number [i] on a
    store of [n] records returns [n + i] when its write is accepted and
    fails when it is refused, so the returned ids increase strictly but
    skip the ids of the failed calls; every record, also one whose call
    failed, is in the module's array under its own id; and after a call
    whose write is accepted the file holds the serialization of all of
    them. *)
Theorem appends_under_refused_writes :
  forall calls s0 elems rs s,
    users_of s0 = Some (VArr elems) ->
    appends_with calls s0 = (rs, s) ->
    rs = outcomes_from (List.length elems) (map snd calls)
    /\ (exists zs, returned rs = map Int zs /\ StronglySorted Z.lt zs)
    /\ users_of s
       = Some (VArr (elems ++ records_from (List.length elems) (map fst calls)))
    /\ (forall before p,
          calls = before ++ [(p, true)] ->
          exists data,
            file s = Some data
            /\ JSON.stringify_pretty
                 (VArr (elems ++ records_from (List.length elems) (map fst calls)))
               = Some data).
Proof.
  intros calls s0 elems rs s Hu Hrun.
  destruct (appends_with_spec calls s0 elems rs s Hu Hrun) as [Hr Hs].
  split; [exact Hr|]. split.
  - destruct (outcomes_returned_sorted (map snd calls) (List.length elems))
      as [zs [Hz [Hsorted _]]].
    exists zs. rewrite Hr. split; assumption.
  - split; [exact Hs|].
    intros before p ->.
    destruct (appends_with_file before s0 elems p rs s Hu Hrun) as [data [Hf Hd]].
    exists data. split; [exact Hf|].
    rewrite map_app. exact Hd.
Qed.

Lemma appends_under_refused_writes_witness :
  let ana := mkParams (lit "Ana") (lit "ana@x.com") (lit "1 Rd") (lit "555") in
  let bo := mkParams (lit "Bo") (lit "bo@x.com") (lit "2 Rd") (lit "555") in
  let s0 := mkState (Some (lit "[]")) true None in
  let both := VArr [user_record (Int 1) ana; user_record (Int 2) bo] in
  fst (appends_with [(ana, false); (bo, true)] s0) = [Throw IOError; Return (Int 2)]
  /\ users_of (snd (appends_with [(ana, false); (bo, true)] s0)) = Some both
  /\ exists data,
      file (snd (appends_with [(ana, false); (bo, true)] s0)) = Some data
      /\ JSON.stringify_pretty both = Some data.
Proof.
  intros ana bo s0 both.
  destruct (appends_with [(ana, false); (bo, true)] s0) as [rs s] eqn:E.
  destruct (appends_under_refused_writes [(ana, false); (bo, true)] s0 [] rs s)
    as [Hr [_ [Hs Hf]]]; [vm_compute; reflexivity | exact E |].
  split; [exact Hr|]. split; [exact Hs|].
  apply (Hf [(ana, false)] bo). reflexivity.
Defined.

(** ** Reads *)

Lemma users_resource_spec (href : jstring) (s : state) :
  users_resource href s
  = match users_of s with
    | Some users => (Return (json_resource href users), set_loaded users s)
    | None =>
        (Throw (match file s with Some _ => SyntaxError | None => ModuleNotFound end), s)
    end.
Proof.
  unfold users_resource, bind. destruct (users_of s) as [users|] eqn:Hu.
  - rewrite (import_users_loads s users Hu). reflexivity.
  - rewrite (import_users_fails s Hu). reflexivity.
Qed.

Lemma user_details_spec (href userId : jstring) (s : state) :
  user_details href userId s
  = match users_of s with
    | Some users =>
        match find_user users userId with
        | Return user =>
            (Return (json_resource href (if equals_null user then NOT_FOUND else user)),
             set_loaded users s)
        | Throw e => (Throw e, set_loaded users s)
        end
    | None =>
        (Throw (match file s with Some _ => SyntaxError | None => ModuleNotFound end), s)
    end.
Proof.
  unfold user_details, bind, lift. destruct (users_of s) as [users|] eqn:Hu.
  - rewrite (import_users_loads s users Hu).
    destruct (find_user users userId) as [user|e]; [|reflexivity].
    destruct (equals_null user); reflexivity.
  - rewrite (import_users_fails s Hu). reflexivity.
Qed.

(** X4. The two resources only read: whatever they answer, they
    leave the file and its permission as they are and do not change
    the records that the next import yields (at most they load the
    module), and asked again at once they give the same answer and
    change nothing more. *)
Theorem resources_only_read :
  forall href userId s,
    let after_all := snd (users_resource href s) in
    let after_one := snd (user_details href userId s) in
    (file after_all = file s /\ writable after_all = writable s
     /\ users_of after_all = users_of s)
    /\ (file after_one = file s /\ writable after_one = writable s
        /\ users_of after_one = users_of s)
    /\ users_resource href after_all = (fst (users_resource href s), after_all)
    /\ user_details href userId after_one
       = (fst (user_details href userId s), after_one)
    /\ users_resource href after_one
       = (fst (users_resource href s), after_one).
Proof.
  intros href userId s after_all after_one. subst after_all after_one.
  rewrite !users_resource_spec, !user_details_spec.
  destruct (users_of s) as [users|] eqn:Hu.
  - assert (Hl : forall r : outcome resource_result,
               users_of (snd (r, set_loaded users s)) = Some users) by reflexivity.
    destruct (find_user users userId) as [user|e] eqn:Hf; cbn [fst snd];
      rewrite ?users_of_set_loaded, ?Hf; cbn [fst snd];
      repeat (split; try reflexivity).
  - cbn [fst snd]. rewrite !Hu. cbn [fst snd]. repeat (split; try reflexivity).
Qed.

(** ** The lookup *)

Lemma array_find_not_null (userId : jstring) (elems : list value) :
  array_find (matches userId) elems <> Return VNull.
Proof.
  induction elems as [|u rest IH]; cbn [array_find]; [discriminate|].
  destruct (matches userId u) as [[|]|e] eqn:E; [|exact IH|discriminate].
  intros H. injection H as ->. discriminate E.
Qed.

(** X5. The lookup never yields [null], so the [user-details]
    resource never takes its ["User not found"] branch: in every
    state it behaves as the handler without the test would, answering
    with the serialization of whatever [find] returned. *)
Theorem not_found_branch_is_dead :
  (forall users userId, find_user users userId <> Return VNull)
  /\ (forall href userId s,
        user_details href userId s
        = bind import_users
            (fun users =>
               bind (lift (find_user users userId))
                 (fun user => ret (json_resource href user))) s)
  /\ (forall href userId s r s',
        user_details href userId s = (Return r, s') ->
        exists users user,
          users_of s = Some users
          /\ find_user users userId = Return user
          /\ user <> VNull
          /\ r = json_resource href user).
Proof.
  assert (Hnull : forall users userId, find_user users userId <> Return VNull).
  { intros users userId. destruct users; try discriminate. apply array_find_not_null. }
  split; [exact Hnull|]. split.
  - intros href userId s. unfold user_details, bind, lift.
    destruct (import_users s) as [[users|e] s1]; [|reflexivity].
    destruct (find_user users userId) as [user|e] eqn:Hf; [|reflexivity].
    destruct user; try reflexivity. exfalso. exact (Hnull _ _ Hf).
  - intros href userId s r s' H. rewrite user_details_spec in H.
    destruct (users_of s) as [users|]; [|discriminate H].
    destruct (find_user users userId) as [user|e] eqn:Hf; [|discriminate H].
    injection H as <- _. exists users, user. split; [reflexivity|].
    split; [exact Hf|].
    assert (Hn : user <> VNull) by (intros ->; exact (Hnull _ _ Hf)).
    split; [exact Hn|]. destruct user; try reflexivity. contradiction.
Qed.

Lemma not_found_branch_is_dead_witness :
  let s := mkState (Some (lit "[]")) true None in
  exists users user,
    users_of s = Some users
    /\ find_user users (lit "1") = Return user
    /\ user <> VNull
    /\ mkResource (lit "users://1/details") (lit "application/json") None
       = json_resource (lit "users://1/details") user.
Proof.
  intros s.
  apply (proj2 (proj2 not_found_branch_is_dead) (lit "users://1/details") (lit "1") s
           _ (set_loaded (VArr []) s)).
  vm_compute; reflexivity.
Defined.

(** X6. A [null] among the records breaks every lookup that has to
    pass it: when no record before it matches, reading [u.id] on it
    throws a TypeError, whatever follows it in the array, and the
    handler lets the error out. *)
Theorem null_record_breaks_lookup :
  forall before after userId,
    Forall (other_id (Number userId)) before ->
    find_user (VArr (before ++ VNull :: after)) userId = Throw TypeError
    /\ forall href s,
        users_of s = Some (VArr (before ++ VNull :: after)) ->
        fst (user_details href userId s) = Throw TypeError.
Proof.
  intros before after userId Hmiss.
  assert (Hf : find_user (VArr (before ++ VNull :: after)) userId = Throw TypeError).
  { cbn [find_user]. rewrite array_find_skip; [reflexivity|].
    apply Forall_forall. intros u Hin. apply other_id_no_match.
    eapply Forall_forall in Hmiss; eauto. }
  split; [exact Hf|].
  intros href s Hu. rewrite user_details_spec, Hu, Hf. reflexivity.
Qed.

Lemma null_record_breaks_lookup_witness :
  let ana := mkParams (lit "Ana") (lit "ana@x.com") (lit "1 Rd") (lit "555") in
  find_user (VArr ([user_record (Int 1) ana] ++ VNull :: [user_record (Int 2) ana]))
            (lit "2")
  = Throw TypeError.
Proof.
  intros ana.
  apply (null_record_breaks_lookup [user_record (Int 1) ana] [user_record (Int 2) ana]
           (lit "2")).
  constructor; [|constructor].
  exists (VNum (Int 1)). split; vm_compute; reflexivity.
Defined.

(** X7. The lookup returns the first record whose id matches.  So
    when some record of the store already carries the id that an
    append is about to give out, the lookup of that id after the append
    still answers with the old record, not with the one just added. *)
Theorem first_match_shadows_append :
  forall s before old after p id s' href userId,
    users_of s = Some (VArr (before ++ old :: after)) ->
    Forall (other_id id) before ->
    matches userId old = Return true ->
    createUser (params_value p) s = (Return id, s') ->
    Number userId = id ->
    user_details href userId s' = (Return (json_resource href old), s').
Proof.
  intros s before old after p id s' href userId Hu Hmiss Hold Hc Hn.
  destruct (createUser_spec s _ Hu (params_value p)) as [data [_ Hc']].
  rewrite Hc in Hc'. destruct (writable s); [|discriminate Hc'].
  injection Hc' as Hid Hs.
  rewrite (user_details_loaded s'
             (VArr ((before ++ old :: after) ++ [new_record (next_id (before ++ old :: after))
                                                    (params_value p)])) href userId)
    by (rewrite Hs; reflexivity).
  cbn [find_user]. rewrite <- app_assoc. rewrite array_find_skip.
  - cbn [app array_find]. rewrite Hold.
    destruct old; try reflexivity.
    unfold matches in Hold. cbn in Hold. discriminate Hold.
  - apply Forall_forall. intros u Hin. apply other_id_no_match.
    rewrite Hn. eapply Forall_forall in Hmiss; eauto.
Qed.

Lemma first_match_shadows_append_witness :
  let ana := mkParams (lit "Ana") (lit "ana@x.com") (lit "1 Rd") (lit "555") in
  let bo := mkParams (lit "Bo") (lit "bo@x.com") (lit "2 Rd") (lit "555") in
  let old := user_record (Int 2) ana in
  let s := mkState (Some (lit "[]")) true (Some (VArr [old])) in
  let s' := snd (createUser (params_value bo) s) in
  fst (createUser (params_value bo) s) = Return (Int 2)
  /\ user_details (lit "users://2/details") (lit "2") s'
     = (Return (json_resource (lit "users://2/details") old), s').
Proof.
  intros ana bo old s s'. split; [vm_compute; reflexivity|].
  apply (first_match_shadows_append s [] old [] bo (Int 2) s').
  - reflexivity.
  - constructor.
  - vm_compute; reflexivity.
  - vm_compute; reflexivity.
  - vm_compute; reflexivity.
Defined.

(** ** Integers as doubles and as text *)

Lemma iter_double (p k : positive) :
  Zpos (Pos.iter xO p k) = (Zpos p * 2 ^ Zpos k)%Z.
Proof.
  induction k as [|k IH] using Pos.peano_ind.
  - cbn [Pos.iter]. lia.
  - rewrite Pos.iter_succ, Pos2Z.inj_succ, Z.pow_succ_r by lia.
    rewrite Pos2Z.inj_xO, IH. lia.
Qed.

Lemma reduce_dyadic_power (neg : bool) (p k : positive) :
  reduce_dyadic neg (Pos.iter xO p k) k = Int (signed neg (Zpos p)).
Proof.
  induction k as [|k IH] using Pos.peano_ind.
  - reflexivity.
  - rewrite Pos.iter_succ. cbn [reduce_dyadic].
    destruct (Pos.succ k) eqn:E; try (rewrite <- E, Pos.pred_succ; exact IH).
    exfalso. exact (Pos.succ_not_1 k E).
Qed.

Lemma make_finite_integer (neg : bool) (p : positive) (k : Z) :
  (0 <= k)%Z ->
  make_finite neg (Zpos p * 2 ^ k) (- k) = Int (signed neg (Zpos p)).
Proof.
  intros Hk. unfold make_finite. destruct k as [|pk|pk]; [| |lia].
  - cbn. do 2 f_equal. lia.
  - change (0 <=? - Zpos pk)%Z with false. cbn match.
    rewrite <- iter_double. cbn [Z.opp]. apply reduce_dyadic_power.
Qed.

(** An integer below [2^53] is a double: rounding leaves it alone. *)
Lemma round_double_integer (neg : bool) (p : positive) :
  (Zpos p < 2 ^ 53)%Z -> round_double neg p 1 = Int (signed neg (Zpos p)).
Proof.
  intros Hp.
  assert (Hl : (0 <= Z.log2 (Zpos p) < 53)%Z).
  { split; [apply Z.log2_nonneg|]. apply Z.log2_lt_pow2; lia. }
  assert (Hfl : floor_log2_ratio p 1 = Z.log2 (Zpos p)).
  { unfold floor_log2_ratio. change (Z.log2 1) with 0%Z. rewrite Z.sub_0_r.
    destruct (Z.leb_spec 0 (Z.log2 (Zpos p))); [|lia].
    destruct (Z.leb_spec (1 * 2 ^ Z.log2 (Zpos p)) (Zpos p)) as [_|H']; [reflexivity|].
    pose proof (Z.log2_spec (Zpos p) ltac:(lia)). lia. }
  unfold round_double. rewrite Hfl.
  set (l := Z.log2 (Zpos p)) in *.
  rewrite Z.max_l by lia.
  destruct (Z.ltb_spec (l - 52) 0) as [He|He].
  - rewrite Z.div_1_r, Z.mod_1_r.
    change (2 * 0 <? 1)%Z with true. cbn match.
    assert (Hpos : (0 < Zpos p * 2 ^ (- (l - 52)))%Z).
    { apply Z.mul_pos_pos; [lia|]. apply Z.pow_pos_nonneg; lia. }
    destruct (Z.eqb_spec (Zpos p * 2 ^ (- (l - 52))) 0); [lia|].
    destruct (Z.ltb_spec 971 (l - 52)); [lia|].
    destruct (Z.eqb_spec (l - 52) 971); [lia|]. cbn [orb andb].
    replace (l - 52)%Z with (- (- (l - 52)))%Z at 2 by lia.
    apply make_finite_integer. lia.
  - assert (El : (l - 52 = 0)%Z) by lia. rewrite El.
    change (2 ^ 0)%Z with 1%Z. rewrite Z.mul_1_r, Z.div_1_r, Z.mod_1_r.
    change (2 * 0 <? 1)%Z with true. cbn match.
    destruct (Z.eqb_spec (Zpos p) 0); [lia|].
    change ((971 <? 0)%Z || (0 =? 971)%Z && (Zpos p =? 2 ^ 53)%Z) with false.
    cbn match. unfold make_finite. change (0 <=? 0)%Z with true. cbn match.
    change (2 ^ 0)%Z with 1%Z. rewrite Z.mul_1_r. reflexivity.
Qed.

Lemma decimal_value_integer (z : Z) :
  (0 <= z < 2 ^ 53)%Z -> decimal_value false z 0 = Int z.
Proof.
  intros Hz. unfold decimal_value. destruct z as [|p|p]; [reflexivity| |lia].
  change (0 <=? 0)%Z with true. cbn match.
  change (Z.to_pos (10 ^ 0)) with 1%positive. rewrite Pos.mul_1_r.
  apply (round_double_integer false). lia.
Qed.

Lemma digit_units (d : Decimal.uint) :
  Forall (fun c => is_digit c = true) (uint_units d).
Proof. induction d; cbn [uint_units]; constructor; auto. Qed.

Lemma read_uint_acc (d : Decimal.uint) (r : jstring) :
  forall (acc : positive) (cnt : Z),
    read_digits 10 (uint_units d ++ r) (Zpos acc) cnt
    = read_digits 10 r (Zpos (Pos.of_uint_acc d acc))
        (cnt + Z.of_nat (List.length (uint_units d))).
Proof.
  induction d as [|d IHd|d IHd|d IHd|d IHd|d IHd|d IHd|d IHd|d IHd|d IHd|d IHd];
    intros acc cnt; cbn [uint_units app Pos.of_uint_acc List.length].
  1: f_equal; lia.
  all: cbn [read_digits];
    match goal with
    | |- context [digit_in 10 ?c] =>
        let v := eval vm_compute in (digit_in 10 c) in change (digit_in 10 c) with v
    end;
    cbv iota;
    match goal with
    | |- read_digits _ _ ?a _ = read_digits _ _ (Zpos (Pos.of_uint_acc _ ?b)) _ =>
        replace a with (Zpos b) by lia
    end;
    rewrite IHd; f_equal; lia.
Qed.

Lemma read_uint (d : Decimal.uint) (r : jstring) :
  forall cnt : Z,
    read_digits 10 (uint_units d ++ r) 0 cnt
    = read_digits 10 r (Z.of_N (Pos.of_uint d))
        (cnt + Z.of_nat (List.length (uint_units d))).
Proof.
  induction d as [|d IHd|d|d|d|d|d|d|d|d|d];
    intros cnt; cbn [uint_units app Pos.of_uint List.length Z.of_N].
  1: f_equal; lia.
  1: cbn [read_digits]; change (digit_in 10 48%N) with (Some 0%Z); cbv iota;
     change (0 * 10 + 0)%Z with 0%Z; rewrite IHd; f_equal; lia.
  all: cbn [read_digits];
    match goal with
    | |- context [digit_in 10 ?c] =>
        let v := eval vm_compute in (digit_in 10 c) in change (digit_in 10 c) with v
    end;
    cbv iota;
    match goal with
    | |- read_digits _ _ ?a _ = read_digits _ _ (Zpos (Pos.of_uint_acc _ ?b)) _ =>
        change a with (Zpos b)
    end;
    rewrite read_uint_acc; f_equal; lia.
Qed.

(** Reading the decimal digits of [n] gives [n] back. *)
Lemma read_decimal_digits (n : N) (r : jstring) :
  no_digit_head r ->
  read_digits 10 (decimal_digits n ++ r) 0 0
  = (Z.of_N n, Z.of_nat (List.length (decimal_digits n)), r).
Proof.
  intros Hr. unfold decimal_digits. rewrite read_uint.
  change (Pos.of_uint (N.to_uint n)) with (N.of_uint (N.to_uint n)).
  rewrite DecimalN.Unsigned.of_to.
  destruct r as [|c r]; [reflexivity|].
  cbn [read_digits]. cbn in Hr. rewrite Hr. reflexivity.
Qed.

Lemma of_uint_acc_bounds (d : Decimal.uint) :
  forall acc : positive,
    (Zpos acc * 10 ^ Z.of_nat (List.length (uint_units d))
     <= Zpos (Pos.of_uint_acc d acc)
     < (Zpos acc + 1) * 10 ^ Z.of_nat (List.length (uint_units d)))%Z.
Proof.
  induction d as [|d IHd|d IHd|d IHd|d IHd|d IHd|d IHd|d IHd|d IHd|d IHd|d IHd];
    intros acc; cbn [uint_units Pos.of_uint_acc List.length].
  1: cbn; lia.
  all: rewrite Nat2Z.inj_succ, Z.pow_succ_r by lia;
    match goal with
    | |- context [Pos.of_uint_acc ?x ?b] =>
        specialize (IHd b);
        assert (0 < 10 ^ Z.of_nat (List.length (uint_units x)))%Z
          by (apply Z.pow_pos_nonneg; lia)
    end;
    nia.
Qed.

Lemma nzhead_shape (d : Decimal.uint) :
  match Decimal.nzhead d with Decimal.D0 _ => False | _ => True end.
Proof. induction d; cbn [Decimal.nzhead]; auto. Qed.

(** The digits of a positive number do not start with a zero. *)
Lemma to_uint_shape (p : positive) :
  match Pos.to_uint p with
  | Decimal.Nil | Decimal.D0 _ => False
  | _ => True
  end.
Proof.
  pose proof (DecimalPos.Unsigned.to_of (Pos.to_uint p)) as E.
  rewrite DecimalPos.Unsigned.of_to in E. cbn [N.to_uint] in E.
  pose proof (DecimalPos.Unsigned.to_uint_nonzero p) as Hz.
  pose proof (nzhead_shape (Pos.to_uint p)) as Hs.
  unfold Decimal.unorm in E.
  destruct (Decimal.nzhead (Pos.to_uint p)); rewrite E; try exact I; tauto.
Qed.

(** A positive number of [n] digits lies between [10^(n-1)] and [10^n]. *)
Lemma digits_magnitude (p : positive) :
  (10 ^ (Z.of_nat (List.length (decimal_digits (Npos p))) - 1) <= Zpos p
   < 10 ^ Z.of_nat (List.length (decimal_digits (Npos p))))%Z.
Proof.
  unfold decimal_digits. cbn [N.to_uint].
  pose proof (to_uint_shape p) as Hs.
  pose proof (DecimalPos.Unsigned.of_to p) as E.
  destruct (Pos.to_uint p) as [|d|d|d|d|d|d|d|d|d|d]; try contradiction;
    cbn [Pos.of_uint] in E; injection E as E;
    cbn [uint_units List.length];
    rewrite Nat2Z.inj_succ, Z.pow_succ_r by lia;
    replace (Z.succ (Z.of_nat (List.length (uint_units d))) - 1)%Z
      with (Z.of_nat (List.length (uint_units d))) by lia;
    match type of E with
    | Pos.of_uint_acc ?x ?b = _ =>
        pose proof (of_uint_acc_bounds x b) as Hb;
        assert (0 < 10 ^ Z.of_nat (List.length (uint_units x)))%Z
          by (apply Z.pow_pos_nonneg; lia)
    end;
    rewrite E in Hb;
    nia.
Qed.

Lemma decimal_digits_nonempty (n : N) : decimal_digits n <> [].
Proof.
  unfold decimal_digits. destruct n as [|p]; [discriminate|].
  cbn [N.to_uint]. pose proof (to_uint_shape p) as Hs.
  destruct (Pos.to_uint p); try contradiction; discriminate.
Qed.

Lemma uint_units_revapp (d : Decimal.uint) :
  forall d', uint_units (Decimal.revapp d d') = rev (uint_units d) ++ uint_units d'.
Proof.
  induction d; intros d'; cbn [Decimal.revapp uint_units rev]; [reflexivity|..];
    rewrite IHd, <- app_assoc; reflexivity.
Qed.

Lemma decimal_digits_tenfold (p : positive) :
  decimal_digits (Npos (10 * p)) = decimal_digits (Npos p) ++ [ch "0"].
Proof.
  unfold decimal_digits. cbn [N.to_uint]. unfold Pos.to_uint, Decimal.rev.
  pose proof (DecimalPos.Unsigned.to_ldec_tenfold p) as E.
  change (Pos.to_little_uint (10 * p) = Decimal.D0 (Pos.to_little_uint p)) in E.
  rewrite E. cbn [Decimal.revapp]. rewrite !uint_units_revapp.
  cbn [uint_units]. rewrite app_nil_r. reflexivity.
Qed.

Lemma decimal_digits_scaled (p : positive) (j : nat) :
  decimal_digits (Npos p * 10 ^ N.of_nat j) = decimal_digits (Npos p) ++ repeat (ch "0") j.
Proof.
  induction j as [|j IH].
  - cbn [repeat]. rewrite app_nil_r. f_equal. cbn. lia.
  - rewrite Nat2N.inj_succ, N.pow_succ_r'.
    destruct (Npos p * 10 ^ N.of_nat j)%N as [|q] eqn:E.
    { exfalso. apply N.eq_mul_0 in E. destruct E as [E|E]; [discriminate|].
      apply N.pow_nonzero in E; [exact E|discriminate]. }
    replace (Npos p * (10 * 10 ^ N.of_nat j))%N with (Npos (10 * q)) by lia.
    rewrite decimal_digits_tenfold, IH, <- app_assoc.
    f_equal. change [ch "0"] with (repeat (ch "0") 1). rewrite <- repeat_app.
    f_equal. lia.
Qed.

Lemma rounds_to_integer (p s n k : Z) :
  (0 <= n - k)%Z -> (0 < s * 10 ^ (n - k) < 2 ^ 53)%Z ->
  rounds_to (Int p) s n k = (s * 10 ^ (n - k) =? p)%Z.
Proof.
  intros Hj Hs. unfold rounds_to, scale10.
  destruct (Z.leb_spec 0 (n - k)); [|lia].
  change (Z.to_pos 1) with 1%positive.
  rewrite (round_double_integer false) by (rewrite Z2Pos.id; lia).
  cbn [signed number_eqb]. rewrite Z2Pos.id by lia. reflexivity.
Qed.

Lemma scale10_floor (p j : Z) :
  (0 <= j)%Z ->
  exists sp sq, scale10 p 1 (- j) = (sp, sq)
                /\ (sp / sq = p / 10 ^ j)%Z /\ (sp mod sq = p mod 10 ^ j)%Z.
Proof.
  intros Hj. unfold scale10. destruct (Z.leb_spec 0 (- j)).
  - assert (j = 0%Z) by lia. subst j. do 2 eexists. split; [reflexivity|].
    change (10 ^ (- 0))%Z with 1%Z. change (10 ^ 0)%Z with 1%Z.
    rewrite Z.mul_1_r. split; reflexivity.
  - do 2 eexists. split; [reflexivity|].
    rewrite Z.opp_involutive, Z.mul_1_l. split; reflexivity.
Qed.

(** The shortest digits of an integer double below [2^52] are its
    decimal digits without the trailing zeros. *)
Lemma shortest_digits_integer (p n : Z) :
  (10 ^ (n - 1) <= p < 10 ^ n)%Z -> (0 < p < 2 ^ 52)%Z -> (1 <= n)%Z ->
  forall (fuel : nat) (k : Z),
    (1 <= k <= n)%Z -> (n - k < Z.of_nat fuel)%Z ->
    exists j, (0 <= j <= n - k)%Z /\ (p mod 10 ^ j = 0)%Z
              /\ shortest_digits fuel (Int p) p 1 n k = ((p / 10 ^ j)%Z, n).
Proof.
  intros Hmag Hp Hn. induction fuel as [|fuel IH]; intros k Hk Hf; [lia|].
  destruct (scale10_floor p (n - k) ltac:(lia)) as (sp & sq & Es & Hd & Hm).
  replace (- (n - k))%Z with (k - n)%Z in Es by lia.
  cbn [shortest_digits]. rewrite Es, Hd, Hm.
  assert (HP : (0 < 10 ^ (n - k))%Z) by (apply Z.pow_pos_nonneg; lia).
  assert (HPle : (10 ^ (n - k) <= 10 ^ (n - 1))%Z)
    by (apply Z.pow_le_mono_r; lia).
  pose proof (Z.div_mod p (10 ^ (n - k)) ltac:(lia)) as Hdm.
  pose proof (Z.mod_pos_bound p (10 ^ (n - k)) HP) as Hr.
  set (P := (10 ^ (n - k))%Z) in *.
  set (lo := (p / P)%Z) in *. set (r := (p mod P)%Z) in *.
  assert (Hlo : (1 <= lo)%Z) by nia.
  rewrite !rounds_to_integer by (fold P; nia). fold P.
  destruct (Z.eqb_spec (lo * P) p) as [E1|E1];
    destruct (Z.eqb_spec ((lo + 1) * P) p) as [E2|E2]; cbn [andb]; try nia.
  - exists (n - k)%Z. fold P. fold r. fold lo.
    split; [lia|]. split; [nia|reflexivity].
  - assert (Hkn : (k < n)%Z).
    { destruct (Z.eq_dec k n) as [->|]; [|lia].
      exfalso. apply E1. unfold lo, P. rewrite Z.sub_diag.
      change (10 ^ 0)%Z with 1%Z. rewrite Z.div_1_r. lia. }
    destruct (IH (k + 1)%Z ltac:(lia) ltac:(lia)) as (j & Hj & Hmod & E).
    exists j. split; [lia|]. split; [exact Hmod|exact E].
Qed.

(** [String(x)] of a positive integer double below [2^52] is its
    decimal numeral. *)
Lemma number_to_string_integer (p : positive) :
  (Zpos p < 2 ^ 52)%Z -> number_to_string (Int (Zpos p)) = decimal_digits (Npos p).
Proof.
  intros Hp. cbn [number_to_string]. unfold positive_to_string, decimal_exponent.
  destruct (Pos.leb_spec 1 p) as [_|H]; [|lia].
  rewrite Z.div_1_r. change (Z.to_N (Zpos p)) with (Npos p).
  pose proof (digits_magnitude p) as Hmag.
  set (n := Z.of_nat (List.length (decimal_digits (Npos p)))) in *.
  assert (Hn1 : (1 <= n)%Z).
  { unfold n. pose proof (decimal_digits_nonempty (Npos p)).
    destruct (decimal_digits (Npos p)); [congruence|cbn [List.length]; lia]. }
  assert (Hn16 : (n <= 16)%Z).
  { assert (10 ^ (n - 1) < 10 ^ 16)%Z as Hlt by lia.
    apply Z.pow_lt_mono_r_iff in Hlt; lia. }
  destruct (shortest_digits_integer (Zpos p) n Hmag ltac:(lia) Hn1 17 1%Z
              ltac:(lia) ltac:(lia)) as (j & Hj & Hmod & E).
  rewrite E.
  assert (HP : (0 < 10 ^ j)%Z) by (apply Z.pow_pos_nonneg; lia).
  pose proof (Z.div_mod (Zpos p) (10 ^ j) ltac:(lia)) as Hdm.
  rewrite Hmod, Z.add_0_r in Hdm.
  destruct (Zpos p / 10 ^ j)%Z as [|s|s] eqn:Es; try lia.
  change (Z.to_N (Zpos s)) with (Npos s).
  assert (Hps : Npos p = (Npos s * 10 ^ N.of_nat (Z.to_nat j))%N).
  { apply N2Z.inj. rewrite N2Z.inj_mul, N2Z.inj_pow, nat_N_Z, Z2Nat.id by lia.
    cbn [Z.of_N]. lia. }
  pose proof (decimal_digits_scaled s (Z.to_nat j)) as Hd.
  rewrite <- Hps in Hd.
  assert (Hlen : n = (Z.of_nat (List.length (decimal_digits (Npos s))) + j)%Z).
  { unfold n. rewrite Hd, length_app, repeat_length. lia. }
  unfold format_digits.
  destruct (Z.leb_spec (Z.of_nat (List.length (decimal_digits (Npos s)))) n); [|lia].
  destruct (Z.leb_spec n 21); [|lia]. cbn [andb].
  rewrite Hd. unfold zeros. do 3 f_equal. lia.
Qed.

Lemma digit_not_sign (c : code_unit) :
  is_digit c = true ->
  N.eqb c (ch "-") = false /\ N.eqb c (ch "+") = false /\ N.eqb c (ch "I") = false
  /\ N.eqb c (ch ".") = false /\ radix_of c = None.
Proof.
  unfold is_digit, radix_of. intros H. apply andb_true_iff in H. destruct H as [H1 H2].
  apply N.leb_le in H1, H2.
  change (ch "-") with 45%N. change (ch "+") with 43%N. change (ch "I") with 73%N.
  change (ch ".") with 46%N.
  change (ch "x") with 120%N. change (ch "X") with 88%N.
  change (ch "o") with 111%N. change (ch "O") with 79%N.
  change (ch "b") with 98%N. change (ch "B") with 66%N.
  repeat match goal with
         | |- context [N.eqb c ?k] => destruct (N.eqb_spec c k); [lia|]
         end.
  auto.
Qed.

Lemma decimal_digits_head (n : N) :
  exists c t, decimal_digits n = c :: t /\ is_digit c = true.
Proof.
  pose proof (decimal_digits_nonempty n) as Hne.
  pose proof (digit_units (N.to_uint n)) as Hd. fold (decimal_digits n) in Hd.
  destruct (decimal_digits n) as [|c t]; [congruence|].
  exists c, t. split; [reflexivity|]. now inversion Hd.
Qed.

Lemma trim_digits (n : N) : trim (decimal_digits n) = decimal_digits n.
Proof.
  pose proof (digit_units (N.to_uint n)) as Hd. fold (decimal_digits n) in Hd.
  pose proof (decimal_digits_nonempty n) as Hne.
  rewrite <- (app_nil_r (decimal_digits n)) at 1.
  apply (trim_core [] (decimal_digits n) []); try constructor.
  - destruct (decimal_digits n) as [|c t]; [congruence|].
    exists c, t. split; [reflexivity|]. apply digit_not_white_space. now inversion Hd.
  - destruct (exists_last Hne) as (t & z & E). exists t, z. split; [exact E|].
    apply digit_not_white_space. rewrite E in Hd.
    apply Forall_app in Hd. destruct Hd as [_ Hz]. now inversion Hz.
Qed.

(** [Number] reads a decimal numeral below [2^53] exactly. *)
Lemma Number_decimal_digits (n : N) :
  (Z.of_N n < 2 ^ 53)%Z -> Number (decimal_digits n) = Int (Z.of_N n).
Proof.
  intros Hn.
  assert (Hlit : str_decimal_literal (decimal_digits n) = Int (Z.of_N n)).
  { destruct (decimal_digits_head n) as (c & t & E & Hc).
    destruct (digit_not_sign c Hc) as (Hm & Hp & HI & _).
    unfold str_decimal_literal, read_sign. rewrite E, Hm, Hp.
    change (lit "Infinity") with (ch "I" :: lit "nfinity").
    cbn [str_eqb]. rewrite HI. cbn [andb].
    rewrite <- E. unfold unsigned_decimal.
    rewrite <- (app_nil_r (decimal_digits n)).
    rewrite (read_decimal_digits n [] I).
    rewrite E. cbn [List.length]. rewrite Z.add_0_r.
    destruct (Z.ltb_spec 0 (Z.of_nat (S (List.length t)))); [|lia].
    cbn [read_exponent]. change (0 - 0)%Z with 0%Z.
    apply decimal_value_integer. lia. }
  unfold Number. rewrite trim_digits.
  pose proof (digit_units (N.to_uint n)) as Hd. fold (decimal_digits n) in Hd.
  destruct (decimal_digits n) as [|c0 [|c1 r]] eqn:E.
  - exfalso. exact (decimal_digits_nonempty n E).
  - exact Hlit.
  - inversion Hd as [|? ? _ Hd1]. inversion Hd1 as [|? ? Hc1 _].
    destruct (digit_not_sign c1 Hc1) as (_ & _ & _ & _ & Hr). rewrite Hr.
    destruct (N.eqb c0 (ch "0")); exact Hlit.
Qed.

(** ** The answer of a successful append *)

Lemma created_message_decimal (count : nat) :
  (Z.of_nat count + 1 < 2 ^ 52)%Z ->
  created_message (Int (Z.of_nat count + 1))
  = lit "User " ++ decimal_digits (N.of_nat (S count)) ++ lit " created successfully".
Proof.
  intros Hc. unfold created_message. do 2 f_equal.
  replace (Z.of_nat count + 1)%Z with (Zpos (Pos.of_succ_nat count)) by lia.
  rewrite number_to_string_integer by lia.
  reflexivity.
Qed.

(** X8. On a store of [n] records whose write is accepted, the
    [create-user] tool answers [User <n+1> created successfully] with
    the id written as a decimal numeral without sign, leading zeros,
    fraction or exponent ([n + 1] below [2^52]). *)
Theorem create_user_spells_the_id :
  forall p s elems,
    users_of s = Some (VArr elems) ->
    writable s = true ->
    (Z.of_nat (List.length elems) + 1 < 2 ^ 52)%Z ->
    fst (create_user p s)
    = Return (text_result
                (lit "User " ++ decimal_digits (N.of_nat (S (List.length elems)))
                 ++ lit " created successfully")).
Proof.
  intros p s elems Hu Hw Hn.
  destruct (createUser_spec s elems Hu (params_value p)) as [data [_ Hc]].
  rewrite Hw in Hc. unfold create_user, try_catch, bind. rewrite Hc.
  cbn [ret fst]. unfold next_id. rewrite created_message_decimal by exact Hn.
  reflexivity.
Qed.

Lemma create_user_spells_the_id_witness :
  let ana := mkParams (lit "Ana") (lit "ana@x.com") (lit "1 Rd") (lit "555") in
  let s := mkState (Some (lit "[1,2,3,4,5,6,7,8,9]")) true None in
  fst (create_user ana s)
  = Return (text_result (lit "User 10 created successfully")).
Proof.
  intros ana s.
  refine (create_user_spells_the_id ana s
            (map (fun z => VNum (Int z)) [1; 2; 3; 4; 5; 6; 7; 8; 9]%Z) _ _ _).
  - vm_compute; reflexivity.
  - reflexivity.
  - vm_compute; reflexivity.
Defined.

(** ** Lookup by the decimal text of an id *)

Lemma array_find_records (userId : jstring) (ps : list UserParams) :
  forall (count i : nat) (p : UserParams),
    nth_error ps i = Some p ->
    Number userId = Int (Z.of_nat (count + i) + 1) ->
    array_find (matches userId) (records_from count ps)
    = Return (user_record (Int (Z.of_nat (count + i) + 1)) p).
Proof.
  induction ps as [|q rest IH]; intros count i p Hi Hn.
  - destruct i; discriminate Hi.
  - cbn [records_from array_find]. unfold matches at 1.
    rewrite get_id_user_record. cbn [equals_number]. rewrite Hn.
    destruct i as [|i]; cbn [nth_error] in Hi.
    + injection Hi as ->. rewrite Nat.add_0_r.
      rewrite number_equal_refl_int. reflexivity.
    + rewrite number_equal_int_neq by lia.
      replace (count + S i) with (S count + i) in * by lia.
      apply IH; assumption.
Qed.

(** X9. Every record that sequential appends add to an empty store is
    found by the [user-details] resource under the decimal numeral of
    its id: the lookup of [i + 1] returns the fields of the call number
    [i] together with that id. *)
Theorem appended_record_found_by_its_numeral :
  forall ps s0 rs s href i p,
    users_of s0 = Some (VArr []) ->
    appends ps s0 = (rs, s) ->
    nth_error ps i = Some p ->
    (Z.of_nat (List.length ps) < 2 ^ 53)%Z ->
    fst (user_details href (decimal_digits (N.of_nat (S i))) s)
    = Return (json_resource href (user_record (Int (Z.of_nat i + 1)) p)).
Proof.
  intros ps s0 rs s href i p Hu Hrun Hi Hlen.
  destruct (appends_spec ps s0 [] rs s Hu Hrun) as (_ & Hs & _).
  cbn [app List.length] in Hs.
  assert (Hlt : i < List.length ps) by (apply nth_error_Some; congruence).
  rewrite user_details_spec, Hs. cbn [find_user].
  rewrite (array_find_records _ ps 0 i p Hi).
  - reflexivity.
  - rewrite Number_decimal_digits by lia. f_equal. lia.
Qed.

Lemma appended_record_found_by_its_numeral_witness :
  let ana := mkParams (lit "Ana") (lit "ana@x.com") (lit "1 Rd") (lit "555") in
  let bo := mkParams (lit "Bo") (lit "bo@x.com") (lit "2 Rd") (lit "556") in
  let s0 := mkState (Some (lit "[]")) true None in
  fst (user_details (lit "users://2/details") (lit "2") (snd (appends [ana; bo] s0)))
  = Return (json_resource (lit "users://2/details") (user_record (Int 2) bo)).
Proof.
  intros ana bo s0.
  refine (appended_record_found_by_its_numeral [ana; bo] s0
            (fst (appends [ana; bo] s0)) _ (lit "users://2/details") 1 bo _ _ _ _).
  - vm_compute; reflexivity.
  - vm_compute; reflexivity.
  - reflexivity.
  - vm_compute; reflexivity.
Defined.

(** ** The test of the lookup *)











(** ** The spread that builds a record *)

Lemma str_eqb_eq (a b : jstring) : str_eqb a b = true <-> a = b.
Proof.
  revert b. induction a as [|x a IH]; intros [|y b]; cbn [str_eqb];
    try (split; [discriminate|discriminate]); [tauto|].
  rewrite andb_true_iff, N.eqb_eq, IH. split.
  - intros [-> ->]. reflexivity.
  - intros E. injection E as -> ->. auto.
Qed.

Lemma str_eqb_refl (a : jstring) : str_eqb a a = true.
Proof. apply str_eqb_eq. reflexivity. Qed.

Lemma str_eqb_trans_false (k k' k'' : jstring) :
  str_eqb k' k'' = true -> str_eqb k k'' = str_eqb k k'.
Proof. intros E. apply str_eqb_eq in E. subst. reflexivity. Qed.

Lemma lookup_overwrite (k k' : jstring) (v : value) (ps : props) :
  lookup k (overwrite k' v ps)
  = match lookup k' ps with
    | Some _ => if str_eqb k k' then Some v else lookup k ps
    | None => lookup k ps
    end.
Proof.
  induction ps as [|[k0 v0] ps IH]; [reflexivity|].
  cbn [overwrite lookup]. destruct (str_eqb k' k0) eqn:E.
  - cbn [lookup]. rewrite (str_eqb_trans_false k k' k0 E).
    destruct (str_eqb k k'); reflexivity.
  - cbn [lookup]. rewrite IH. destruct (str_eqb k k0) eqn:E0.
    + destruct (lookup k' ps); [|reflexivity].
      destruct (str_eqb k k') eqn:E1; [|reflexivity].
      apply str_eqb_eq in E0, E1. subst. rewrite str_eqb_refl in E. discriminate.
    + reflexivity.
Qed.

Lemma lookup_insert_index (k k' : jstring) (i : Z) (v : value) (ps : props) :
  lookup k' ps = None ->
  lookup k (insert_index i k' v ps) = if str_eqb k k' then Some v else lookup k ps.
Proof.
  induction ps as [|[k0 v0] ps IH]; intros Hn; [reflexivity|].
  cbn [lookup] in Hn. destruct (str_eqb k' k0) eqn:E; [discriminate|].
  cbn [insert_index].
  destruct (array_index k0) as [j|]; [destruct (j <? i)%Z|]; cbn [lookup];
    try reflexivity.
  rewrite (IH Hn). destruct (str_eqb k k0) eqn:E0; [|reflexivity].
  destruct (str_eqb k k') eqn:E1; [|reflexivity].
  apply str_eqb_eq in E0, E1. subst. rewrite str_eqb_refl in E. discriminate.
Qed.

Lemma lookup_app (k : jstring) (ps qs : props) :
  lookup k (ps ++ qs) = match lookup k ps with Some v => Some v | None => lookup k qs end.
Proof.
  induction ps as [|[k0 v0] ps IH]; [reflexivity|].
  cbn [app lookup]. destruct (str_eqb k k0); [reflexivity | exact IH].
Qed.

(** A property defined on an object is read back; the other
    properties keep their values. *)
Lemma lookup_define_prop (k k' : jstring) (v : value) (ps : props) :
  lookup k (define_prop k' v ps) = if str_eqb k k' then Some v else lookup k ps.
Proof.
  unfold define_prop. destruct (lookup k' ps) as [v0|] eqn:E.
  - rewrite lookup_overwrite, E. reflexivity.
  - destruct (array_index k') as [i|].
    + apply lookup_insert_index. exact E.
    + rewrite lookup_app. cbn [lookup].
      destruct (str_eqb k k') eqn:E1.
      * apply str_eqb_eq in E1. subst. rewrite E. reflexivity.
      * destruct (lookup k ps); reflexivity.
Qed.

(** In [{ ...target, ...src }] a property of [src] wins over one of
    [target]. *)
Lemma lookup_spread (k : jstring) (src : value) (target : props) :
  lookup k (spread target src)
  = match lookup k (rev (own_enumerable src)) with
    | Some v => Some v
    | None => lookup k target
    end.
Proof.
  unfold spread. generalize (own_enumerable src) as l. intros l. revert target.
  induction l as [|[k0 v0] l IH]; intros target; [reflexivity|].
  cbn [fold_left rev fst snd]. rewrite IH, lookup_app, lookup_define_prop.
  cbn [lookup]. destruct (lookup k (rev l)); [reflexivity|].
  destruct (str_eqb k k0); reflexivity.
Qed.

Lemma get_id_new_record (id : number) (src : value) :
  get_id (new_record id src)
  = Return (match lookup (lit "id") (rev (own_enumerable src)) with
            | Some v => v
            | None => VNum id
            end).
Proof.
  unfold new_record. cbn [get_id]. rewrite lookup_spread.
  destruct (lookup (lit "id") (rev (own_enumerable src))); reflexivity.
Qed.

(** X10. When the generated text parses to an object that has an [id]
    of its own, [{ id, ...params }] stores the record under that
    generated [id], whatever it is, while the answer names the id that
    [createUser] assigned from the length of the store. *)
Theorem generated_id_replaces_the_assigned_one :
  forall text ps v s elems,
    JSON.parse (strip_fences text) = Some (VObj ps) ->
    lookup (lit "id") (rev ps) = Some v ->
    users_of s = Some (VArr elems) ->
    writable s = true ->
    exists s' new,
      create_random_user (Return (TextContent text)) s
      = (Return (text_result (created_message (next_id elems))), s')
      /\ users_of s' = Some (VArr (elems ++ [new]))
      /\ get_id new = Return v.
Proof.
  intros text ps v s elems Hp Hid Hu Hw.
  destruct (createUser_spec s elems Hu (VObj ps)) as [data [_ Hc]].
  rewrite Hw in Hc.
  exists (set_file data
            (set_loaded (VArr (elems ++ [new_record (next_id elems) (VObj ps)])) s)),
    (new_record (next_id elems) (VObj ps)).
  split; [|split].
  - rewrite (create_random_user_parsed text (VObj ps) s Hp), Hc. reflexivity.
  - reflexivity.
  - rewrite get_id_new_record. cbn [own_enumerable]. rewrite Hid. reflexivity.
Qed.

Lemma generated_id_replaces_the_assigned_one_witness :
  let text := lit "{" ++ JSON.quote (lit "id") ++ lit ":" ++ JSON.quote (lit "root") ++ lit "}" in
  let s := mkState (Some (lit "[]")) true None in
  exists s' new,
    create_random_user (Return (TextContent text)) s
    = (Return (text_result (lit "User 1 created successfully")), s')
    /\ users_of s' = Some (VArr [new])
    /\ get_id new = Return (VStr (lit "root")).
Proof.
  intros text s.
  refine (generated_id_replaces_the_assigned_one text
            [(lit "id", VStr (lit "root"))] (VStr (lit "root")) s [] _ _ _ _).
  - vm_compute; reflexivity.
  - vm_compute; reflexivity.
  - vm_compute; reflexivity.
  - reflexivity.
Defined.

(** ** What [JSON.stringify] writes, [JSON.parse] reads *)

Lemma parse_string_plain (c : code_unit) (t : jstring) :
  c <> QUOTE -> c <> BACKSLASH -> (32 <= c)%N ->
  parse_string Plain (c :: t) = cons_result c (parse_string Plain t).
Proof.
  intros Hq Hb Hc. cbn [parse_string].
  destruct (N.eqb_spec c QUOTE); [contradiction|].
  destruct (N.ltb_spec c 32); [lia|].
  destruct (N.eqb_spec c BACKSLASH); [contradiction|]. reflexivity.
Qed.

Lemma parse_string_escape (e u : code_unit) (t : jstring) :
  is_ch "u" e = false -> escape_char e = Some u ->
  parse_string Plain (BACKSLASH :: e :: t) = cons_result u (parse_string Plain t).
Proof.
  intros Hu He.
  change (parse_string Plain (BACKSLASH :: e :: t))
    with (if is_ch "u" e then parse_string (Hex 3 0) t
          else match escape_char e with
               | Some u => cons_result u (parse_string Plain t)
               | None => None
               end).
  rewrite Hu, He. reflexivity.
Qed.

Lemma digit_in_hex_digit (d : N) :
  (d < 16)%N -> digit_in 16 (hex_digit d) = Some (Z.of_N d).
Proof.
  intros Hd. unfold hex_digit, digit_in.
  destruct (N.ltb_spec d 10).
  - rewrite N2Z.inj_add. change (Z.of_N 48) with 48%Z.
    destruct (Z.leb_spec 48 (48 + Z.of_N d)); [|lia].
    destruct (Z.leb_spec (48 + Z.of_N d) 57); [|lia]. cbn [andb].
    destruct (Z.ltb_spec (48 + Z.of_N d - 48) 16); [|lia]. f_equal. lia.
  - rewrite N2Z.inj_add. change (Z.of_N 87) with 87%Z.
    destruct (Z.leb_spec 48 (87 + Z.of_N d)); [|lia].
    destruct (Z.leb_spec (87 + Z.of_N d) 57); [lia|]. cbn [andb].
    destruct (Z.leb_spec 97 (87 + Z.of_N d)); [|lia].
    destruct (Z.leb_spec (87 + Z.of_N d) 102); [|lia]. cbn [andb].
    destruct (Z.ltb_spec (87 + Z.of_N d - 87) 16); [|lia]. f_equal. lia.
Qed.

Lemma parse_string_unicode (c : code_unit) (t : jstring) :
  (c < 65536)%N ->
  parse_string Plain (unicode_escape c ++ t) = cons_result c (parse_string Plain t).
Proof.
  intros Hc. unfold unicode_escape. cbn [app].
  change (parse_string Plain
            (BACKSLASH :: ch "u" :: hex_digit (c / 4096 mod 16) :: hex_digit (c / 256 mod 16)
               :: hex_digit (c / 16 mod 16) :: hex_digit (c mod 16) :: t))
    with (parse_string (Hex 3 0)
            (hex_digit (c / 4096 mod 16) :: hex_digit (c / 256 mod 16)
               :: hex_digit (c / 16 mod 16) :: hex_digit (c mod 16) :: t)).
  cbn [parse_string].
  rewrite !digit_in_hex_digit by (apply N.mod_lt; discriminate).
  f_equal. apply N2Z.inj. rewrite Z2N.id.
  - rewrite !N2Z.inj_mod, !N2Z.inj_div.
    change (Z.of_N 4096) with 4096%Z. change (Z.of_N 256) with 256%Z.
    change (Z.of_N 16) with 16%Z.
    assert (0 <= Z.of_N c < 65536)%Z as Hz by lia.
    generalize dependent (Z.of_N c). intros z Hz.
    Z.to_euclidean_division_equations. lia.
  - rewrite !N2Z.inj_mod, !N2Z.inj_div.
    change (Z.of_N 4096) with 4096%Z. change (Z.of_N 256) with 256%Z.
    change (Z.of_N 16) with 16%Z.
    assert (0 <= Z.of_N c)%Z as Hz by lia.
    generalize dependent (Z.of_N c). intros z Hz.
    Z.to_euclidean_division_equations. lia.
Qed.

(** The string lexer reads a quoted string back, code unit by code
    unit: escapes, lone surrogates and surrogate pairs included. *)
Lemma parse_string_quote_units (s : jstring) :
  forall r, parse_string Plain (quote_units s ++ QUOTE :: r) = Some (s, r).
Proof.
  remember (List.length s) as n eqn:Hn.
  assert (Hle : List.length s <= n) by lia. clear Hn. revert s Hle.
  induction n as [|n IH]; intros s Hle r.
  { destruct s; [reflexivity | cbn in Hle; lia]. }
  destruct s as [|c s]; [reflexivity|]. cbn [List.length] in Hle.
  assert (IHs : forall r, parse_string Plain (quote_units s ++ QUOTE :: r) = Some (s, r))
    by (intros r'; apply IH; lia).
  cbn [quote_units].
  destruct (N.eqb_spec c 8) as [->|H8].
  { cbn [app]. rewrite (parse_string_escape (ch "b") 8%N) by reflexivity.
    rewrite IHs. reflexivity. }
  destruct (N.eqb_spec c 9) as [->|H9].
  { cbn [app]. rewrite (parse_string_escape (ch "t") 9%N) by reflexivity.
    rewrite IHs. reflexivity. }
  destruct (N.eqb_spec c 10) as [->|H10].
  { cbn [app]. rewrite (parse_string_escape (ch "n") 10%N) by reflexivity.
    rewrite IHs. reflexivity. }
  destruct (N.eqb_spec c 12) as [->|H12].
  { cbn [app]. rewrite (parse_string_escape (ch "f") 12%N) by reflexivity.
    rewrite IHs. reflexivity. }
  destruct (N.eqb_spec c 13) as [->|H13].
  { cbn [app]. rewrite (parse_string_escape (ch "r") 13%N) by reflexivity.
    rewrite IHs. reflexivity. }
  destruct (N.eqb_spec c QUOTE) as [->|Hq].
  { cbn [app]. rewrite (parse_string_escape QUOTE QUOTE) by reflexivity.
    rewrite IHs. reflexivity. }
  destruct (N.eqb_spec c BACKSLASH) as [->|Hb].
  { cbn [app]. rewrite (parse_string_escape BACKSLASH BACKSLASH) by reflexivity.
    rewrite IHs. reflexivity. }
  destruct (N.ltb_spec c 32) as [H32|H32].
  { rewrite <- app_assoc, parse_string_unicode by lia. rewrite IHs. reflexivity. }
  unfold is_high_surrogate, is_low_surrogate.
  destruct (N.leb_spec 55296 c) as [Hh1|Hh1];
    [destruct (N.leb_spec c 56319) as [Hh2|Hh2]|]; cbn [andb].
  - destruct s as [|d s'].
    + rewrite parse_string_unicode by lia. reflexivity.
    + destruct (N.leb_spec 56320 d) as [Hl1|Hl1];
        [destruct (N.leb_spec d 57343) as [Hl2|Hl2]|]; cbn [andb].
      * cbn [app]. unfold QUOTE, BACKSLASH in *.
        rewrite parse_string_plain by (unfold QUOTE, BACKSLASH; lia).
        rewrite parse_string_plain by (unfold QUOTE, BACKSLASH; lia).
        cbn [List.length] in Hle. rewrite (IH s') by lia. reflexivity.
      * rewrite <- app_assoc, parse_string_unicode by lia. rewrite IHs. reflexivity.
      * rewrite <- app_assoc, parse_string_unicode by lia. rewrite IHs. reflexivity.
  - destruct (N.leb_spec 56320 c) as [Hl1|Hl1];
      [destruct (N.leb_spec c 57343) as [Hl2|Hl2]|]; cbn [andb]; try lia.
    + rewrite <- app_assoc, parse_string_unicode by lia. rewrite IHs. reflexivity.
    + cbn [app]. rewrite parse_string_plain by assumption. rewrite IHs. reflexivity.
  - destruct (N.leb_spec 56320 c) as [Hl1|Hl1]; [lia|]. cbn [andb].
    cbn [app]. rewrite parse_string_plain by assumption. rewrite IHs. reflexivity.
Qed.

Lemma decimal_value_signed (neg : bool) (p : positive) :
  (Zpos p < 2 ^ 53)%Z -> decimal_value neg (Zpos p) 0 = Int (signed neg (Zpos p)).
Proof.
  intros Hp. unfold decimal_value. change (0 <=? 0)%Z with true. cbn match.
  change (Z.to_pos (10 ^ 0)) with 1%positive. rewrite Pos.mul_1_r.
  apply round_double_integer. exact Hp.
Qed.

Lemma decimal_digits_pos_head (p : positive) :
  exists c t, decimal_digits (Npos p) = c :: t
              /\ is_digit c = true /\ is_ch "0" c = false.
Proof.
  unfold decimal_digits. cbn [N.to_uint].
  pose proof (to_uint_shape p) as Hs.
  destruct (Pos.to_uint p); try contradiction; cbn [uint_units];
    do 2 eexists; (split; [reflexivity|]); split; reflexivity.
Qed.

Lemma ends_number_no_digit (r : jstring) : ends_number r -> no_digit_head r.
Proof. destruct r as [|c r]; [trivial|]. intros [H _]. exact H. Qed.

Lemma frac_part_none (ip : Z) (r : jstring) :
  ends_number r -> frac_part ip r = Some (ip, 0%Z, r).
Proof.
  destruct r as [|c r]; [reflexivity|]. intros (_ & Hd & _).
  cbn [frac_part]. rewrite Hd. reflexivity.
Qed.

Lemma exp_part_none (r : jstring) : ends_number r -> exp_part r = Some (0%Z, r).
Proof.
  destruct r as [|c r]; [reflexivity|]. intros (_ & _ & He & HE).
  cbn [exp_part]. rewrite He, HE. reflexivity.
Qed.

Lemma unsigned_number_digits (neg : bool) (p : positive) (r : jstring) :
  (Zpos p < 2 ^ 53)%Z -> ends_number r ->
  unsigned_number neg (decimal_digits (Npos p) ++ r)
  = Some (VNum (Int (signed neg (Zpos p))), r).
Proof.
  intros Hp Hr. unfold unsigned_number.
  destruct (decimal_digits_pos_head p) as (c & t & E & Hc & H0).
  assert (Hint : int_part (decimal_digits (Npos p) ++ r) = Some (Zpos p, r)).
  { pose proof (read_decimal_digits (Npos p) r (ends_number_no_digit r Hr)) as Hrd.
    rewrite E in *. cbn [app] in *. cbn [int_part]. rewrite H0, Hc, Hrd. reflexivity. }
  rewrite Hint, (frac_part_none _ r Hr), (exp_part_none r Hr).
  change (0 - 0)%Z with 0%Z. rewrite decimal_value_signed by exact Hp. reflexivity.
Qed.

Lemma digit_dispatch (c : code_unit) :
  is_digit c = true ->
  is_ch "[" c = false /\ is_ch "{" c = false /\ N.eqb c QUOTE = false
  /\ is_ch "-" c = false.
Proof.
  unfold is_digit, is_ch. intros H. apply andb_true_iff in H. destruct H as [H1 H2].
  apply N.leb_le in H1, H2.
  change (ch "[") with 91%N. change (ch "{") with 123%N. change (ch "-") with 45%N.
  unfold QUOTE.
  repeat split; apply N.eqb_neq; lia.
Qed.

(** An integer below [2^52] in magnitude is read back from its text. *)
Lemma parse_value_integer (z : Z) (r : jstring) (f : nat) :
  (Z.abs z < 2 ^ 52)%Z -> ends_number r ->
  parse_value (S f) (number_to_string (Int z) ++ r) = Some (VNum (Int z), r).
Proof.
  intros Hz Hr. destruct z as [|p|p].
  - change (number_to_string (Int 0)) with [ch "0"]. cbn [app].
    rewrite parse_value_S.
    change (is_ch "[" (ch "0")) with false. change (is_ch "{" (ch "0")) with false.
    change (ch "0" =? QUOTE)%N with false. change (is_digit (ch "0")) with true.
    cbn [orb]. cbv iota. unfold parse_number. change (is_ch "-" (ch "0")) with false.
    cbv iota. unfold unsigned_number. cbn [int_part].
    change (is_ch "0" (ch "0")) with true. cbv iota.
    rewrite (frac_part_none _ r Hr), (exp_part_none r Hr). reflexivity.
  - rewrite number_to_string_integer by lia.
    pose proof (unsigned_number_digits false p r ltac:(lia) Hr) as Hu.
    destruct (decimal_digits_pos_head p) as (c & t & E & Hc & _).
    destruct (digit_dispatch c Hc) as (H1 & H2 & H3 & H4).
    rewrite E in *. cbn [app] in *. rewrite parse_value_S.
    rewrite H1, H2, H3, Hc. cbn [orb]. unfold parse_number. rewrite H4. exact Hu.
  - change (number_to_string (Int (Zneg p)))
      with (lit "-" ++ number_to_string (Int (Zpos p))).
    rewrite number_to_string_integer by lia.
    change (lit "-") with [ch "-"]. cbn [app]. rewrite parse_value_S.
    change (is_ch "[" (ch "-")) with false. change (is_ch "{" (ch "-")) with false.
    change (ch "-" =? QUOTE)%N with false. change (is_digit (ch "-")) with false.
    change (is_ch "-" (ch "-")) with true. cbn [orb]. cbv iota.
    unfold parse_number. change (is_ch "-" (ch "-")) with true. cbv iota.
    apply (unsigned_number_digits true p r); [lia | exact Hr].
Qed.

Lemma value_nested_ind (P : value -> Prop) :
  P VUndefined -> P VNull -> (forall b, P (VBool b)) -> (forall n, P (VNum n)) ->
  (forall s, P (VStr s)) ->
  (forall l, Forall P l -> P (VArr l)) ->
  (forall ps, Forall (fun kx => P (snd kx)) ps -> P (VObj ps)) ->
  forall v, P v.
Proof.
  intros HU HN HB HNum HS HA HO. fix IH 1.
  intros [| |b|n|s|l|ps];
    [exact HU | exact HN | apply HB | apply HNum | apply HS | |].
  - apply HA. induction l as [|x l IHl]; constructor; [apply IH | exact IHl].
  - apply HO. induction ps as [|[k x] ps IHps]; constructor; [apply IH | exact IHps].
Qed.

Lemma plain_array (l : list value) : plain (VArr l) <-> Forall plain l.
Proof.
  cbn [plain]. induction l as [|x l IH]; split; intros H.
  - constructor.
  - exact I.
  - destruct H as [Hx Hl]. constructor; [exact Hx | apply IH; exact Hl].
  - inversion H as [|? ? Hx Hl]. split; [exact Hx | apply IH; exact Hl].
Qed.

Lemma plain_object (ps : props) :
  plain (VObj ps) <-> Forall (fun kx => plain (snd kx)) ps /\ define_all ps [] = ps.
Proof.
  cbn [plain]. apply and_iff_compat_r.
  induction ps as [|[k x] ps IH]; split; intros H.
  - constructor.
  - exact I.
  - destruct H as [Hx Hl]. constructor; [exact Hx | apply IH; exact Hl].
  - inversion H as [|? ? Hx Hl]. split; [exact Hx | apply IH; exact Hl].
Qed.

Lemma serialize_array (gap indent : jstring) (l : list value) :
  serialize gap indent (VArr l)
  = Some (wrap (lit "[") (lit "]") gap indent (map (text_of gap (indent ++ gap)) l)).
Proof.
  reflexivity.
Qed.

Lemma plain_serialize (gap indent : jstring) (v : value) :
  plain v -> serialize gap indent v = Some (text_of gap indent v).
Proof.
  intros H. unfold text_of.
  destruct v as [| |b|n|s|l|ps]; try reflexivity; try contradiction.
  destruct n; reflexivity.
Qed.

Lemma serialize_object (gap indent : jstring) (ps : props) :
  Forall (fun kx => plain (snd kx)) ps ->
  serialize gap indent (VObj ps)
  = Some (wrap (lit "{") (lit "}") gap indent
            (map (fun kx => quote (fst kx) ++ colon gap
                            ++ text_of gap (indent ++ gap) (snd kx)) ps)).
Proof.
  intros H. cbn [serialize]. do 2 f_equal.
  induction H as [|[k x] ps Hx _ IH]; [reflexivity|].
  cbn [map fst snd]. cbn [snd] in Hx.
  rewrite (plain_serialize gap (indent ++ gap) x Hx). rewrite <- IH. reflexivity.
Qed.

Lemma wrap_nonempty (open close gap indent p : jstring) (parts : list jstring) :
  white gap -> white indent ->
  exists w1 w2,
    white w1 /\ white w2
    /\ wrap open close gap indent (p :: parts)
       = open ++ w1 ++ join (lit "," ++ w1) (p :: parts) ++ w2 ++ close.
Proof.
  intros Hg Hi. destruct gap as [|g gap].
  - exists [], []. split; [constructor|]. split; [constructor|].
    unfold wrap. rewrite app_nil_r. reflexivity.
  - exists ([LF] ++ indent ++ g :: gap), ([LF] ++ indent).
    split; [|split].
    + constructor; [reflexivity|]. apply Forall_app. split; assumption.
    + constructor; [reflexivity | assumption].
    + unfold wrap. cbn [app]. rewrite <- !app_assoc. reflexivity.
Qed.

Lemma join_cons (sep x : jstring) (rest : list jstring) :
  rest <> [] -> join sep (x :: rest) = x ++ sep ++ join sep rest.
Proof. destruct rest; [congruence | reflexivity]. Qed.

Lemma white_not_number (w : jstring) (c : code_unit) (r : jstring) :
  white w -> ends_number (c :: r) -> ends_number (w ++ c :: r).
Proof.
  intros Hw Hc. destruct w as [|x w]; [exact Hc|].
  inversion Hw as [|? ? Hx _]. cbn [app ends_number].
  unfold is_json_ws in Hx. unfold is_ch, digit_in.
  change (ch ".") with 46%N. change (ch "e") with 101%N. change (ch "E") with 69%N.
  assert (Hcases : x = 9%N \/ x = 10%N \/ x = 13%N \/ x = 32%N).
  { repeat (apply orb_true_iff in Hx; destruct Hx as [Hx|Hx]);
      apply N.eqb_eq in Hx; auto. }
  destruct Hcases as [-> | [-> | [-> | ->]]]; repeat split; reflexivity.
Qed.

Lemma parsed_starts (f : nat) (s : jstring) (v : value) (r : jstring) :
  parse_value f s = Some (v, r) -> skip_ws s = s.
Proof.
  intros H. destruct (proj1 (parsers_prefix_ok f) _ _ _ H) as [c [-> [Hd _]]].
  apply delimited_starts. exact Hd.
Qed.

Lemma parsed_head (f : nat) (s : jstring) (v : value) (r : jstring) :
  parse_value f s = Some (v, r) ->
  exists c t, s = c :: t /\ is_ch "]" c = false.
Proof.
  intros H. destruct f as [|f]; [discriminate|]. destruct s as [|c t]; [discriminate|].
  exists c, t. split; [reflexivity|].
  destruct (is_ch "]" c) eqn:E; [|reflexivity].
  apply N.eqb_eq in E. subst c. rewrite parse_value_S in H. discriminate H.
Qed.

Lemma colon_shape (gap : jstring) :
  exists w, white w /\ colon gap = ch ":" :: w.
Proof.
  destruct gap; [exists [] | exists [ch " "]]; split; try reflexivity;
    repeat constructor.
Qed.

Section Texts.

Variable gap : jstring.
Hypothesis Hgap : white gap.

Lemma elements_read_back (indent w1 w2 : jstring) (l : list value) :
  white indent -> white w1 -> white w2 ->
  Forall (reads_back gap) l -> Forall plain l -> l <> [] ->
  forall acc r,
  exists f0, forall f, f0 <= f ->
    parse_elements f acc
      (join (lit "," ++ w1) (map (text_of gap indent) l) ++ w2 ++ ch "]" :: r)
    = Some (VArr (rev acc ++ l), r).
Proof.
  intros Hi Hw1 Hw2 HP Hpl. induction l as [|x l IH]; intros Hne acc r; [congruence|].
  inversion HP as [|? ? Hx HPl]. inversion Hpl as [|? ? Hpx Hpll]. subst.
  destruct l as [|y l'].
  - cbn [map join].
    assert (Hend : ends_number (w2 ++ ch "]" :: r)).
    { apply white_not_number; [exact Hw2|]. repeat split; reflexivity. }
    destruct (Hx indent (w2 ++ ch "]" :: r) Hi Hpx Hend) as [f1 Hf1].
    exists (S f1). intros f Hf. destruct f as [|f]; [lia|].
    rewrite parse_elements_S, Hf1 by lia.
    rewrite skip_ws_app by exact Hw2. rewrite skip_ws_stop by reflexivity.
    change (is_ch "," (ch "]")) with false. change (is_ch "]" (ch "]")) with true.
    reflexivity.
  - destruct (IH HPl Hpll ltac:(discriminate) (x :: acc) r) as [f2 Hf2].
    set (rest := join (lit "," ++ w1) (map (text_of gap indent) (y :: l'))
                 ++ w2 ++ ch "]" :: r) in *.
    assert (Hjoin : join (lit "," ++ w1) (map (text_of gap indent) (x :: y :: l'))
                    ++ w2 ++ ch "]" :: r
                    = text_of gap indent x ++ ch "," :: w1 ++ rest).
    { cbn [map]. rewrite join_cons by discriminate.
      unfold rest. cbn [map]. norm_app. reflexivity. }
    rewrite Hjoin.
    assert (Hend : ends_number (ch "," :: w1 ++ rest)) by (repeat split; reflexivity).
    destruct (Hx indent (ch "," :: w1 ++ rest) Hi Hpx Hend) as [f1 Hf1].
    assert (Hstart : skip_ws rest = rest).
    { specialize (Hf2 (S f2) ltac:(lia)). rewrite parse_elements_S in Hf2.
      destruct (parse_value f2 rest) as [[v' r']|] eqn:Ev; [|discriminate].
      exact (parsed_starts _ _ _ _ Ev). }
    exists (S (Nat.max f1 f2)). intros f Hf. destruct f as [|f]; [lia|].
    rewrite parse_elements_S, Hf1 by lia.
    rewrite skip_ws_stop by reflexivity.
    change (is_ch "," (ch ",")) with true. cbv iota.
    rewrite skip_ws_app by exact Hw1. rewrite Hstart, Hf2 by lia.
    cbn [rev]. rewrite <- app_assoc. reflexivity.
Qed.

Lemma members_read_back (indent w1 w2 : jstring) (ps : props) :
  white indent -> white w1 -> white w2 ->
  Forall (fun kx => reads_back gap (snd kx)) ps ->
  Forall (fun kx => plain (snd kx)) ps -> ps <> [] ->
  forall acc r,
  exists f0, forall f, f0 <= f ->
    parse_members f acc
      (join (lit "," ++ w1)
         (map (fun kx => quote (fst kx) ++ colon gap
                         ++ text_of gap indent (snd kx)) ps)
       ++ w2 ++ ch "}" :: r)
    = Some (VObj (define_all ps acc), r).
Proof.
  intros Hi Hw1 Hw2 HP Hpl.
  destruct (colon_shape gap) as (wc & Hwc & ->).
  induction ps as [|[k x] ps IH]; intros Hne acc r; [congruence|].
  inversion HP as [|? ? Hx HPl]. inversion Hpl as [|? ? Hpx Hpll]. subst.
  cbn [snd] in Hx, Hpx.
  assert (Hmember : forall rest,
             (quote k ++ (ch ":" :: wc) ++ text_of gap indent x) ++ rest
             = QUOTE :: quote_units k
               ++ QUOTE :: ch ":" :: wc ++ text_of gap indent x ++ rest).
  { intros rest. unfold quote. norm_app. reflexivity. }
  destruct ps as [|kx' ps'].
  - cbn [map join fst snd]. rewrite Hmember.
    assert (Hend : ends_number (w2 ++ ch "}" :: r)).
    { apply white_not_number; [exact Hw2|]. repeat split; reflexivity. }
    destruct (Hx indent (w2 ++ ch "}" :: r) Hi Hpx Hend) as [f1 Hf1].
    pose proof (parsed_starts _ _ _ _ (Hf1 f1 (le_n _))) as Hstart.
    exists (S f1). intros f Hf. destruct f as [|f]; [lia|].
    rewrite parse_members_S. change (QUOTE =? QUOTE)%N with true. cbv iota.
    rewrite parse_string_quote_units.
    rewrite skip_ws_stop by reflexivity.
    change (is_ch ":" (ch ":")) with true. cbv iota.
    rewrite skip_ws_app by exact Hwc. rewrite Hstart, Hf1 by lia.
    rewrite skip_ws_app by exact Hw2. rewrite skip_ws_stop by reflexivity.
    change (is_ch "," (ch "}")) with false. change (is_ch "}" (ch "}")) with true.
    reflexivity.
  - destruct (IH HPl Hpll ltac:(discriminate) (define_prop k x acc) r) as [f2 Hf2].
    set (member := fun kx : jstring * value =>
                     quote (fst kx) ++ (ch ":" :: wc) ++ text_of gap indent (snd kx)) in *.
    set (rest := join (lit "," ++ w1) (map member (kx' :: ps')) ++ w2 ++ ch "}" :: r) in *.
    assert (Hjoin : join (lit "," ++ w1) (map member ((k, x) :: kx' :: ps'))
                    ++ w2 ++ ch "}" :: r
                    = member (k, x) ++ ch "," :: w1 ++ rest).
    { cbn [map]. rewrite join_cons by discriminate.
      unfold rest. cbn [map]. norm_app. reflexivity. }
    rewrite Hjoin. unfold member at 1. cbn [fst snd]. rewrite Hmember.
    assert (Hend : ends_number (ch "," :: w1 ++ rest)) by (repeat split; reflexivity).
    destruct (Hx indent (ch "," :: w1 ++ rest) Hi Hpx Hend) as [f1 Hf1].
    pose proof (parsed_starts _ _ _ _ (Hf1 f1 (le_n _))) as Hstart.
    assert (Hrest : skip_ws rest = rest).
    { specialize (Hf2 (S f2) ltac:(lia)). rewrite parse_members_S in Hf2.
      destruct rest as [|q rest']; [discriminate|].
      destruct (N.eqb_spec q QUOTE) as [->|]; [|discriminate].
      apply skip_ws_stop. reflexivity. }
    exists (S (Nat.max f1 f2)). intros f Hf. destruct f as [|f]; [lia|].
    rewrite parse_members_S. change (QUOTE =? QUOTE)%N with true. cbv iota.
    rewrite parse_string_quote_units.
    rewrite skip_ws_stop by reflexivity.
    change (is_ch ":" (ch ":")) with true. cbv iota.
    rewrite skip_ws_app by exact Hwc. rewrite Hstart, Hf1 by lia.
    rewrite skip_ws_stop by reflexivity.
    change (is_ch "," (ch ",")) with true. cbv iota.
    rewrite skip_ws_app by exact Hw1. rewrite Hrest, Hf2 by lia.
    reflexivity.
Qed.

Lemma values_read_back (v : value) : reads_back gap v.
Proof.
  induction v as [| |b|n|s|l IHl|ps IHps] using value_nested_ind;
    intros indent r Hi Hp Hr.
  - contradiction.
  - exists 1. intros f Hf. destruct f as [|f]; [lia|]. reflexivity.
  - exists 1. intros f Hf. destruct f as [|f]; [lia|]. destruct b; reflexivity.
  - destruct n as [| | |z|]; try contradiction.
    exists 1. intros f Hf. destruct f as [|f]; [lia|].
    apply parse_value_integer; assumption.
  - exists 1. intros f Hf. destruct f as [|f]; [lia|].
    change (text_of gap indent (VStr s)) with (QUOTE :: quote_units s ++ [QUOTE]).
    cbn [app]. rewrite parse_value_S.
    change (is_ch "[" QUOTE) with false. change (is_ch "{" QUOTE) with false.
    change (QUOTE =? QUOTE)%N with true. cbv iota.
    rewrite <- app_assoc. cbn [app]. rewrite parse_string_quote_units. reflexivity.
  - apply plain_array in Hp. unfold text_of. rewrite serialize_array.
    destruct l as [|x l].
    + exists 1. intros f Hf. destruct f as [|f]; [lia|]. reflexivity.
    + cbn [map].
      destruct (wrap_nonempty (lit "[") (lit "]") gap indent
                  (text_of gap (indent ++ gap) x)
                  (map (text_of gap (indent ++ gap)) l) Hgap Hi)
        as (w1 & w2 & Hw1 & Hw2 & ->).
      assert (Hig : white (indent ++ gap)) by (apply Forall_app; split; assumption).
      destruct (elements_read_back (indent ++ gap) w1 w2 (x :: l) Hig Hw1 Hw2 IHl Hp
                  ltac:(discriminate) [] r) as [f0 Hf0].
      cbn [map] in Hf0.
      set (body := join (lit "," ++ w1)
                     (text_of gap (indent ++ gap) x
                        :: map (text_of gap (indent ++ gap)) l)) in *.
      assert (Hbody : exists d t, body ++ w2 ++ ch "]" :: r = d :: t
                                  /\ is_ch "]" d = false
                                  /\ skip_ws (d :: t) = d :: t).
      { specialize (Hf0 (S f0) ltac:(lia)). rewrite parse_elements_S in Hf0.
        destruct (parse_value f0 (body ++ w2 ++ ch "]" :: r)) as [[v' r']|] eqn:Ev;
          [|discriminate].
        destruct (parsed_head _ _ _ _ Ev) as (d & t & E & Hd).
        exists d, t. split; [exact E|]. split; [exact Hd|].
        rewrite <- E. exact (parsed_starts _ _ _ _ Ev). }
      destruct Hbody as (d & t & E & Hd & Hsk).
      exists (S f0). intros f Hf. destruct f as [|f]; [lia|].
      replace ((lit "[" ++ w1 ++ body ++ w2 ++ lit "]") ++ r)
        with (ch "[" :: w1 ++ body ++ w2 ++ ch "]" :: r)
        by (norm_app; reflexivity).
      rewrite parse_value_S. change (is_ch "[" (ch "[")) with true. cbv iota.
      rewrite skip_ws_app by exact Hw1. rewrite E, Hsk, Hd, <- E.
      rewrite Hf0 by lia. reflexivity.
  - apply plain_object in Hp. destruct Hp as [Hp Hord].
    unfold text_of. rewrite serialize_object by exact Hp.
    destruct ps as [|[k x] ps].
    + exists 1. intros f Hf. destruct f as [|f]; [lia|]. reflexivity.
    + cbn [map].
      match goal with
      | |- context [parse_value _ (?w ++ r)] =>
          match w with
          | wrap _ _ _ _ (?p :: ?parts) =>
              destruct (wrap_nonempty (lit "{") (lit "}") gap indent p parts Hgap Hi)
                as (w1 & w2 & Hw1 & Hw2 & E);
              replace w
                with (lit "{" ++ w1 ++ join (lit "," ++ w1) (p :: parts) ++ w2 ++ lit "}")
                by (symmetry; exact E);
              clear E
          end
      end.
      assert (Hig : white (indent ++ gap)) by (apply Forall_app; split; assumption).
      destruct (members_read_back (indent ++ gap) w1 w2 ((k, x) :: ps) Hig Hw1 Hw2
                  IHps Hp ltac:(discriminate) [] r) as [f0 Hf0].
      cbn [map] in Hf0. fold (define_all ((k, x) :: ps) []) in Hf0. rewrite Hord in Hf0.
      match type of Hf0 with
      | context [parse_members _ _ (?b ++ _)] => set (body := b) in *
      end.
      assert (Hbody : exists t, body ++ w2 ++ ch "}" :: r = QUOTE :: t).
      { specialize (Hf0 (S f0) ltac:(lia)). rewrite parse_members_S in Hf0.
        destruct (body ++ w2 ++ ch "}" :: r) as [|q t]; [discriminate|].
        destruct (N.eqb_spec q QUOTE) as [->|]; [|discriminate].
        exists t. reflexivity. }
      destruct Hbody as (t & E).
      exists (S f0). intros f Hf. destruct f as [|f]; [lia|].
      replace ((lit "{" ++ w1 ++ body ++ w2 ++ lit "}") ++ r)
        with (ch "{" :: w1 ++ body ++ w2 ++ ch "}" :: r)
        by (norm_app; reflexivity).
      rewrite parse_value_S. change (is_ch "[" (ch "{")) with false.
      change (is_ch "{" (ch "{")) with true. cbv iota.
      rewrite skip_ws_app by exact Hw1. rewrite E.
      rewrite skip_ws_stop by reflexivity.
      change (is_ch "}" QUOTE) with false. cbv iota. rewrite <- E.
      rewrite Hf0 by lia. reflexivity.
Qed.

(** [JSON.parse] reads a plain value back from the text that
    [JSON.stringify] wrote for it, with or without indentation. *)
Lemma parse_serialize (v : value) (t : jstring) :
  plain v -> serialize gap [] v = Some t -> JSON.parse t = Some v.
Proof.
  intros Hp Ht. destruct (values_read_back v [] [] ltac:(constructor) Hp I) as [f0 Hf0].
  specialize (Hf0 f0 (le_n _)). unfold text_of in Hf0. rewrite Ht, app_nil_r in Hf0.
  unfold JSON.parse. rewrite (parsed_starts _ _ _ _ Hf0).
  rewrite (parse_value_fuel _ _ _ _ Hf0). reflexivity.
Qed.

End Texts.

(** ** The file and the module after a write *)

Lemma white_two_spaces : white (lit "  ").
Proof. repeat constructor. Qed.

Lemma stringify_pretty_parse (v : value) (data : jstring) :
  plain v -> JSON.stringify_pretty v = Some data -> JSON.parse data = Some v.
Proof. apply (parse_serialize (lit "  ") white_two_spaces). Qed.

Lemma stringify_parse (v : value) (t : jstring) :
  plain v -> JSON.stringify v = Some t -> JSON.parse t = Some v.
Proof. apply (parse_serialize [] ltac:(constructor)). Qed.

Lemma plain_user_record (z : Z) (p : UserParams) :
  (Z.abs z < 2 ^ 52)%Z -> plain (user_record (Int z) p).
Proof.
  intros Hz. unfold user_record. cbn [plain].
  split; [tauto|]. reflexivity.
Qed.

Lemma plain_records_from (ps : list UserParams) :
  forall count,
    (Z.of_nat (count + List.length ps) < 2 ^ 52)%Z ->
    Forall plain (records_from count ps).
Proof.
  induction ps as [|p ps IH]; intros count Hc; cbn [records_from]; constructor.
  - apply plain_user_record. cbn [List.length] in Hc. lia.
  - apply IH. cbn [List.length] in Hc. lia.
Qed.

Lemma plain_snoc (elems : list value) (x : value) :
  plain (VArr elems) -> plain x -> plain (VArr (elems ++ [x])).
Proof.
  rewrite !plain_array. intros He Hx. apply Forall_app. split; [exact He|].
  constructor; [exact Hx | constructor].
Qed.

(** X11. After [createUser] has returned, the file reads back to the
    array that the module holds: for a store of plain JSON values and a
    record that is one, [JSON.parse] of what [JSON.stringify(users,
    null, 2)] wrote is the in-memory array with the new record at its
    end, so a restarted server imports exactly the records that the
    running one serves. *)
Theorem written_file_reads_back :
  forall params s elems id s',
    users_of s = Some (VArr elems) ->
    plain (VArr elems) ->
    plain (new_record (next_id elems) params) ->
    createUser params s = (Return id, s') ->
    persisted s' = users_of s'
    /\ users_of s' = Some (VArr (elems ++ [new_record id params])).
Proof.
  intros params s elems id s' Hu Hpl Hnew Hc.
  destruct (createUser_spec s elems Hu params) as [data [Hd Hc']].
  rewrite Hc in Hc'. destruct (writable s); [|discriminate].
  injection Hc' as -> ->.
  assert (Hparse : JSON.parse data
                   = Some (VArr (elems ++ [new_record (next_id elems) params]))).
  { apply stringify_pretty_parse; [|exact Hd]. apply plain_snoc; assumption. }
  split; [|reflexivity].
  unfold persisted. cbn [file set_file].
  rewrite (JSON_module_parsed _ _ Hparse). reflexivity.
Qed.

Lemma written_file_reads_back_witness :
  let ana := mkParams (lit "Ana") (lit "ana@x.com") (lit "1 Rd") (lit "555") in
  let s := mkState (Some (lit "[]")) true None in
  let s' := snd (createUser (params_value ana) s) in
  persisted s' = users_of s'
  /\ users_of s' = Some (VArr [user_record (Int 1) ana]).
Proof.
  intros ana s s'.
  refine (written_file_reads_back (params_value ana) s [] (Int 1) s' _ _ _ _).
  - vm_compute; reflexivity.
  - exact I.
  - split; [|vm_compute; reflexivity].
    cbn. repeat split.
  - vm_compute; reflexivity.
Defined.

(** X12. Appends made one after the other on a store of plain values,
    some of them with a refused write: as soon as a write is accepted,
    the file reads back to the whole array of the module, the records
    of the failed calls included. *)
Theorem accepted_write_saves_every_record :
  forall calls p s0 elems rs s,
    users_of s0 = Some (VArr elems) ->
    plain (VArr elems) ->
    (Z.of_nat (List.length elems + List.length calls + 1) < 2 ^ 52)%Z ->
    appends_with (calls ++ [(p, true)]) s0 = (rs, s) ->
    persisted s = users_of s
    /\ users_of s
       = Some (VArr (elems ++ records_from (List.length elems) (map fst calls ++ [p]))).
Proof.
  intros calls p s0 elems rs s Hu Hpl Hlen Hrun.
  destruct (appends_with_spec _ _ _ _ _ Hu Hrun) as [_ Hs].
  destruct (appends_with_file _ _ _ _ _ _ Hu Hrun) as [data [Hf Hd]].
  rewrite map_app in Hs. cbn [map fst] in Hs.
  split; [|exact Hs]. rewrite Hs. unfold persisted. rewrite Hf.
  apply JSON_module_parsed. apply stringify_pretty_parse; [|exact Hd].
  apply plain_array. apply Forall_app. split; [apply plain_array; exact Hpl|].
  apply plain_records_from. rewrite length_app, length_map. cbn [List.length]. lia.
Qed.

Lemma accepted_write_saves_every_record_witness :
  let ana := mkParams (lit "Ana") (lit "ana@x.com") (lit "1 Rd") (lit "555") in
  let bo := mkParams (lit "Bo") (lit "bo@x.com") (lit "2 Rd") (lit "556") in
  let s0 := mkState (Some (lit "[]")) true None in
  let s := snd (appends_with [(ana, false); (bo, true)] s0) in
  persisted s = users_of s
  /\ users_of s = Some (VArr [user_record (Int 1) ana; user_record (Int 2) bo]).
Proof.
  intros ana bo s0 s.
  refine (accepted_write_saves_every_record [(ana, false)] bo s0 []
            (fst (appends_with [(ana, false); (bo, true)] s0)) s _ _ _ _).
  - vm_compute; reflexivity.
  - exact I.
  - vm_compute; reflexivity.
  - vm_compute; reflexivity.
Defined.

(** ** What the resources answer *)

Lemma array_find_in (pred : value -> outcome bool) (elems : list value) (u : value) :
  array_find pred elems = Return u -> u = VUndefined \/ In u elems.
Proof.
  induction elems as [|x rest IH]; cbn [array_find]; intros H.
  - injection H as <-. left. reflexivity.
  - destruct (pred x) as [[|]|e]; [| |discriminate].
    + injection H as <-. right. left. reflexivity.
    + destruct (IH H) as [Hu|Hin]; [left; exact Hu | right; right; exact Hin].
Qed.

(** X13. On a store of plain values the text of the [Users] resource
    parses back to the whole array, and the text of a [user-details]
    lookup that finds a record parses back to that record, which is one
    of the array. *)
Theorem resource_texts_parse_back :
  forall href userId s elems,
    users_of s = Some (VArr elems) ->
    plain (VArr elems) ->
    (exists t,
        fst (users_resource href s)
        = Return (mkResource href (lit "application/json") (Some t))
        /\ JSON.parse t = Some (VArr elems))
    /\ (forall user,
           find_user (VArr elems) userId = Return user ->
           user <> VUndefined ->
           exists t,
             fst (user_details href userId s)
             = Return (mkResource href (lit "application/json") (Some t))
             /\ JSON.parse t = Some user
             /\ In user elems).
Proof.
  intros href userId s elems Hu Hpl. split.
  - exists (text_of [] [] (VArr elems)).
    rewrite users_resource_spec, Hu. cbn [fst]. unfold json_resource, stringify.
    rewrite (plain_serialize [] [] _ Hpl). split; [reflexivity|].
    apply stringify_parse; [exact Hpl|]. apply plain_serialize. exact Hpl.
  - intros user Hfind Hdef.
    destruct (array_find_in _ _ _ Hfind) as [->|Hin]; [congruence|].
    assert (Hpu : plain user).
    { apply plain_array in Hpl. eapply Forall_forall in Hpl; eauto. }
    exists (text_of [] [] user).
    rewrite user_details_spec, Hu, Hfind. cbn [fst].
    assert (Hnn : equals_null user = false).
    { destruct user; try reflexivity. exfalso.
      exact (array_find_not_null userId elems Hfind). }
    rewrite Hnn. unfold json_resource, stringify.
    rewrite (plain_serialize [] [] _ Hpu). split; [reflexivity|].
    split; [|exact Hin].
    apply stringify_parse; [exact Hpu|]. apply plain_serialize. exact Hpu.
Qed.

Lemma resource_texts_parse_back_witness :
  let ana := mkParams (lit "Ana") (lit "ana@x.com") (lit "1 Rd") (lit "555") in
  let s := mkState None true (Some (VArr [user_record (Int 1) ana])) in
  exists t,
    fst (users_resource (lit "user://all") s)
    = Return (mkResource (lit "user://all") (lit "application/json") (Some t))
    /\ JSON.parse t = Some (VArr [user_record (Int 1) ana]).
Proof.
  intros ana s.
  refine (proj1 (resource_texts_parse_back (lit "user://all") (lit "1") s
                   [user_record (Int 1) ana] _ _)).
  - reflexivity.
  - split; [|exact I]. split; [|vm_compute; reflexivity].
    cbn. repeat split.
Defined.

(** ** Fences that are not there *)

(** A value that was read ends with a code unit that is no backtick. *)
Lemma parsed_last (f : nat) (s : jstring) (v : value) (r : jstring) :
  parse_value f s = Some (v, r) ->
  exists t z, s = t ++ z :: r /\ z <> BACKTICK.
Proof.
  intros H. destruct f as [|f]; [discriminate|]. rewrite parse_value_S in H.
  destruct s as [|x s]; [discriminate H|].
  destruct (is_ch "[" x) eqn:Ea.
  { destruct (skip_ws s) as [|d r1] eqn:Ew; [discriminate H|].
    destruct (skip_ws_found _ _ _ Ew) as [_ [w [-> _]]].
    destruct (is_ch "]" d) eqn:Ec.
    - injection H as <- <-. apply is_ch_eq in Ec. subst d.
      exists (x :: w), (ch "]"). split; [reflexivity | discriminate].
    - destruct (proj1 (proj2 (parsers_prefix_ok f)) _ _ _ _ H) as [ce [Hs [[c0 ->] _]]].
      exists (x :: w ++ c0), (ch "]"). split; [|discriminate].
      rewrite Hs. norm_app. reflexivity. }
  destruct (is_ch "{" x) eqn:Eo.
  { destruct (skip_ws s) as [|d r1] eqn:Ew; [discriminate H|].
    destruct (skip_ws_found _ _ _ Ew) as [_ [w [-> _]]].
    destruct (is_ch "}" d) eqn:Ec.
    - injection H as <- <-. apply is_ch_eq in Ec. subst d.
      exists (x :: w), (ch "}"). split; [reflexivity | discriminate].
    - destruct (proj2 (proj2 (parsers_prefix_ok f)) _ _ _ _ H) as [ce [Hs [[c0 ->] _]]].
      exists (x :: w ++ c0), (ch "}"). split; [|discriminate].
      rewrite Hs. norm_app. reflexivity. }
  destruct (x =? QUOTE)%N eqn:Eq.
  { destruct (parse_string Plain s) as [[str r1]|] eqn:Es; [|discriminate H].
    injection H as <- <-.
    destruct (parse_string_prefix _ _ _ _ Es) as [c [-> [[c0 ->] _]]].
    exists (x :: c0), QUOTE. split; [|discriminate]. norm_app. reflexivity. }
  assert (Hdigit : forall neg s0,
             unsigned_number neg s0 = Some (v, r) ->
             exists t z, s0 = t ++ z :: r /\ z <> BACKTICK).
  { intros neg s0 Hn.
    destruct (unsigned_number_prefix _ _ _ _ Hn) as [c [-> [_ [[t [z [-> Hz]]] _]]]].
    exists t, z. split; [norm_app; reflexivity|].
    intros ->. discriminate Hz. }
  destruct (is_digit x || is_ch "-" x) eqn:En.
  { unfold parse_number in H. destruct (is_ch "-" x).
    - destruct (Hdigit _ _ H) as (t & z & -> & Hz). exists (x :: t), z. split; [reflexivity | exact Hz].
    - exact (Hdigit _ _ H). }
  unfold parse_literal in H.
  destruct (strip_prefix (lit "true") (x :: s)) as [r1|] eqn:E1.
  { injection H as <- <-. apply strip_prefix_Some in E1. rewrite E1.
    exists (lit "tru"), (ch "e"). split; [reflexivity | discriminate]. }
  destruct (strip_prefix (lit "false") (x :: s)) as [r2|] eqn:E2.
  { injection H as <- <-. apply strip_prefix_Some in E2. rewrite E2.
    exists (lit "fals"), (ch "e"). split; [reflexivity | discriminate]. }
  destruct (strip_prefix (lit "null") (x :: s)) as [r3|] eqn:E3; [|discriminate].
  injection H as <- <-. apply strip_prefix_Some in E3. rewrite E3.
  exists (lit "nul"), (ch "l"). split; [reflexivity | discriminate].
Qed.

(** A text that parses is one JSON value with JSON white space
    around it; the value neither starts nor ends with a backtick. *)
Lemma parse_core (body : jstring) (v : value) :
  JSON.parse body = Some v ->
  exists w c w',
    body = w ++ c ++ w'
    /\ Forall (fun x => is_white_space x = true) w
    /\ Forall (fun x => is_white_space x = true) w'
    /\ delimited c /\ trim body = c
    /\ (exists a t, c = a :: t /\ a <> BACKTICK)
    /\ (exists t z, c = t ++ [z] /\ z <> BACKTICK).
Proof.
  unfold JSON.parse.
  destruct (parse_value (S (2 * List.length body)) (skip_ws body)) as [[v' r]|] eqn:E;
    [|discriminate].
  destruct (skip_ws r) as [|x t] eqn:Er; [|discriminate].
  intros _.
  destruct (proj1 (parsers_prefix_ok _) _ _ _ E) as [c [Hs [Hdel _]]].
  destruct (skip_ws_split body) as [w [Hb Hw]]. rewrite Hs in Hb.
  apply json_ws_all_white_space in Hw.
  pose proof (json_ws_all_white_space r (skip_ws_nil r Er)) as Hr.
  exists w, c, r. split; [exact Hb|]. split; [exact Hw|]. split; [exact Hr|].
  split; [exact Hdel|].
  split; [rewrite Hb; apply trim_core; assumption|].
  split.
  - destruct Hdel as [[a [t [-> _]]] _]. exists a, t. split; [reflexivity|].
    intros ->. rewrite Hs in E. cbn [app] in E. rewrite parse_value_S in E.
    discriminate E.
  - destruct (parsed_last _ _ _ _ E) as (t & z & Ht & Hz).
    exists t, z. split; [|exact Hz].
    rewrite Hs in Ht. replace (t ++ z :: r) with ((t ++ [z]) ++ r) in Ht
      by (norm_app; reflexivity).
    apply app_inv_tail in Ht. exact Ht.
Qed.

Lemma remove_leading_other (a : code_unit) (t : jstring) :
  a <> BACKTICK -> remove_leading JSON_FENCE (a :: t) = a :: t.
Proof.
  intros Ha. unfold remove_leading.
  change JSON_FENCE with (BACKTICK :: lit "``json"). cbn [strip_prefix].
  destruct (N.eqb_spec BACKTICK a) as [E|_]; [congruence | reflexivity].
Qed.

Lemma remove_trailing_other (t : jstring) (z : code_unit) :
  z <> BACKTICK -> remove_trailing FENCE (t ++ [z]) = t ++ [z].
Proof.
  intros Hz. unfold remove_trailing. rewrite rev_app_distr. cbn [rev app].
  change (rev FENCE) with (BACKTICK :: lit "``"). cbn [strip_prefix].
  destruct (N.eqb_spec BACKTICK z) as [E|_]; [congruence | reflexivity].
Qed.

(** X14. Each fence is optional on its own: with or without a
    leading [```json], with or without a trailing [```], and whatever
    white space surrounds the text, a body that is valid JSON is
    stripped to its trimmed self and handed to [createUser] as the
    value it denotes. *)
Theorem fences_are_optional :
  forall ws1 ws2 body v lead trail,
    Forall (fun c => is_white_space c = true) ws1 ->
    Forall (fun c => is_white_space c = true) ws2 ->
    JSON.parse body = Some v ->
    lead = JSON_FENCE \/ lead = [] ->
    trail = FENCE \/ trail = [] ->
    let text := ws1 ++ lead ++ body ++ trail ++ ws2 in
    strip_fences text = trim body
    /\ forall s,
        create_random_user (Return (TextContent text)) s
        = match createUser v s with
          | (Return id, s') => (Return (text_result (created_message id)), s')
          | (Throw _, s') =>
              (Return (text_result (lit "Failed to generate user data")), s')
          end.
Proof.
  intros ws1 ws2 body v lead trail H1 H2 Hp Hlead Htrail text.
  assert (Hs : strip_fences text = trim body).
  { destruct (parse_core body v Hp)
      as (w & c & w' & Hb & Hw & Hw' & Hdel & Htrim & (a & ta & Ea & Ha) & (tz & z & Ez & Hz)).
    rewrite Htrim. unfold text, strip_fences. rewrite Hb.
    assert (Hc : trim c = c).
    { rewrite <- (app_nil_r c) at 1. apply (trim_core [] c []); try constructor; apply Hdel. }
    destruct Hdel as [[a' [ta' [Ea' Hwa]]] [tz' [z' [Ez' Hwz]]]].
    destruct Hlead as [-> | ->]; destruct Htrail as [-> | ->].
    - replace (ws1 ++ JSON_FENCE ++ (w ++ c ++ w') ++ FENCE ++ ws2)
        with (ws1 ++ (JSON_FENCE ++ (w ++ c ++ w') ++ FENCE) ++ ws2)
        by (rewrite <- !app_assoc; reflexivity).
      rewrite trim_core; [| exact H1 | exact H2 |].
      + rewrite remove_leading_fence, remove_trailing_fence.
        apply trim_core; [exact Hw | exact Hw' |].
        split; [exists a', ta' | exists tz', z']; split; assumption.
      + split.
        * exists BACKTICK, (lit "``json" ++ (w ++ c ++ w') ++ FENCE). split; reflexivity.
        * exists (JSON_FENCE ++ (w ++ c ++ w') ++ lit "``"), BACKTICK.
          split; [rewrite <- !app_assoc; reflexivity | reflexivity].
    - replace (ws1 ++ JSON_FENCE ++ (w ++ c ++ w') ++ [] ++ ws2)
        with (ws1 ++ (JSON_FENCE ++ w ++ c) ++ (w' ++ ws2))
        by (rewrite <- !app_assoc; reflexivity).
      rewrite trim_core; [| exact H1 | apply Forall_app; split; assumption |].
      + rewrite remove_leading_fence.
        rewrite Ez at 1. rewrite app_assoc, remove_trailing_other by exact Hz.
        rewrite <- app_assoc, <- Ez.
        rewrite <- (app_nil_r c) at 1.
        apply (trim_core w c []); [exact Hw | constructor |].
        split; [exists a', ta' | exists tz', z']; split; assumption.
      + split.
        * exists BACKTICK, (lit "``json" ++ w ++ c). split; reflexivity.
        * exists (JSON_FENCE ++ w ++ tz'), z'. split; [|exact Hwz].
          rewrite Ez' at 1. rewrite <- !app_assoc. reflexivity.
    - replace (ws1 ++ [] ++ (w ++ c ++ w') ++ FENCE ++ ws2)
        with ((ws1 ++ w) ++ (c ++ w' ++ FENCE) ++ ws2)
        by (cbn [app]; rewrite <- !app_assoc; reflexivity).
      rewrite trim_core; [| apply Forall_app; split; assumption | exact H2 |].
      + rewrite Ea at 1. cbn [app]. rewrite remove_leading_other by exact Ha.
        change (a :: ta ++ w' ++ FENCE) with ((a :: ta) ++ w' ++ FENCE).
        rewrite <- Ea, app_assoc, remove_trailing_fence.
        apply (trim_core [] c w'); [constructor | exact Hw' |].
        split; [exists a', ta' | exists tz', z']; split; assumption.
      + split.
        * exists a', (ta' ++ w' ++ FENCE). split; [|exact Hwa].
          rewrite Ea' at 1. reflexivity.
        * exists (c ++ w' ++ lit "``"), BACKTICK.
          split; [rewrite <- !app_assoc; reflexivity | reflexivity].
    - replace (ws1 ++ [] ++ (w ++ c ++ w') ++ [] ++ ws2)
        with ((ws1 ++ w) ++ c ++ (w' ++ ws2))
        by (cbn [app]; rewrite <- !app_assoc; reflexivity).
      rewrite trim_core;
        [| apply Forall_app; split; assumption | apply Forall_app; split; assumption |].
      + rewrite Ea at 1. rewrite remove_leading_other by exact Ha.
        rewrite <- Ea. rewrite Ez at 1. rewrite remove_trailing_other by exact Hz.
        rewrite <- Ez. exact Hc.
      + split; [exists a', ta' | exists tz', z']; split; assumption. }
  split; [exact Hs|].
  intros s. apply create_random_user_parsed. rewrite Hs. apply parse_trim. exact Hp.
Qed.

Lemma fences_are_optional_witness :
  let body := lit "{" ++ JSON.quote (lit "name") ++ lit ":" ++ JSON.quote (lit "Bo") ++ lit "}" in
  let text := lit " " ++ [] ++ body ++ FENCE ++ [JSON.LF] in
  strip_fences text = trim body
  /\ forall s,
      create_random_user (Return (TextContent text)) s
      = match createUser (VObj [(lit "name", VStr (lit "Bo"))]) s with
        | (Return id, s') => (Return (text_result (created_message id)), s')
        | (Throw _, s') =>
            (Return (text_result (lit "Failed to generate user data")), s')
        end.
Proof.
  intros body text.
  refine (fences_are_optional (lit " ") [JSON.LF] body
            (VObj [(lit "name", VStr (lit "Bo"))]) [] FENCE _ _ _ _ _).
  - repeat constructor.
  - repeat constructor.
  - vm_compute; reflexivity.
  - right; reflexivity.
  - left; reflexivity.
Defined.

(** ** The prompt *)

(** X15. The [generate-fake-user] prompt embeds the name as it is,
    between two fixed pieces of text, so the message determines the
    name: two names give the same message only when they are the same,
    and the message is longer than the name by the length of the fixed
    text. *)
Theorem prompt_keeps_the_name :
  forall name1 name2,
    (generate_fake_user name1 = generate_fake_user name2 -> name1 = name2)
    /\ List.length (message_text (generate_fake_user name1))
       = List.length name1 + 107.
Proof.
  intros name1 name2. split.
  - unfold generate_fake_user. intros H. injection H as H.
    apply app_inv_tail in H. exact H.
  - unfold generate_fake_user. cbn [message_text].
    rewrite !length_app.
    repeat match goal with
           | |- context [List.length (lit ?x)] =>
               let a := eval vm_compute in (List.length (lit x)) in
               change (List.length (lit x)) with a
           end.
    lia.
Qed.

(** ** A user id that is no number *)

Lemma equals_number_NaN (v : value) : equals_number v NaN = false.
Proof. destruct v as [| | |n| | |]; try reflexivity. destruct n as [| | |[| |]|]; reflexivity. Qed.

(** X17. A [userId] that [Number] turns into [NaN] finds nothing: in
    any store whose elements are neither [null] nor [undefined] no
    record matches, whatever its [id], and the answer is a resource
    without text. *)
Theorem non_numeric_id_finds_nothing :
  forall href userId s elems,
    users_of s = Some (VArr elems) ->
    Number userId = NaN ->
    Forall (fun u => u <> VNull /\ u <> VUndefined) elems ->
    fst (user_details href userId s)
    = Return (mkResource href (lit "application/json") None).
Proof.
  intros href userId s elems Hu Hn Hel.
  rewrite user_details_spec, Hu. cbn [find_user].
  rewrite array_find_none; [reflexivity|].
  eapply Forall_impl; [|exact Hel]. cbn beta. intros u [H1 H2].
  unfold matches. rewrite Hn.
  destruct u as [| |b|n|str|l|ps]; try congruence; cbn [get_id]; try reflexivity.
  destruct (lookup (lit "id") ps) as [v|]; [|reflexivity].
  rewrite equals_number_NaN. reflexivity.
Qed.

Lemma non_numeric_id_finds_nothing_witness :
  let ana := mkParams (lit "Ana") (lit "ana@x.com") (lit "1 Rd") (lit "555") in
  let s := mkState None true (Some (VArr [user_record (Int 1) ana])) in
  fst (user_details (lit "users://abc/details") (lit "abc") s)
  = Return (mkResource (lit "users://abc/details") (lit "application/json") None).
Proof.
  intros ana s.
  refine (non_numeric_id_finds_nothing (lit "users://abc/details") (lit "abc") s
            [user_record (Int 1) ana] _ _ _).
  - reflexivity.
  - vm_compute; reflexivity.
  - constructor; [split; discriminate | constructor].
Defined.

(** ** Overlapping writes *)

Lemma join_snoc (sep t : jstring) (parts : list jstring) :
  parts <> [] -> join sep (parts ++ [t]) = join sep parts ++ sep ++ t.
Proof.
  induction parts as [|x parts IH]; [congruence|]. intros _.
  destruct parts as [|y parts].
  - reflexivity.
  - change ((x :: y :: parts) ++ [t]) with (x :: (y :: parts) ++ [t]).
    rewrite (join_cons sep x ((y :: parts) ++ [t])) by discriminate.
    rewrite IH by discriminate.
    rewrite (join_cons sep x (y :: parts)) by discriminate.
    rewrite <- !app_assoc. reflexivity.
Qed.

Lemma wrap_pretty (parts : list jstring) :
  parts <> [] ->
  wrap (lit "[") (lit "]") (lit "  ") [] parts
  = (lit "[" ++ [LF] ++ lit "  " ++ join (lit "," ++ [LF] ++ lit "  ") parts)
      ++ [LF; ch "]"].
Proof.
  destruct parts as [|p parts]; [congruence|]. intros _.
  rewrite <- !app_assoc. reflexivity.
Qed.

(** The indented text of an array and of the array with one more
    element agree up to the last element of the shorter one; from
    there the shorter one closes and the longer one goes on. *)
Lemma stringify_pretty_snoc (l : list value) (x : value) :
  l <> [] ->
  exists body,
    JSON.stringify_pretty (VArr l) = Some (body ++ [LF; ch "]"])
    /\ JSON.stringify_pretty (VArr (l ++ [x]))
       = Some (body ++ [ch ","; LF]
                 ++ (lit "  " ++ text_of (lit "  ") (lit "  ") x) ++ [LF; ch "]"]).
Proof.
  intros Hne. unfold JSON.stringify_pretty. rewrite !serialize_array.
  change ([] ++ lit "  ") with (lit "  "). rewrite map_app. cbn [map].
  assert (Hp : map (text_of (lit "  ") (lit "  ")) l <> [])
    by (destruct l; [congruence | discriminate]).
  rewrite !wrap_pretty;
    [| intros E; apply app_eq_nil in E; destruct E as [_ E]; discriminate E | exact Hp].
  rewrite join_snoc by exact Hp.
  eexists. split; [reflexivity|]. f_equal.
  rewrite <- !app_assoc. reflexivity.
Qed.

Lemma overlay_shorter (body tail1 tail2 rest : jstring) :
  List.length tail1 = List.length tail2 ->
  overlay (body ++ tail1) (body ++ tail2 ++ rest) = (body ++ tail1) ++ rest.
Proof.
  intros Hl. unfold overlay. f_equal.
  rewrite length_app, skipn_app.
  rewrite (skipn_all2 body) by lia.
  replace (List.length body + List.length tail1 - List.length body)
    with (List.length tail2) by lia.
  cbn [app]. rewrite skipn_app, skipn_all, Nat.sub_diag. reflexivity.
Qed.

(** A text that parses and is followed by something other than JSON
    white space is rejected as a whole. *)
Lemma parse_with_junk (f : nat) (text junk : jstring) (v : value) :
  parse_value f (text ++ junk) = Some (v, junk) ->
  skip_ws junk <> [] ->
  JSON.parse (text ++ junk) = None.
Proof.
  intros Hv Hj. unfold JSON.parse.
  rewrite (parsed_starts _ _ _ _ Hv), (parse_value_fuel _ _ _ _ Hv).
  destruct (skip_ws junk); [congruence | reflexivity].
Qed.

Lemma parse_value_no_bom (f : nat) (s : jstring) (v : value) (r : jstring) :
  parse_value f s = Some (v, r) -> strip_bom s = s.
Proof.
  intros H. destruct f as [|f]; [discriminate|]. destruct s as [|c t]; [reflexivity|].
  cbn [strip_bom]. destruct (N.eqb_spec c BOM) as [->|_]; [|reflexivity].
  rewrite parse_value_S in H. discriminate H.
Qed.

Lemma run_cons (i : nat) (later : list nat) (pool : list task) (s : state) :
  run (i :: later) (pool, s) = run later (resume_at i pool s).
Proof. reflexivity. Qed.

(** X16. Two overlapping appends of valid field sets on a store of
    plain values damage the file whenever both files are opened before
    either text is written and the text of the first call is written
    last: both calls return their ids, the array in memory holds both
    records, and the file holds the text of the first call laid over
    the longer text of the second, which [JSON.parse] rejects.  The next
    start of the server then fails to import the store. *)
Theorem overlapping_writes_leave_an_overlay :
  forall p q s0 elems,
    users_of s0 = Some (VArr elems) ->
    plain (VArr elems) ->
    writable s0 = true ->
    (Z.of_nat (List.length elems) + 2 < 2 ^ 52)%Z ->
    let first := user_record (Int (Z.of_nat (List.length elems) + 1)) p in
    let second := user_record (Int (Z.of_nat (List.length elems) + 2)) q in
    let c := run [0; 1; 0; 1; 1; 0; 0; 1] (calls [p; q], s0) in
    fst c = [Settled (Return (Int (Z.of_nat (List.length elems) + 1)));
             Settled (Return (Int (Z.of_nat (List.length elems) + 2)))]
    /\ users_of (snd c) = Some (VArr (elems ++ [first; second]))
    /\ (exists text1 text2,
          JSON.stringify_pretty (VArr (elems ++ [first])) = Some text1
          /\ JSON.stringify_pretty (VArr (elems ++ [first; second])) = Some text2
          /\ file (snd c) = Some (overlay text1 text2))
    /\ persisted (snd c) = None.
Proof.
  intros p q [f0 w0 l0] elems Hu Hpl Hw Hlen first second c.
  cbn [writable] in Hw. subst w0. set (s0 := mkState f0 true l0) in *.
  set (users1 := VArr (elems ++ [first])).
  set (users2 := VArr ((elems ++ [first]) ++ [second])).
  destruct (createUser_push_spec s0 elems Hu (params_value p)) as [text1 [Hd1 Hp1]].
  rewrite new_record_valid in Hd1, Hp1. unfold next_id in Hd1, Hp1.
  fold first in Hd1, Hp1. fold users1 in Hd1, Hp1.
  assert (Hu1 : users_of (set_loaded users1 s0) = Some (VArr (elems ++ [first])))
    by reflexivity.
  destruct (createUser_push_spec _ _ Hu1 (params_value q)) as [text2 [Hd2 Hp2]].
  rewrite new_record_valid in Hd2, Hp2. unfold next_id in Hd2, Hp2.
  replace (Z.of_nat (List.length (elems ++ [first])) + 1)%Z
    with (Z.of_nat (List.length elems) + 2)%Z in Hd2, Hp2
    by (rewrite length_app; cbn [List.length]; lia).
  fold second in Hd2, Hp2. fold users2 in Hd2, Hp2.
  assert (Hrun : c = ([Settled (Return (Int (Z.of_nat (List.length elems) + 1)));
                      Settled (Return (Int (Z.of_nat (List.length elems) + 2)))],
                     mkState (Some (overlay text1 text2)) true (Some users2))).
  { unfold c, calls, s0. unfold s0 in Hp1, Hp2. cbn [map].
    rewrite run_cons. cbn [resume_at pending resume]. rewrite Hp1.
    rewrite run_cons. cbn [resume_at pending resume]. rewrite Hp2.
    rewrite run_cons. cbn [resume_at pending resume]. unfold fs_open at 1.
    cbn [writable set_loaded set_file].
    rewrite run_cons. cbn [resume_at pending resume]. unfold fs_open at 1.
    cbn [writable set_loaded set_file].
    rewrite run_cons. cbn [resume_at pending resume]. unfold fs_write at 1.
    cbn [file set_file]. rewrite overlay_empty.
    rewrite run_cons. cbn [resume_at pending resume]. unfold fs_write at 1.
    cbn [file set_file].
    rewrite run_cons. cbn [resume_at pending resume].
    rewrite run_cons. cbn [resume_at pending resume].
    reflexivity. }
  rewrite Hrun. cbn [fst snd].
  split; [reflexivity|].
  split; [unfold users_of, users2; cbn [loaded]; rewrite <- app_assoc; reflexivity|].
  split.
  { exists text1, text2. split; [exact Hd1|]. split; [|reflexivity].
    unfold users2 in Hd2. rewrite <- app_assoc in Hd2. exact Hd2. }
  (* the overlay does not parse *)
  destruct (stringify_pretty_snoc (elems ++ [first]) second) as [body [Hb1 Hb2]].
  { intros E. apply app_eq_nil in E. destruct E as [_ E]. discriminate E. }
  fold users1 in Hb1. fold users2 in Hb2.
  rewrite Hd1 in Hb1. rewrite Hd2 in Hb2. injection Hb1 as ->. injection Hb2 as ->.
  unfold persisted. cbn [file].
  set (junk := (lit "  " ++ text_of (lit "  ") (lit "  ") second) ++ [LF; ch "]"]).
  change (JSON_module (overlay (body ++ [LF; ch "]"]) (body ++ [ch ","; LF] ++ junk))
          = None).
  rewrite (overlay_shorter body [LF; ch "]"] [ch ","; LF] junk eq_refl).
  assert (Hp1' : plain users1).
  { apply plain_snoc; [exact Hpl|]. apply plain_user_record. lia. }
  assert (Hp2' : plain second) by (apply plain_user_record; lia).
  assert (Hjunk : skip_ws junk <> [] /\ ends_number junk).
  { split; [|repeat split; reflexivity].
    destruct (values_read_back (lit "  ") white_two_spaces second (lit "  ")
                [LF; ch "]"] white_two_spaces Hp2' ltac:(repeat split; reflexivity))
      as [f2 Hf2].
    pose proof (parsed_starts _ _ _ _ (Hf2 f2 (le_n _))) as Hs.
    unfold junk. rewrite <- app_assoc.
    rewrite skip_ws_app by apply white_two_spaces.
    rewrite Hs. intros E. apply app_eq_nil in E. destruct E as [_ E].
    discriminate E. }
  destruct Hjunk as [Hskip Hend].
  destruct (values_read_back (lit "  ") white_two_spaces users1 [] junk
              ltac:(constructor) Hp1' Hend) as [f1 Hf1].
  specialize (Hf1 f1 (le_n _)). unfold text_of in Hf1.
  change (serialize (lit "  ") [] users1) with (JSON.stringify_pretty users1) in Hf1.
  rewrite Hd1 in Hf1.
  pose proof (parse_with_junk _ _ _ _ Hf1 Hskip) as Hnone.
  unfold JSON_module. etransitivity; [|exact Hnone].
  f_equal. exact (parse_value_no_bom _ _ _ _ Hf1).
Qed.

Lemma overlapping_writes_leave_an_overlay_witness :
  let ana := mkParams (lit "Ana") (lit "ana@x.com") (lit "1 Rd") (lit "555") in
  let bo := mkParams (lit "Bo") (lit "bo@x.com") (lit "2 Rd") (lit "555") in
  let cy := mkParams (lit "Cy") (lit "cy@x.com") (lit "3 Rd") (lit "555") in
  let s0 := snd (createUser (params_value ana) (mkState (Some (lit "[]")) true None)) in
  let c := run [0; 1; 0; 1; 1; 0; 0; 1] (calls [bo; cy], s0) in
  persisted s0 = Some (VArr [user_record (Int 1) ana])
  /\ fst c = [Settled (Return (Int 2)); Settled (Return (Int 3))]
  /\ users_of (snd c)
     = Some (VArr [user_record (Int 1) ana; user_record (Int 2) bo;
                   user_record (Int 3) cy])
  /\ persisted (snd c) = None.
Proof.
  intros ana bo cy s0 c.
  split; [vm_compute; reflexivity|].
  destruct (overlapping_writes_leave_an_overlay bo cy s0 [user_record (Int 1) ana])
    as [H1 [H2 [_ H4]]].
  - vm_compute; reflexivity.
  - vm_compute. repeat split.
  - reflexivity.
  - reflexivity.
  - split; [exact H1|]. split; [exact H2 | exact H4].
Defined.
